(** * AggregatedStats: the aggregation, filter, sort and cache engine

    A shallow embedding of [src/AggregatedStats.cpp].  The engine owns one
    immutable [HealingStats] snapshot and a [HealWindowOptions] configuration
    and lazily produces the views shown by the healing window: the total,
    the per-skill and per-agent tables, the drill-down tables and the four
    group-filter totals.

    Conventions of the embedding:
    - [uint64_t], [uintptr_t], [uint32_t] and [uint16_t] values are [Z];
      every 64-bit addition of the source is [add64], with the wrap-around
      written out.
    - [std::map<K, V>] is a [gmap Z V]; a range-for over a map visits the
      pairs in ascending key order ([ordered]).
    - a map iterator passed to the filter is an [option]: [None] is [end()].
    - the lazily filled members of the class are fields of the record
      [AggregatedStats]; the non-const member functions are computations
      in the state monad [M] over that record.
    - [float] is IEEE-754 binary32 ([spec_float] at precision 24). *)

From Stdlib Require Import ZArith String Ascii Lia.
From Stdlib Require Import Floats.SpecFloat DecimalString.
From stdpp Require Import gmap strings list fin_maps sorting.

Open Scope Z_scope.

(** ** Machine arithmetic *)

Definition two64 : Z := 2 ^ 64.

(** [a + b] and [a += b] on [uint64_t]. *)
Definition add64 (a b : Z) : Z := (a + b) mod two64.

(** [static_cast<uint32_t>(x)]. *)
Definition to_uint32 (x : Z) : Z := x mod 2 ^ 32.

(** ** Strings produced by the C library *)

(** [%llu] and [%u] conversions, and [std::to_string] on an unsigned value. *)
Definition decimal (x : Z) : string :=
  NilZero.string_of_uint (N.to_uint (Z.to_N x)).

(** [snprintf(buffer, sizeof(buffer), ...)] with [char buffer[1024]]: at most
    1023 characters are kept. *)
Definition snprintf1024 (formatted : string) : string :=
  String.substring 0 1023 formatted.

(** ** Binary32 arithmetic of [GetCombatTime] *)

Definition float : Type := spec_float.
Definition float_of_Z (x : Z) : float := binary_normalize 24 128 x 0 false.
Definition float_sub (x y : float) : float := SFsub 24 128 x y.
Definition float_div (x y : float) : float := SFdiv 24 128 x y.

(** ** Traversal of a [std::map] *)

Definition key_le {V : Type} (a b : Z * V) : Prop := a.1 ≤ b.1.

#[global] Instance key_le_dec {V : Type} (a b : Z * V) : Decision (key_le a b).
Proof. unfold key_le. apply _. Defined.

(** The pairs of a map in the order a range-for visits them. *)
Definition ordered {V : Type} (m : gmap Z V) : list (Z * V) :=
  merge_sort key_le (map_to_list m).

(** ** The snapshot ([HealingStats]) *)

Record AgentStats : Type := mkAgentStats {
  TotalHealing : Z;
  Ticks : Z
}.

Module HealedAgent.
Record t : Type := mk {
  Name : string;
  Subgroup : Z;
  IsMinion : bool
}.
End HealedAgent.

(** The value type of [HealingStats::SkillsHealing]; its declaration is in a
    header, the fields are the ones the engine reads. *)
Module HealedSkill.
Record t : Type := mk {
  Name : string;
  AgentsHealing : gmap Z AgentStats
}.
End HealedSkill.

Record HealingStats : Type := mkHealingStats {
  Agents : gmap Z HealedAgent.t;
  SkillsHealing : gmap Z HealedSkill.t;
  SubGroup : Z;
  EnteredCombatTime : Z;
  ExitedCombatTime : Z;
  LastHealEvent : Z;
  LastDamageEvent : Z
}.

(** ** The configuration ([HealWindowOptions]) *)

Module SortOrder.
Inductive t : Type :=
| AscendingAlphabetical
| DescendingAlphabetical
| AscendingSize
| DescendingSize.
End SortOrder.

Module DataSource.
Inductive t : Type := Agents | Skills | Totals.
End DataSource.

(** [GetCombatTime] tests for [CombatExit] and [LastHealEvent]; every other
    value of the enumeration takes its last branch. *)
Module CombatEndCondition.
Inductive t : Type := CombatExit | LastDamageEvent | LastHealEvent.

Definition eqb (a b : t) : bool :=
  match a, b with
  | CombatExit, CombatExit => true
  | LastDamageEvent, LastDamageEvent => true
  | LastHealEvent, LastHealEvent => true
  | _, _ => false
  end.

#[global] Instance eq_dec : EqDecision t.
Proof. solve_decision. Defined.
End CombatEndCondition.

Module GroupFilter.
Inductive t : Type := Group | Squad | AllExcludingMinions | All.

Definition Max : nat := 4.

(** [static_cast<GroupFilter>(i)]; [None] is the [default:] label. *)
Definition of_index (i : nat) : option t :=
  match i with
  | 0%nat => Some Group
  | 1%nat => Some Squad
  | 2%nat => Some AllExcludingMinions
  | 3%nat => Some All
  | _ => None
  end.
End GroupFilter.

Record HealWindowOptions : Type := mkHealWindowOptions {
  SortOrderChoice : SortOrder.t;
  DataSourceChoice : DataSource.t;
  CombatEndConditionChoice : CombatEndCondition.t;
  ExcludeGroup : bool;
  ExcludeOffGroup : bool;
  ExcludeOffSquad : bool;
  ExcludeMinions : bool;
  ExcludeUnmapped : bool
}.

(** ** Result tables *)

Record AggregatedStatsEntry : Type := mkAggregatedStatsEntry {
  Id : Z;
  Name : string;
  Healing : Z;
  Hits : Z;
  Casts : option Z
}.

Record AggregatedVector : Type := mkAggregatedVector {
  Entries : list AggregatedStatsEntry;
  HighestHealing : Z
}.

(** A default-constructed [AggregatedVector]. *)
Definition AggregatedVector_new : AggregatedVector :=
  {| Entries := []; HighestHealing := 0 |}.

Definition GROUP_FILTER_STRING : list string :=
  ["Group"; "Squad"; "All (Excluding Summons)"; "All (Including Summons)"]%string.

(** [AggregatedVector::Add]. *)
Definition Add (v : AggregatedVector) (pId : Z) (pName : string)
    (pHealing pHits : Z) (pCasts : option Z) : AggregatedVector :=
  let newEntry := mkAggregatedStatsEntry pId pName pHealing pHits pCasts in
  {| Entries := Entries v ++ [newEntry];
     HighestHealing := Z.max (HighestHealing v) (Healing newEntry) |}.

(** ** [std::sort] with a comparator

    [std::sort] leaves the relative order of equivalent elements open; the
    model is one admissible outcome, a merge sort in which [l] may stand
    before [r] when [comp r l] is false. *)

Definition sorted_before {A : Type} (comp : A → A → bool) (l r : A) : Prop :=
  comp r l = false.

#[global] Instance sorted_before_dec {A : Type} (comp : A → A → bool) (l r : A) :
  Decision (sorted_before comp l r).
Proof. unfold sorted_before. apply _. Defined.

Definition std_sort {A : Type} (comp : A → A → bool) (pVector : list A) : list A :=
  merge_sort (sorted_before comp) pVector.

(** ** The object and its lazily filled members *)

Record AggregatedStats : Type := mkAggregatedStats {
  mySourceData : HealingStats;
  myOptions : HealWindowOptions;
  myDebugMode : bool;
  myTotal : option AggregatedStatsEntry;
  myAllAgents : option (gmap Z AgentStats);
  myFilteredAgents : option AggregatedVector;
  mySkills : option AggregatedVector;
  myGroupFilterTotals : option AggregatedVector;
  myAgentsDetailed : gmap Z AggregatedVector;
  mySkillsDetailed : gmap Z AggregatedVector
}.

(** The constructor; its two assertions hold by the types of the choices. *)
Definition AggregatedStats_new (pSourceData : HealingStats)
    (pOptions : HealWindowOptions) (pDebugMode : bool) : AggregatedStats :=
  {| mySourceData := pSourceData; myOptions := pOptions;
     myDebugMode := pDebugMode;
     myTotal := None; myAllAgents := None; myFilteredAgents := None;
     mySkills := None; myGroupFilterTotals := None;
     myAgentsDetailed := ∅; mySkillsDetailed := ∅ |}.

Definition set_myTotal (x : AggregatedStatsEntry) (this : AggregatedStats) :=
  mkAggregatedStats (mySourceData this) (myOptions this) (myDebugMode this)
    (Some x) (myAllAgents this) (myFilteredAgents this) (mySkills this)
    (myGroupFilterTotals this) (myAgentsDetailed this) (mySkillsDetailed this).

Definition set_myAllAgents (x : gmap Z AgentStats) (this : AggregatedStats) :=
  mkAggregatedStats (mySourceData this) (myOptions this) (myDebugMode this)
    (myTotal this) (Some x) (myFilteredAgents this) (mySkills this)
    (myGroupFilterTotals this) (myAgentsDetailed this) (mySkillsDetailed this).

Definition set_myFilteredAgents (x : AggregatedVector) (this : AggregatedStats) :=
  mkAggregatedStats (mySourceData this) (myOptions this) (myDebugMode this)
    (myTotal this) (myAllAgents this) (Some x) (mySkills this)
    (myGroupFilterTotals this) (myAgentsDetailed this) (mySkillsDetailed this).

Definition set_mySkills (x : AggregatedVector) (this : AggregatedStats) :=
  mkAggregatedStats (mySourceData this) (myOptions this) (myDebugMode this)
    (myTotal this) (myAllAgents this) (myFilteredAgents this) (Some x)
    (myGroupFilterTotals this) (myAgentsDetailed this) (mySkillsDetailed this).

Definition set_myGroupFilterTotals (x : AggregatedVector) (this : AggregatedStats) :=
  mkAggregatedStats (mySourceData this) (myOptions this) (myDebugMode this)
    (myTotal this) (myAllAgents this) (myFilteredAgents this) (mySkills this)
    (Some x) (myAgentsDetailed this) (mySkillsDetailed this).

Definition set_myAgentsDetailed (k : Z) (x : AggregatedVector) (this : AggregatedStats) :=
  mkAggregatedStats (mySourceData this) (myOptions this) (myDebugMode this)
    (myTotal this) (myAllAgents this) (myFilteredAgents this) (mySkills this)
    (myGroupFilterTotals this) (<[k := x]> (myAgentsDetailed this))
    (mySkillsDetailed this).

Definition set_mySkillsDetailed (k : Z) (x : AggregatedVector) (this : AggregatedStats) :=
  mkAggregatedStats (mySourceData this) (myOptions this) (myDebugMode this)
    (myTotal this) (myAllAgents this) (myFilteredAgents this) (mySkills this)
    (myGroupFilterTotals this) (myAgentsDetailed this)
    (<[k := x]> (mySkillsDetailed this)).

(** ** The state monad of the non-const member functions *)

Definition M (A : Type) : Type := AggregatedStats → A * AggregatedStats.

#[global] Instance M_ret : MRet M := λ A x this, (x, this).
#[global] Instance M_bind : MBind M :=
  λ A B f m this, let '(x, this') := m this in f x this'.

(** Read a member, or anything computed from the members. *)
Definition member {A : Type} (f : AggregatedStats → A) : M A :=
  λ this, (f this, this).

(** Assign to a member. *)
Definition assign (f : AggregatedStats → AggregatedStats) : M unit :=
  λ this, (tt, f this).

(** The value a computation returns, and the object it leaves. *)
Definition returned {A : Type} (m : M A) (this : AggregatedStats) : A := (m this).1.
Definition after {A : Type} (m : M A) (this : AggregatedStats) : AggregatedStats :=
  (m this).2.

(** ** Concrete snapshots

    The encounter of the specification's scenario and two small variations,
    on which the engine is run. *)
Module Scenario.

(** Skill ids: S1 is 100, S2 is 200; S2 is the indirect one. *)
Definition classify (skillId : Z) (name : string) : bool := skillId =? 200.

Definition synthetic_id : Z := 1.

Definition no_options : HealWindowOptions :=
  {| SortOrderChoice := SortOrder.AscendingAlphabetical;
     DataSourceChoice := DataSource.Agents;
     CombatEndConditionChoice := CombatEndCondition.CombatExit;
     ExcludeGroup := false; ExcludeOffGroup := false;
     ExcludeOffSquad := false; ExcludeMinions := false;
     ExcludeUnmapped := false |}.

(** [excludeOffGroup = true, excludeUnmapped = true], the others false. *)
Definition options : HealWindowOptions :=
  {| SortOrderChoice := SortOrder.DescendingSize;
     DataSourceChoice := DataSource.Skills;
     CombatEndConditionChoice := CombatEndCondition.CombatExit;
     ExcludeGroup := false; ExcludeOffGroup := true;
     ExcludeOffSquad := false; ExcludeMinions := false;
     ExcludeUnmapped := true |}.

(** Agent A is 1 (subgroup 1), agent B is 2 (subgroup 2), agent C is 3 and
    has no entry in the agent map; the observer is in subgroup 1. *)
Definition snapshot : HealingStats :=
  {| Agents :=
       <[1 := HealedAgent.mk "A" 1 false]>
         (<[2 := HealedAgent.mk "B" 2 false]> ∅);
     SkillsHealing :=
       <[100 := HealedSkill.mk "S1"
                  (<[1 := mkAgentStats 100 10]>
                     (<[2 := mkAgentStats 30 3]>
                        (<[3 := mkAgentStats 5 1]> ∅)))]>
         (<[200 := HealedSkill.mk "S2" (<[1 := mkAgentStats 50 5]> ∅)]> ∅);
     SubGroup := 1;
     EnteredCombatTime := 1000; ExitedCombatTime := 5500;
     LastHealEvent := 5000; LastDamageEvent := 4000 |}.

(** Two agents whose healing adds up to [two64]: A in the observer's
    subgroup, B in another one. *)
Definition huge : HealingStats :=
  {| Agents :=
       <[1 := HealedAgent.mk "A" 1 false]>
         (<[2 := HealedAgent.mk "B" 2 false]> ∅);
     SkillsHealing :=
       <[100 := HealedSkill.mk "S1"
                  (<[1 := mkAgentStats (2 ^ 63) 1]>
                     (<[2 := mkAgentStats (2 ^ 63) 1]> ∅))]> ∅;
     SubGroup := 1;
     EnteredCombatTime := 1000; ExitedCombatTime := 5500;
     LastHealEvent := 5000; LastDamageEvent := 4000 |}.

(** An encounter without subgroups: the observer and agent 1 are both in
    subgroup 0. *)
Definition loner : HealedAgent.t := HealedAgent.mk "A" 0 false.

Definition ungrouped : HealingStats :=
  {| Agents := <[1 := loner]> ∅;
     SkillsHealing :=
       <[100 := HealedSkill.mk "S1" (<[1 := mkAgentStats 100 10]> ∅)]> ∅;
     SubGroup := 0;
     EnteredCombatTime := 1000; ExitedCombatTime := 5500;
     LastHealEvent := 5000; LastDamageEvent := 4000 |}.

(** The engine on the scenario, and on the huge amounts with every switch
    off. *)
Definition engine (pDebugMode : bool) : AggregatedStats :=
  AggregatedStats_new snapshot options pDebugMode.

Definition engine_huge : AggregatedStats :=
  AggregatedStats_new huge no_options false.

End Scenario.

Section Engine.

#[local] Set Default Proof Using "Type".

(** The collaborators the source reaches through headers:
    [SkillTable::GlobalState.IsSkillIndirectHealing], the constant
    [IndirectHealingSkillId] and a default-constructed [HealWindowOptions]. *)
Variable IsSkillIndirectHealing : Z → string → bool.
Variable IndirectHealingSkillId : Z.
Variable HealWindowOptions_default : HealWindowOptions.

(** ** Member functions that only read the object

    Inside this section the three members fixed by the constructor are
    variables of the same names. *)
Section Members.

Variable mySourceData : HealingStats.
Variable myOptions : HealWindowOptions.
Variable myDebugMode : bool.

(** [AggregatedStats::FilterInternal]: [true] means the agent is excluded. *)
Definition FilterInternal (pAgent : option HealedAgent.t)
    (pFilter : HealWindowOptions) : bool :=
  match pAgent with
  | None =>
      if ExcludeUnmapped pFilter then true
      else false (* Include unmapped agents regardless of filter *)
  | Some agent =>
      if HealedAgent.IsMinion agent && ExcludeMinions pFilter then true
      else if (HealedAgent.Subgroup agent =? 0)
              && negb (SubGroup mySourceData =? 0)
              && ExcludeOffSquad pFilter then true
      else if negb (HealedAgent.Subgroup agent =? 0)
              && negb (SubGroup mySourceData =? HealedAgent.Subgroup agent)
              && ExcludeOffGroup pFilter then true
      else if (HealedAgent.Subgroup agent =? SubGroup mySourceData)
              && ExcludeGroup pFilter then true
      else false
  end.

(** [AggregatedStats::Filter(std::map<...>::const_iterator&)]. *)
Definition Filter_iterator (pAgent : option HealedAgent.t) : bool :=
  FilterInternal pAgent myOptions.

(** [AggregatedStats::Filter(uintptr_t)]. *)
Definition Filter (pAgentId : Z) : bool :=
  let agent := Agents mySourceData !! pAgentId in
  FilterInternal agent myOptions.

(** [AggregatedStats::Sort]. *)
Definition Sort (pVector : list AggregatedStatsEntry) : list AggregatedStatsEntry :=
  match SortOrderChoice myOptions with
  | SortOrder.AscendingAlphabetical =>
      std_sort (λ pLeft pRight, String.ltb (Name pLeft) (Name pRight)) pVector
  | SortOrder.DescendingAlphabetical =>
      std_sort (λ pLeft pRight, String.ltb (Name pRight) (Name pLeft)) pVector
  | SortOrder.AscendingSize =>
      std_sort (λ pLeft pRight, Healing pLeft <? Healing pRight) pVector
  | SortOrder.DescendingSize =>
      std_sort (λ pLeft pRight, Healing pLeft >? Healing pRight) pVector
  end.

Definition sort_entries (v : AggregatedVector) : AggregatedVector :=
  {| Entries := Sort (Entries v); HighestHealing := HighestHealing v |}.

(** The name given to an agent's entry; [GetAgents] and [GetSkillDetails]
    carry the same block. *)
Definition agentName (agentId : Z) (mapAgent : option HealedAgent.t) : string :=
  if negb myDebugMode then
    match mapAgent with
    | Some a => HealedAgent.Name a
    | None => decimal agentId
    end
  else
    match mapAgent with
    | Some a =>
        snprintf1024 (decimal agentId ++ " ; " ++ decimal (HealedAgent.Subgroup a)
                      ++ " ; " ++ (if HealedAgent.IsMinion a then "1" else "0")
                      ++ " ; " ++ HealedAgent.Name a)%string
    | None => snprintf1024 (decimal agentId ++ " ; (UNMAPPED)")%string
    end.

(** The name given to a skill's entry; [GetSkills] and [GetAgentDetails]
    carry the same block. *)
Definition skillName (skillId : Z) (skill : HealedSkill.t)
    (isIndirectHealing : bool) : string :=
  if negb myDebugMode then HealedSkill.Name skill
  else
    snprintf1024 ((if isIndirectHealing then "(INDIRECT) ; " else "")
                  ++ decimal skillId ++ " ; " ++ HealedSkill.Name skill)%string.

(** The synthetic entry appended after the loop over the skills. *)
Definition addIndirect (v : AggregatedVector)
    (totalIndirectHealing totalIndirectTicks : Z) : AggregatedVector :=
  if negb (totalIndirectHealing =? 0) || negb (totalIndirectTicks =? 0) then
    Add v IndirectHealingSkillId "Healing by Damage Dealt"
        totalIndirectHealing totalIndirectTicks None
  else v.

(** *** [GetSkills] *)

(** Inner loop: the running [totalHealing] and [ticks] of one skill. *)
Definition skills_agent_step (acc : Z * Z) (it : Z * AgentStats) : Z * Z :=
  let '(totalHealing, ticks) := acc in
  let '(agentId, agent) := it in
  if Filter agentId then acc (* Skip this agent *)
  else (add64 totalHealing (TotalHealing agent), add64 ticks (Ticks agent)).

(** The locals alive across the outer loop: the vector under construction,
    [totalIndirectHealing] and [totalIndirectTicks]. *)
Definition loop_state : Type := AggregatedVector * Z * Z.

Definition skills_step (st : loop_state) (it : Z * HealedSkill.t) : loop_state :=
  let '(vec, totalIndirectHealing, totalIndirectTicks) := st in
  let '(skillId, skill) := it in
  let '(totalHealing, ticks) :=
    foldl skills_agent_step (0, 0) (ordered (HealedSkill.AgentsHealing skill)) in
  if IsSkillIndirectHealing skillId (HealedSkill.Name skill) then
    let totalIndirectHealing := add64 totalIndirectHealing totalHealing in
    let totalIndirectTicks := add64 totalIndirectTicks ticks in
    if negb myDebugMode then (vec, totalIndirectHealing, totalIndirectTicks)
    else (Add vec skillId (skillName skillId skill true) totalHealing ticks None,
          totalIndirectHealing, totalIndirectTicks)
  else
    (Add vec skillId (skillName skillId skill false) totalHealing ticks None,
     totalIndirectHealing, totalIndirectTicks).

Definition build_Skills : AggregatedVector :=
  let '(vec, totalIndirectHealing, totalIndirectTicks) :=
    foldl skills_step (AggregatedVector_new, 0, 0)
          (ordered (SkillsHealing mySourceData)) in
  sort_entries (addIndirect vec totalIndirectHealing totalIndirectTicks).

(** *** [GetTotal] *)

Definition total_step (acc : Z * Z) (entry : AggregatedStatsEntry) : Z * Z :=
  let '(healing, hits) := acc in
  (add64 healing (Healing entry), add64 hits (Hits entry)).

Definition build_Total (skills : AggregatedVector) : AggregatedStatsEntry :=
  let '(healing, hits) := foldl total_step (0, 0) (Entries skills) in
  mkAggregatedStatsEntry 0 "__TOTAL__" healing hits None.

(** *** [GetAgentDetails] *)

Definition agent_details_agent_step (pAgentId skillId : Z) (skill : HealedSkill.t)
    (st : loop_state) (it : Z * AgentStats) : loop_state :=
  let '(vec, totalIndirectHealing, totalIndirectTicks) := st in
  let '(agentId, agent) := it in
  if negb (agentId =? pAgentId) then st
  else if IsSkillIndirectHealing skillId (HealedSkill.Name skill) then
    let totalIndirectHealing := add64 totalIndirectHealing (TotalHealing agent) in
    let totalIndirectTicks := add64 totalIndirectTicks (Ticks agent) in
    if negb myDebugMode then (vec, totalIndirectHealing, totalIndirectTicks)
    else (Add vec skillId (skillName skillId skill true)
              (TotalHealing agent) (Ticks agent) None,
          totalIndirectHealing, totalIndirectTicks)
  else
    (Add vec skillId (skillName skillId skill false)
         (TotalHealing agent) (Ticks agent) None,
     totalIndirectHealing, totalIndirectTicks).

Definition agent_details_step (pAgentId : Z) (st : loop_state)
    (it : Z * HealedSkill.t) : loop_state :=
  let '(skillId, skill) := it in
  foldl (agent_details_agent_step pAgentId skillId skill) st
        (ordered (HealedSkill.AgentsHealing skill)).

Definition build_AgentDetails (pAgentId : Z) : AggregatedVector :=
  let '(vec, totalIndirectHealing, totalIndirectTicks) :=
    foldl (agent_details_step pAgentId) (AggregatedVector_new, 0, 0)
          (ordered (SkillsHealing mySourceData)) in
  sort_entries (addIndirect vec totalIndirectHealing totalIndirectTicks).

(** *** [GetSkillDetails] *)

Definition skill_details_step (vec : AggregatedVector)
    (it : Z * AgentStats) : AggregatedVector :=
  let '(agentId, agent) := it in
  let mapAgent := Agents mySourceData !! agentId in
  if Filter_iterator mapAgent then vec (* Exclude agent *)
  else Add vec agentId (agentName agentId mapAgent)
           (TotalHealing agent) (Ticks agent) None.

Definition build_SkillDetails (pSkillId : Z) : AggregatedVector :=
  match SkillsHealing mySourceData !! pSkillId with
  | None => AggregatedVector_new (* Just return the empty vector *)
  | Some sourceData =>
      sort_entries (foldl skill_details_step AggregatedVector_new
                          (ordered (HealedSkill.AgentsHealing sourceData)))
  end.

(** *** [GetAllAgents] *)

Definition all_agents_agent_step (all : gmap Z AgentStats)
    (it : Z * AgentStats) : gmap Z AgentStats :=
  let '(agentId, agent) := it in
  match all !! agentId with
  | None => <[agentId := mkAgentStats (TotalHealing agent) (Ticks agent)]> all
  | Some found => (* Didn't insert new entry *)
      <[agentId := mkAgentStats (add64 (TotalHealing found) (TotalHealing agent))
                                (add64 (Ticks found) (Ticks agent))]> all
  end.

Definition all_agents_step (all : gmap Z AgentStats)
    (it : Z * HealedSkill.t) : gmap Z AgentStats :=
  foldl all_agents_agent_step all (ordered (HealedSkill.AgentsHealing it.2)).

Definition build_AllAgents : gmap Z AgentStats :=
  foldl all_agents_step ∅ (ordered (SkillsHealing mySourceData)).

(** *** [GetAgents] *)

Definition agents_step (vec : AggregatedVector)
    (it : Z * AgentStats) : AggregatedVector :=
  let '(agentId, agent) := it in
  let mapAgent := Agents mySourceData !! agentId in
  if Filter_iterator mapAgent then vec (* Exclude agent *)
  else Add vec agentId (agentName agentId mapAgent)
           (TotalHealing agent) (Ticks agent) None.

Definition build_Agents (allAgents : gmap Z AgentStats) : AggregatedVector :=
  sort_entries (foldl agents_step AggregatedVector_new (ordered allAgents)).

(** *** [GetGroupFilterTotals] *)

(** The assignments of the [switch] over the group filter. *)
Definition set_group_filter (g : GroupFilter.t)
    (fakeOptions : HealWindowOptions) : HealWindowOptions :=
  let set (offGroup offSquad minions : bool) :=
    {| SortOrderChoice := SortOrderChoice fakeOptions;
       DataSourceChoice := DataSourceChoice fakeOptions;
       CombatEndConditionChoice := CombatEndConditionChoice fakeOptions;
       ExcludeGroup := false;
       ExcludeOffGroup := offGroup;
       ExcludeOffSquad := offSquad;
       ExcludeMinions := minions;
       ExcludeUnmapped := true |} in
  match g with
  | GroupFilter.Group => set true true true
  | GroupFilter.Squad => set false true true
  | GroupFilter.AllExcludingMinions => set false false true
  | GroupFilter.All => set false false false
  end.

Definition add_to_entry (agent : AgentStats)
    (entry : AggregatedStatsEntry) : AggregatedStatsEntry :=
  {| Id := Id entry; Name := Name entry;
     Healing := add64 (Healing entry) (TotalHealing agent);
     Hits := add64 (Hits entry) (Ticks agent);
     Casts := Casts entry |}.

(** One round of the inner loop: the entries and [fakeOptions] before and
    after index [i]. *)
Definition group_filter_index_step (mapAgent : option HealedAgent.t)
    (agent : AgentStats) (st : list AggregatedStatsEntry * HealWindowOptions)
    (i : nat) : list AggregatedStatsEntry * HealWindowOptions :=
  let '(entries, fakeOptions) := st in
  let fakeOptions :=
    match GroupFilter.of_index i with
    | Some g => set_group_filter g fakeOptions
    | None => fakeOptions (* assert(false) *)
    end in
  if negb (FilterInternal mapAgent fakeOptions)
  then (alter (add_to_entry agent) i entries, fakeOptions)
  else (entries, fakeOptions).

Definition group_filter_agent_step
    (st : list AggregatedStatsEntry * HealWindowOptions)
    (it : Z * AgentStats) : list AggregatedStatsEntry * HealWindowOptions :=
  let '(agentId, agent) := it in
  let mapAgent := Agents mySourceData !! agentId in
  foldl (group_filter_index_step mapAgent agent) st (seq 0 GroupFilter.Max).

Definition build_GroupFilterTotals
    (allAgents : gmap Z AgentStats) : AggregatedVector :=
  let initial :=
    foldl (λ vec i, Add vec 0 (GROUP_FILTER_STRING !!! i) 0 0 None)
          AggregatedVector_new (seq 0 GroupFilter.Max) in
  let fakeOptions := HealWindowOptions_default in
  let '(entries, _) :=
    foldl group_filter_agent_step (Entries initial, fakeOptions)
          (ordered allAgents) in
  {| Entries := entries;
     HighestHealing :=
       foldl (λ highest entry, Z.max highest (Healing entry))
             (HighestHealing initial) entries |}.

(** *** [GetCombatTime] *)

(** The local [end] of [GetCombatTime]. *)
Definition combat_end : Z :=
  let endCondition := CombatEndConditionChoice myOptions in
  if CombatEndCondition.eqb endCondition CombatEndCondition.CombatExit
     && negb (ExitedCombatTime mySourceData =? 0)
  then ExitedCombatTime mySourceData
  else if CombatEndCondition.eqb endCondition CombatEndCondition.LastHealEvent
          && negb (LastHealEvent mySourceData =? 0)
  then LastHealEvent mySourceData
  else (* Use EnteredCombatTime as a last resort if there are no events yet *)
    Z.max (EnteredCombatTime mySourceData)
          (Z.max (LastHealEvent mySourceData) (LastDamageEvent mySourceData)).

(** [AggregatedStats::GetCombatTime]; [None] is the failed [assert]. *)
Definition GetCombatTime : option float :=
  let end_ := combat_end in
  if EnteredCombatTime mySourceData <=? end_ then
    Some (float_div
            (float_sub (float_of_Z end_)
                       (float_of_Z (EnteredCombatTime mySourceData)))
            (float_of_Z 1000))
  else None.

End Members.

(** ** The public view operations *)

Definition GetSkills : M AggregatedVector :=
  cached ← member mySkills;
  match cached with
  | Some skills => mret skills
  | None =>
      skills ← member (λ this,
        build_Skills (mySourceData this) (myOptions this) (myDebugMode this));
      _ ← assign (set_mySkills skills);
      mret skills
  end.

Definition GetTotal : M AggregatedStatsEntry :=
  cached ← member myTotal;
  match cached with
  | Some total => mret total
  | None =>
      skills ← GetSkills;
      let total := build_Total skills in
      _ ← assign (set_myTotal total);
      mret total
  end.

Definition GetAllAgents : M (gmap Z AgentStats) :=
  cached ← member myAllAgents;
  match cached with
  | Some all => mret all
  | None =>
      all ← member (λ this, build_AllAgents (mySourceData this));
      _ ← assign (set_myAllAgents all);
      mret all
  end.

Definition GetAgents : M AggregatedVector :=
  cached ← member myFilteredAgents;
  match cached with
  | Some agents => mret agents
  | None =>
      all ← GetAllAgents;
      agents ← member (λ this,
        build_Agents (mySourceData this) (myOptions this) (myDebugMode this) all);
      _ ← assign (set_myFilteredAgents agents);
      mret agents
  end.

Definition GetAgentDetails (pAgentId : Z) : M AggregatedVector :=
  cached ← member (λ this, myAgentsDetailed this !! pAgentId);
  match cached with
  | Some details => mret details (* Return cached value *)
  | None =>
      details ← member (λ this,
        build_AgentDetails (mySourceData this) (myOptions this)
                           (myDebugMode this) pAgentId);
      _ ← assign (set_myAgentsDetailed pAgentId details);
      mret details
  end.

Definition GetSkillDetails (pSkillId : Z) : M AggregatedVector :=
  cached ← member (λ this, mySkillsDetailed this !! pSkillId);
  match cached with
  | Some details => mret details (* Return cached value *)
  | None =>
      details ← member (λ this,
        build_SkillDetails (mySourceData this) (myOptions this)
                           (myDebugMode this) pSkillId);
      _ ← assign (set_mySkillsDetailed pSkillId details);
      mret details
  end.

Definition GetGroupFilterTotals : M AggregatedVector :=
  cached ← member myGroupFilterTotals;
  match cached with
  | Some totals => mret totals
  | None =>
      all ← GetAllAgents;
      totals ← member (λ this, build_GroupFilterTotals (mySourceData this) all);
      _ ← assign (set_myGroupFilterTotals totals);
      mret totals
  end.

Definition GetStats (pDataSource : DataSource.t) : M AggregatedVector :=
  match pDataSource with
  | DataSource.Skills => GetSkills
  | DataSource.Agents => GetAgents
  | DataSource.Totals => GetGroupFilterTotals
  end.

(** [case DataSource::Skills:] has no [return]: the call is made and control
    falls through to the next label. *)
Definition GetDetails (pDataSource : DataSource.t) (pId : Z) : M AggregatedVector :=
  match pDataSource with
  | DataSource.Skills =>
      _ ← GetSkillDetails (to_uint32 pId);
      GetAgentDetails pId
  | DataSource.Agents | DataSource.Totals =>
      GetAgentDetails pId
  end.

(** ** Vocabulary of the properties *)

(** The two numeric columns of a table. *)
Inductive column : Type := healing | hits.

Definition stat (c : column) (agent : AgentStats) : Z :=
  match c with healing => TotalHealing agent | hits => Ticks agent end.

Definition cell (c : column) (entry : AggregatedStatsEntry) : Z :=
  match c with healing => Healing entry | hits => Hits entry end.

(** The sum of a column of a table, added up the way [GetTotal] does. *)
Definition column_sum64 (c : column) (entries : list AggregatedStatsEntry) : Z :=
  let '(healing_sum, hits_sum) := foldl total_step (0, 0) entries in
  match c with healing => healing_sum | hits => hits_sum end.

(** The sum without wrap-around. *)
Definition sum_with {A : Type} (f : A → Z) (l : list A) : Z :=
  foldr (λ x s, f x + s) 0 l.

(** The sum of a column of a table as a number. *)
Definition column_sum (c : column) (entries : list AggregatedStatsEntry) : Z :=
  sum_with (cell c) entries.

(** Equality of 64-bit values: congruence modulo [two64]. *)
Definition congr64 (a b : Z) : Prop := a mod two64 = b mod two64.

(** Every (skill, agent) record of the snapshot, in traversal order. *)
Definition record : Type := (Z * HealedSkill.t) * (Z * AgentStats).

Definition records (src : HealingStats) : list record :=
  skill ← ordered (SkillsHealing src);
  pair skill <$> ordered (HealedSkill.AgentsHealing skill.2).

(** What a record adds to a sum that skips the agents [excluded] rejects and
    looks at the skills [only] selects. *)
Definition contribution (c : column) (excluded : Z → bool)
    (only : Z * HealedSkill.t → bool) (r : record) : Z :=
  if only r.1 && negb (excluded r.2.1) then stat c r.2.2 else 0.

Definition raw_sum (c : column) (excluded : Z → bool)
    (only : Z * HealedSkill.t → bool) (src : HealingStats) : Z :=
  sum_with (contribution c excluded only) (records src).

(** What one skill adds, after the filter. *)
Definition skill_sum (c : column) (excluded : Z → bool)
    (skill : Z * HealedSkill.t) : Z :=
  sum_with (λ it : Z * AgentStats, if excluded it.1 then 0 else stat c it.2)
           (ordered (HealedSkill.AgentsHealing skill.2)).

(** The skills [GetSkills] and [GetAgentDetails] list under their own name. *)
Definition listed (pDebugMode : bool) (skill : Z * HealedSkill.t) : bool :=
  pDebugMode || negb (IsSkillIndirectHealing skill.1 (HealedSkill.Name skill.2)).

(** What one row of an agent-keyed table adds to a sum, after a filter. *)
Definition kept (c : column) (excluded : Z → bool) (it : Z * AgentStats) : Z :=
  if excluded it.1 then 0 else stat c it.2.

Definition any_skill (skill : Z * HealedSkill.t) : bool := true.
Definition indirect_skill (skill : Z * HealedSkill.t) : bool :=
  IsSkillIndirectHealing skill.1 (HealedSkill.Name skill.2).
Definition of_agent (pAgentId : Z) (agentId : Z) : bool := negb (agentId =? pAgentId).
Definition nobody (agentId : Z) : bool := false.

(** The whole of a column of the snapshot. *)
Definition raw_total (c : column) (src : HealingStats) : Z :=
  raw_sum c nobody any_skill src.

(** No healing amount or tick count of the snapshot is negative. *)
Definition values_nonneg (src : HealingStats) : bool :=
  forallb (λ r : record, (0 <=? TotalHealing r.2.2) && (0 <=? Ticks r.2.2))
          (records src).

(** No 64-bit sum over the snapshot wraps around, when each record is counted
    at most [copies] times. *)
Definition sums_fit (copies : Z) (src : HealingStats) : Prop :=
  values_nonneg src = true
  ∧ copies * raw_total healing src < two64
  ∧ copies * raw_total hits src < two64.

(** Debug mode lists an indirect skill twice. *)
Definition copies_of (pDebugMode : bool) : Z := if pDebugMode then 2 else 1.

(** No skill of the snapshot is classified as indirect healing. *)
Definition no_indirect (src : HealingStats) : Prop :=
  ∀ skillId skill, SkillsHealing src !! skillId = Some skill →
    IsSkillIndirectHealing skillId (HealedSkill.Name skill) = false.

(** The comparator [Sort] passes to [std::sort]. *)
Definition Sort_comparator (o : HealWindowOptions)
    (pLeft pRight : AggregatedStatsEntry) : bool :=
  match SortOrderChoice o with
  | SortOrder.AscendingAlphabetical => String.ltb (Name pLeft) (Name pRight)
  | SortOrder.DescendingAlphabetical => String.ltb (Name pRight) (Name pLeft)
  | SortOrder.AscendingSize => Healing pLeft <? Healing pRight
  | SortOrder.DescendingSize => Healing pLeft >? Healing pRight
  end.

(** The five switches of the filter. *)
Inductive flag : Type :=
  | FlagGroup | FlagOffGroup | FlagOffSquad | FlagMinions | FlagUnmapped.

Definition flag_of (f : flag) (o : HealWindowOptions) : bool :=
  match f with
  | FlagGroup => ExcludeGroup o
  | FlagOffGroup => ExcludeOffGroup o
  | FlagOffSquad => ExcludeOffSquad o
  | FlagMinions => ExcludeMinions o
  | FlagUnmapped => ExcludeUnmapped o
  end.

(** The options with one switch turned on and everything else as it was. *)
Definition with_flag (f : flag) (o : HealWindowOptions) : HealWindowOptions :=
  {| SortOrderChoice := SortOrderChoice o;
     DataSourceChoice := DataSourceChoice o;
     CombatEndConditionChoice := CombatEndConditionChoice o;
     ExcludeGroup := match f with FlagGroup => true | _ => ExcludeGroup o end;
     ExcludeOffGroup := match f with FlagOffGroup => true | _ => ExcludeOffGroup o end;
     ExcludeOffSquad := match f with FlagOffSquad => true | _ => ExcludeOffSquad o end;
     ExcludeMinions := match f with FlagMinions => true | _ => ExcludeMinions o end;
     ExcludeUnmapped := match f with FlagUnmapped => true | _ => ExcludeUnmapped o end |}.

(** The agents a group filter rejects. *)
Definition excluded_by (src : HealingStats) (g : GroupFilter.t) (agentId : Z) : bool :=
  FilterInternal src (Agents src !! agentId)
                 (set_group_filter g HealWindowOptions_default).

(** The entry [GetGroupFilterTotals] holds for a group filter, read off the
    records of the snapshot. *)
Definition group_entry (src : HealingStats) (g : GroupFilter.t)
    (name : string) : AggregatedStatsEntry :=
  {| Id := 0; Name := name;
     Healing := raw_sum healing (excluded_by src g) any_skill src mod two64;
     Hits := raw_sum hits (excluded_by src g) any_skill src mod two64;
     Casts := None |}.

(** One agent's turn in the loops of [GetGroupFilterTotals], for one entry. *)
Definition bump (src : HealingStats) (g : GroupFilter.t)
    (entry : AggregatedStatsEntry) (it : Z * AgentStats) : AggregatedStatsEntry :=
  if excluded_by src g it.1 then entry else add_to_entry it.2 entry.

(** An entry without a cast count. *)
Definition no_casts (entry : AggregatedStatsEntry) : Prop := Casts entry = None.

(** A table none of whose entries has a cast count. *)
Definition clean (v : AggregatedVector) : Prop := Forall no_casts (Entries v).

(** A merged table without negative amounts. *)
Definition nonneg_map (m : gmap Z AgentStats) : Prop :=
  ∀ k v, m !! k = Some v → 0 ≤ TotalHealing v ∧ 0 ≤ Ticks v.

(** A list of rows without negative amounts. *)
Definition nonneg_rows (l : list (Z * AgentStats)) : Prop :=
  ∀ it, it ∈ l → 0 ≤ TotalHealing it.2 ∧ 0 ≤ Ticks it.2.

(** Every filled member holds what its member function computes: the state
    of an object between two calls. *)
Definition cache_ok (this : AggregatedStats) : Prop :=
  let src := mySourceData this in
  let o := myOptions this in
  let d := myDebugMode this in
  (∀ x, myTotal this = Some x → x = build_Total (build_Skills src o d))
  ∧ (∀ x, myAllAgents this = Some x → x = build_AllAgents src)
  ∧ (∀ x, myFilteredAgents this = Some x →
          x = build_Agents src o d (build_AllAgents src))
  ∧ (∀ x, mySkills this = Some x → x = build_Skills src o d)
  ∧ (∀ x, myGroupFilterTotals this = Some x →
          x = build_GroupFilterTotals src (build_AllAgents src))
  ∧ (∀ k x, myAgentsDetailed this !! k = Some x → x = build_AgentDetails src o d k)
  ∧ (∀ k x, mySkillsDetailed this !! k = Some x → x = build_SkillDetails src o d k).

(** A call leaves the members fixed by the constructor alone. *)
Definition same_members (a b : AggregatedStats) : Prop :=
  mySourceData a = mySourceData b
  ∧ myOptions a = myOptions b
  ∧ myDebugMode a = myDebugMode b.

(** What a call on [this] returns, whatever has been called before. *)
Definition computes {A : Type} (m : M A) (this : AggregatedStats) (x : A) : Prop :=
  ∃ this', m this = (x, this') ∧ cache_ok this' ∧ same_members this this'.

(** *** The object after any history of calls *)

Inductive call : Type :=
  | CallGetTotal
  | CallGetStats (pDataSource : DataSource.t)
  | CallGetDetails (pDataSource : DataSource.t) (pId : Z)
  | CallGetAgents
  | CallGetSkills
  | CallGetAgentDetails (pAgentId : Z)
  | CallGetSkillDetails (pSkillId : Z)
  | CallGetGroupFilterTotals
  | CallGetAllAgents.

Definition perform (this : AggregatedStats) (c : call) : AggregatedStats :=
  match c with
  | CallGetTotal => after GetTotal this
  | CallGetStats pDataSource => after (GetStats pDataSource) this
  | CallGetDetails pDataSource pId => after (GetDetails pDataSource pId) this
  | CallGetAgents => after GetAgents this
  | CallGetSkills => after GetSkills this
  | CallGetAgentDetails pAgentId => after (GetAgentDetails pAgentId) this
  | CallGetSkillDetails pSkillId => after (GetSkillDetails pSkillId) this
  | CallGetGroupFilterTotals => after GetGroupFilterTotals this
  | CallGetAllAgents => after GetAllAgents this
  end.

(** The object the constructor builds, after the calls of [history]. *)
Definition object_after (history : list call) (src : HealingStats)
    (o : HealWindowOptions) (d : bool) : AggregatedStats :=
  foldl perform (AggregatedStats_new src o d) history.

(** *** The end of combat in the words of the specification *)

Definition spec_combat_end (src : HealingStats) (o : HealWindowOptions) : Z :=
  if decide (CombatEndConditionChoice o = CombatEndCondition.CombatExit
             ∧ ExitedCombatTime src ≠ 0)
  then ExitedCombatTime src
  else if decide (CombatEndConditionChoice o = CombatEndCondition.LastHealEvent
                  ∧ LastHealEvent src ≠ 0)
  then LastHealEvent src
  else Z.max (EnteredCombatTime src)
             (Z.max (LastHealEvent src) (LastDamageEvent src)).

(** The invariant of the snapshot's timestamps: none is negative, and combat
    is entered before any other timestamp is set. *)
Definition snapshot_invariant (src : HealingStats) : Prop :=
  0 ≤ EnteredCombatTime src
  ∧ 0 ≤ ExitedCombatTime src ∧ 0 ≤ LastHealEvent src ∧ 0 ≤ LastDamageEvent src
  ∧ (ExitedCombatTime src ≠ 0 → EnteredCombatTime src ≤ ExitedCombatTime src)
  ∧ (LastHealEvent src ≠ 0 → EnteredCombatTime src ≤ LastHealEvent src)
  ∧ (LastDamageEvent src ≠ 0 → EnteredCombatTime src ≤ LastDamageEvent src).

(** *** Binary32 values in the words of the specification *)

(** A positive normal binary32 number [f] is within half a unit in the last
    place of the quotient [num / den], and only [+0] stands for the quotient
    0: [f] is the quotient rounded to binary32. *)
Definition within_half_ulp (f : float) (num den : Z) : Prop :=
  match f with
  | S754_zero false => num = 0
  | S754_finite false m e =>
      Z.pos (digits2_pos m) = 24 ∧ -149 ≤ e ≤ 104
      ∧ 2 * Z.abs (num * 2 ^ Z.max (- e) 0 - den * Z.pos m * 2 ^ Z.max e 0)
        ≤ den * 2 ^ Z.max e 0
  | _ => False
  end.

(** The binary32 number [f] is the integer [n], with a 24-bit mantissa. *)
Definition represents (f : float) (n : Z) : Prop :=
  match f with
  | S754_zero false => n = 0
  | S754_finite false m e =>
      Z.pos (digits2_pos m) = 24 ∧ -23 ≤ e ≤ 0 ∧ Z.pos m = n * 2 ^ (- e)
  | _ => False
  end.

(** What is left of a location when one more bit is shifted out. *)
Definition halved (bit : bool) (l : location) : location :=
  match bit, l with
  | false, loc_Exact => loc_Exact
  | false, loc_Inexact _ => loc_Inexact Lt
  | true, loc_Exact => loc_Inexact Eq
  | true, loc_Inexact _ => loc_Inexact Gt
  end.

(** *** Vocabulary of the further properties *)

(** The class the filter puts a mapped agent in, named by the switch that
    rejects it: same subgroup as the observer, no subgroup while the observer
    has one, or another subgroup. *)
Definition agent_class (src : HealingStats) (agent : HealedAgent.t) : flag :=
  if HealedAgent.Subgroup agent =? SubGroup src then FlagGroup
  else if HealedAgent.Subgroup agent =? 0 then FlagOffSquad
  else FlagOffGroup.

(** [HighestHealing] bounds the healing of every entry and, unless it is
    still 0, is the healing of one of them. *)
Definition highest_ok (v : AggregatedVector) : Prop :=
  (∀ entry, entry ∈ Entries v → Healing entry ≤ HighestHealing v)
  ∧ (HighestHealing v = 0
     ∨ ∃ entry, entry ∈ Entries v ∧ Healing entry = HighestHealing v).

(** The order of the names and of the healing a sort order asks for. *)
Definition in_order (order : SortOrder.t) (a b : AggregatedStatsEntry) : Prop :=
  match order with
  | SortOrder.AscendingAlphabetical => String.leb (Name a) (Name b) = true
  | SortOrder.DescendingAlphabetical => String.leb (Name b) (Name a) = true
  | SortOrder.AscendingSize => Healing a ≤ Healing b
  | SortOrder.DescendingSize => Healing b ≤ Healing a
  end.

(** The entry [GetAgents] and [GetSkillDetails] make of a row. *)
Definition agent_row (src : HealingStats) (d : bool)
    (it : Z * AgentStats) : AggregatedStatsEntry :=
  mkAggregatedStatsEntry it.1 (agentName d it.1 (Agents src !! it.1))
    (TotalHealing it.2) (Ticks it.2) None.

(** The entry [GetSkills] makes of a skill it lists. *)
Definition skill_row (src : HealingStats) (o : HealWindowOptions) (d : bool)
    (sk : Z * HealedSkill.t) : AggregatedStatsEntry :=
  mkAggregatedStatsEntry sk.1 (skillName d sk.1 sk.2 (indirect_skill sk))
    (skill_sum healing (Filter src o) sk mod two64)
    (skill_sum hits (Filter src o) sk mod two64) None.

(** The agent has no record in any skill of the snapshot. *)
Definition never_healed (src : HealingStats) (agentId : Z) : Prop :=
  ∀ skillId skill, SkillsHealing src !! skillId = Some skill →
    HealedSkill.AgentsHealing skill !! agentId = None.

(** Two configurations with the same five switches. *)
Definition same_switches (o o' : HealWindowOptions) : Prop :=
  ∀ f, flag_of f o = flag_of f o'.


(** The synthetic entry [GetSkills] and [GetAgentDetails] append for the
    indirect healing of the agents [excluded] keeps, if there is any. *)
Definition synthetic_rows (excluded : Z → bool) (src : HealingStats) :
    list AggregatedStatsEntry :=
  let totalIndirectHealing := raw_sum healing excluded indirect_skill src mod two64 in
  let totalIndirectTicks := raw_sum hits excluded indirect_skill src mod two64 in
  if negb (totalIndirectHealing =? 0) || negb (totalIndirectTicks =? 0) then
    [mkAggregatedStatsEntry IndirectHealingSkillId "Healing by Damage Dealt"
       totalIndirectHealing totalIndirectTicks None]
  else [].

(** The row of a skill in the details of an agent: the record the skill
    holds for the agent, if it holds one and the skill is listed. *)
Definition detail_row (d : bool) (pAgentId : Z) (sk : Z * HealedSkill.t) :
    option AggregatedStatsEntry :=
  if listed d sk then
    (λ agent, mkAggregatedStatsEntry sk.1 (skillName d sk.1 sk.2 (indirect_skill sk))
                (TotalHealing agent) (Ticks agent) None)
    <$> HealedSkill.AgentsHealing sk.2 !! pAgentId
  else None.

(** The agents the configured filter keeps. *)
Definition passes (src : HealingStats) (o : HealWindowOptions)
    (it : Z * AgentStats) : Prop :=
  Filter src o it.1 = false.

#[local] Instance passes_dec src o it : Decision (passes src o it).
Proof. unfold passes. apply _. Defined.

(** * Properties *)

(** ** 64-bit sums *)

Lemma add64_reduced a b : add64 a b mod two64 = add64 a b.
Proof. unfold add64. apply Z.mod_mod. discriminate. Qed.

Lemma add64_exact a b : 0 ≤ a → 0 ≤ b → a + b < two64 → add64 a b = a + b.
Proof. intros. unfold add64. apply Z.mod_small. lia. Qed.

#[local] Instance congr64_equiv : Equivalence congr64.
Proof.
  unfold congr64. split.
  - intros a. reflexivity.
  - intros a b H. symmetry. exact H.
  - intros a b c H1 H2. congruence.
Qed.

#[local] Instance add_congr64 : Proper (congr64 ==> congr64 ==> congr64) Z.add.
Proof.
  unfold congr64. intros a a' Ha b b' Hb.
  rewrite (Z.add_mod a b), (Z.add_mod a' b') by discriminate.
  rewrite Ha, Hb. reflexivity.
Qed.

Lemma congr64_mod a : congr64 (a mod two64) a.
Proof. unfold congr64. apply Z.mod_mod. discriminate. Qed.

Lemma congr64_add64 a b : congr64 (add64 a b) (a + b).
Proof. apply congr64_mod. Qed.

(** ** Sums over lists *)

Lemma sum_with_app {A} (f : A → Z) l k :
  sum_with f (l ++ k) = sum_with f l + sum_with f k.
Proof. induction l as [|x l IH]; simpl; [reflexivity | rewrite IH; lia]. Qed.

#[local] Instance sum_with_perm {A} (f : A → Z) :
  Proper ((≡ₚ) ==> (=)) (sum_with f).
Proof.
  intros l k H. induction H; simpl; try lia.
Qed.

Lemma sum_with_ext {A} (f g : A → Z) l :
  (∀ x, x ∈ l → f x = g x) → sum_with f l = sum_with g l.
Proof.
  induction l as [|x l IH]; simpl; intros H; [reflexivity|].
  rewrite (H x), IH; [reflexivity | | left].
  intros y Hy. apply H. right. exact Hy.
Qed.

Lemma sum_with_le {A} (f g : A → Z) l :
  (∀ x, x ∈ l → f x ≤ g x) → sum_with f l ≤ sum_with g l.
Proof.
  induction l as [|x l IH]; simpl; intros H; [lia|].
  assert (f x ≤ g x) by (apply H; left).
  assert (sum_with f l ≤ sum_with g l) by (apply IH; intros y Hy; apply H; right; exact Hy).
  lia.
Qed.

Lemma sum_with_zero {A} (l : list A) : sum_with (λ _, 0) l = 0.
Proof. induction l; simpl; lia. Qed.

Lemma sum_with_nonneg {A} (f : A → Z) l :
  (∀ x, x ∈ l → 0 ≤ f x) → 0 ≤ sum_with f l.
Proof.
  intros H. rewrite <- (sum_with_zero l). apply sum_with_le. exact H.
Qed.

Lemma sum_with_plus {A} (f g : A → Z) l :
  sum_with (λ x, f x + g x) l = sum_with f l + sum_with g l.
Proof. induction l as [|x l IH]; simpl; lia. Qed.

Lemma sum_with_fmap {A B} (f : B → Z) (g : A → B) l :
  sum_with f (g <$> l) = sum_with (λ x, f (g x)) l.
Proof. induction l as [|x l IH]; simpl; [reflexivity | f_equal; exact IH]. Qed.

Lemma sum_with_bind {A B} (f : B → Z) (g : A → list B) l :
  sum_with f (l ≫= g) = sum_with (λ x, sum_with f (g x)) l.
Proof.
  induction l as [|x l IH]; simpl; [reflexivity|].
  rewrite sum_with_app. f_equal. exact IH.
Qed.

Lemma sum_with_elem_le {A} (f : A → Z) l x :
  (∀ y, y ∈ l → 0 ≤ f y) → x ∈ l → f x ≤ sum_with f l.
Proof.
  intros Hpos Hx. apply list_elem_of_split in Hx as (l1 & l2 & ->).
  rewrite sum_with_app. simpl.
  assert (0 ≤ sum_with f l1).
  { apply sum_with_nonneg. intros y Hy. apply Hpos, elem_of_app. left. exact Hy. }
  assert (0 ≤ sum_with f l2).
  { apply sum_with_nonneg. intros y Hy. apply Hpos, elem_of_app.
    right. right. exact Hy. }
  lia.
Qed.

(** A loop that adds [f x] to a 64-bit accumulator computes the sum modulo
    [two64]. *)
Lemma foldl_add64 {A} (f : A → Z) l a :
  a mod two64 = a →
  foldl (λ s x, add64 s (f x)) a l = (a + sum_with f l) mod two64.
Proof.
  revert a. induction l as [|x l IH]; simpl; intros a Ha.
  - rewrite Z.add_0_r. symmetry. exact Ha.
  - rewrite IH by apply add64_reduced.
    change (congr64 (add64 a (f x) + sum_with f l) (a + (f x + sum_with f l))).
    rewrite congr64_add64, Z.add_assoc. reflexivity.
Qed.

Lemma foldl_total_step l a b :
  foldl total_step (a, b) l =
  (foldl (λ s e, add64 s (Healing e)) a l, foldl (λ s e, add64 s (Hits e)) b l).
Proof. revert a b. induction l as [|e l IH]; simpl; intros; [reflexivity | apply IH]. Qed.

Lemma column_sum64_spec c entries :
  column_sum64 c entries = sum_with (cell c) entries mod two64.
Proof.
  unfold column_sum64. rewrite foldl_total_step.
  destruct c; simpl; rewrite foldl_add64 by reflexivity; reflexivity.
Qed.

(** ** Traversals and sorting are permutations *)

Lemma ordered_perm {V} (m : gmap Z V) : ordered m ≡ₚ map_to_list m.
Proof. apply merge_sort_Permutation. Qed.

Lemma std_sort_perm {A} (comp : A → A → bool) l : std_sort comp l ≡ₚ l.
Proof. apply merge_sort_Permutation. Qed.

Lemma Sort_perm o l : Sort o l ≡ₚ l.
Proof. unfold Sort. destruct (SortOrderChoice o); apply std_sort_perm. Qed.

Lemma sum_with_sort_entries c o v :
  sum_with (cell c) (Entries (sort_entries o v)) = sum_with (cell c) (Entries v).
Proof. simpl. rewrite Sort_perm. reflexivity. Qed.

Lemma elem_of_ordered {V} (m : gmap Z V) k v :
  (k, v) ∈ ordered m ↔ m !! k = Some v.
Proof. rewrite ordered_perm. apply elem_of_map_to_list. Qed.

(** A range-for visits the keys in strictly ascending order. *)
Lemma ordered_ascending {V} (m : gmap Z V) :
  StronglySorted (λ a b : Z * V, a.1 < b.1) (ordered m).
Proof.
  assert (Hle : StronglySorted key_le (ordered m)).
  { apply Sorted_StronglySorted.
    - intros a b c. unfold key_le. lia.
    - apply Sorted_merge_sort. intros a b. unfold key_le. lia. }
  assert (Hnd : NoDup (ordered m).*1).
  { rewrite ordered_perm. apply NoDup_fst_map_to_list. }
  induction Hle as [|a l Hl IH Ha]; [constructor|].
  cbn in Hnd. apply NoDup_cons in Hnd as [Hnotin Hnd].
  constructor; [apply IH, Hnd|].
  rewrite Forall_forall in Ha |- *. intros b Hb.
  specialize (Ha b Hb). unfold key_le in Ha.
  destruct (decide (a.1 = b.1)) as [Heq|Hne]; [|lia].
  exfalso. apply Hnotin. rewrite Heq. apply list_elem_of_fmap. exists b. auto.
Qed.

Lemma String_ltb_asym a b : String.ltb a b = true → String.ltb b a = false.
Proof.
  unfold String.ltb. rewrite (String.compare_antisym b a).
  destruct (String.compare a b); simpl; congruence.
Qed.

Lemma Sort_comparator_asym o a b :
  Sort_comparator o a b = true → Sort_comparator o b a = false.
Proof.
  unfold Sort_comparator. destruct (SortOrderChoice o);
    try apply String_ltb_asym; rewrite ?Z.gtb_ltb; lia.
Qed.

Lemma Sort_std_sort o l : Sort o l = std_sort (Sort_comparator o) l.
Proof. unfold Sort, Sort_comparator. destruct (SortOrderChoice o); reflexivity. Qed.

(** The outcome of [Sort] is one [std::sort] may produce: a permutation in
    which no entry is followed by one the comparator puts before it. *)
Lemma Sort_sorted o l : Sorted (sorted_before (Sort_comparator o)) (Sort o l).
Proof.
  rewrite Sort_std_sort. apply Sorted_merge_sort. intros a b.
  unfold sorted_before.
  destruct (Sort_comparator o b a) eqn:Hba; [right | left; reflexivity].
  apply Sort_comparator_asym, Hba.
Qed.

(** ** The filter reads the five switches only *)

Lemma FilterInternal_ext src agent o o' :
  ExcludeGroup o = ExcludeGroup o' →
  ExcludeOffGroup o = ExcludeOffGroup o' →
  ExcludeOffSquad o = ExcludeOffSquad o' →
  ExcludeMinions o = ExcludeMinions o' →
  ExcludeUnmapped o = ExcludeUnmapped o' →
  FilterInternal src agent o = FilterInternal src agent o'.
Proof.
  intros H1 H2 H3 H4 H5. unfold FilterInternal.
  rewrite H1, H2, H3, H4, H5. reflexivity.
Qed.

(** The filter is monotone in every switch. *)
Lemma FilterInternal_mono src agent o o' :
  (∀ f, flag_of f o = true → flag_of f o' = true) →
  FilterInternal src agent o = true → FilterInternal src agent o' = true.
Proof.
  intros H.
  pose proof (H FlagGroup) as HG. pose proof (H FlagOffGroup) as HOG.
  pose proof (H FlagOffSquad) as HOS. pose proof (H FlagMinions) as HM.
  pose proof (H FlagUnmapped) as HU. simpl in *.
  unfold FilterInternal. destruct agent as [a|].
  - destruct (HealedAgent.IsMinion a), (HealedAgent.Subgroup a =? 0),
      (SubGroup src =? 0), (SubGroup src =? HealedAgent.Subgroup a),
      (HealedAgent.Subgroup a =? SubGroup src),
      (ExcludeMinions o), (ExcludeOffSquad o), (ExcludeOffGroup o),
      (ExcludeGroup o); simpl; intros Hx;
      try discriminate Hx;
      rewrite ?HM, ?HOS, ?HOG, ?HG by reflexivity; simpl;
      repeat match goal with
             | |- context [if ?b then _ else _] => destruct b; simpl
             end; reflexivity.
  - destruct (ExcludeUnmapped o); [|discriminate]. rewrite HU; reflexivity.
Qed.

Lemma flag_of_with_flag f g o :
  flag_of g o = true → flag_of g (with_flag f o) = true.
Proof. destruct f, g; simpl; intros H; try exact H; reflexivity. Qed.

(** ** [GetSkills] as a sum over the records *)

Lemma raw_sum_skills c excluded only src :
  raw_sum c excluded only src =
  sum_with (λ skill, if only skill then skill_sum c excluded skill else 0)
           (ordered (SkillsHealing src)).
Proof.
  unfold raw_sum, records. rewrite sum_with_bind.
  apply sum_with_ext. intros skill _. rewrite sum_with_fmap.
  unfold contribution, skill_sum. simpl.
  destruct (only skill); simpl.
  - apply sum_with_ext. intros it _. destruct (excluded it.1); reflexivity.
  - apply sum_with_zero.
Qed.

Lemma skills_agent_loop src o l a b :
  a mod two64 = a → b mod two64 = b →
  foldl (skills_agent_step src o) (a, b) l =
  ((a + sum_with (λ it : Z * AgentStats,
                    if Filter src o it.1 then 0 else stat healing it.2) l) mod two64,
   (b + sum_with (λ it : Z * AgentStats,
                    if Filter src o it.1 then 0 else stat hits it.2) l) mod two64).
Proof.
  revert a b. induction l as [|[agentId agent] l IH]; simpl; intros a b Ha Hb.
  - rewrite !Z.add_0_r, Ha, Hb. reflexivity.
  - destruct (Filter src o agentId); simpl.
    + rewrite IH by assumption. reflexivity.
    + rewrite IH by apply add64_reduced.
      f_equal.
      * change (congr64 (add64 a (TotalHealing agent) + sum_with (λ it : Z * AgentStats,
                    if Filter src o it.1 then 0 else stat healing it.2) l)
                  (a + (TotalHealing agent + sum_with (λ it : Z * AgentStats,
                    if Filter src o it.1 then 0 else stat healing it.2) l))).
        rewrite congr64_add64, Z.add_assoc. reflexivity.
      * change (congr64 (add64 b (Ticks agent) + sum_with (λ it : Z * AgentStats,
                    if Filter src o it.1 then 0 else stat hits it.2) l)
                  (b + (Ticks agent + sum_with (λ it : Z * AgentStats,
                    if Filter src o it.1 then 0 else stat hits it.2) l))).
        rewrite congr64_add64, Z.add_assoc. reflexivity.
Qed.

Lemma skills_agent_loop_skill src o skill :
  foldl (skills_agent_step src o) (0, 0) (ordered (HealedSkill.AgentsHealing skill.2)) =
  (skill_sum healing (Filter src o) skill mod two64,
   skill_sum hits (Filter src o) skill mod two64).
Proof. rewrite skills_agent_loop by reflexivity. reflexivity. Qed.

Lemma sum_with_Add c v pId pName pHealing pHits pCasts :
  sum_with (cell c) (Entries (Add v pId pName pHealing pHits pCasts)) =
  sum_with (cell c) (Entries v) + match c with healing => pHealing | hits => pHits end.
Proof. simpl. rewrite sum_with_app. destruct c; simpl; lia. Qed.

Lemma sum_with_addIndirect c v a b :
  sum_with (cell c) (Entries (addIndirect v a b)) =
  sum_with (cell c) (Entries v) + match c with healing => a | hits => b end.
Proof.
  unfold addIndirect.
  destruct (a =? 0) eqn:Ha, (b =? 0) eqn:Hb; simpl negb; simpl orb; cbv iota;
    rewrite ?sum_with_Add; try reflexivity.
  apply Z.eqb_eq in Ha, Hb. subst. destruct c; lia.
Qed.

Lemma sum_with_congr {A} (f g : A → Z) l :
  (∀ x, x ∈ l → congr64 (f x) (g x)) → congr64 (sum_with f l) (sum_with g l).
Proof.
  induction l as [|x l IH]; simpl; intros H; [reflexivity|].
  rewrite (H x), IH; [reflexivity | | left].
  intros y Hy. apply H. right. exact Hy.
Qed.

Lemma sum_with_cons {A} (f : A → Z) x l :
  sum_with f (x :: l) = f x + sum_with f l.
Proof. reflexivity. Qed.

Lemma add64_then_sum a x s :
  (add64 a (x mod two64) + s) mod two64 = (a + (x + s)) mod two64.
Proof.
  change (congr64 (add64 a (x mod two64) + s) (a + (x + s))).
  rewrite congr64_add64, congr64_mod, Z.add_assoc. reflexivity.
Qed.

Lemma add64_raw_then_sum a x s :
  (add64 a x + s) mod two64 = (a + (x + s)) mod two64.
Proof.
  change (congr64 (add64 a x + s) (a + (x + s))).
  rewrite congr64_add64, Z.add_assoc. reflexivity.
Qed.

(** One round of the loop over the skills. *)
Lemma skills_step_eq src o d vec ih it sk :
  skills_step src o d (vec, ih, it) sk =
  (if listed d sk
   then Add vec sk.1 (skillName d sk.1 sk.2 (indirect_skill sk))
            (skill_sum healing (Filter src o) sk mod two64)
            (skill_sum hits (Filter src o) sk mod two64) None
   else vec,
   if indirect_skill sk
   then add64 ih (skill_sum healing (Filter src o) sk mod two64) else ih,
   if indirect_skill sk
   then add64 it (skill_sum hits (Filter src o) sk mod two64) else it).
Proof.
  destruct sk as [skillId skill]. unfold skills_step, listed, indirect_skill.
  cbn [fst snd].
  change (ordered (HealedSkill.AgentsHealing skill))
    with (ordered (HealedSkill.AgentsHealing (skillId, skill).2)).
  rewrite skills_agent_loop_skill.
  destruct (IsSkillIndirectHealing skillId (HealedSkill.Name skill)), d; reflexivity.
Qed.

Lemma skills_loop src o d l vec ih it :
  ih mod two64 = ih → it mod two64 = it →
  ∃ vec', foldl (skills_step src o d) (vec, ih, it) l =
    (vec',
     (ih + sum_with (λ sk, if indirect_skill sk
                           then skill_sum healing (Filter src o) sk else 0) l) mod two64,
     (it + sum_with (λ sk, if indirect_skill sk
                           then skill_sum hits (Filter src o) sk else 0) l) mod two64)
  ∧ ∀ c, sum_with (cell c) (Entries vec') =
         sum_with (cell c) (Entries vec)
         + sum_with (λ sk, if listed d sk
                           then skill_sum c (Filter src o) sk mod two64 else 0) l.
Proof.
  revert vec ih it. induction l as [|sk l IH]; intros vec ih it Hh Ht.
  - exists vec. simpl. rewrite !Z.add_0_r, Hh, Ht. split; [reflexivity|].
    intros c. lia.
  - cbn [foldl]. rewrite !sum_with_cons, skills_step_eq.
    match goal with
    | |- context [foldl _ (?v, ?a, ?b) l] =>
        destruct (IH v a b) as (vec' & Hfold & Hsum)
    end.
    { destruct (indirect_skill sk); [apply add64_reduced | exact Hh]. }
    { destruct (indirect_skill sk); [apply add64_reduced | exact Ht]. }
    exists vec'. rewrite Hfold. split.
    + destruct (indirect_skill sk).
      * rewrite !add64_then_sum. reflexivity.
      * rewrite !Z.add_0_l. reflexivity.
    + intros c. rewrite Hsum, sum_with_cons.
      destruct (listed d sk); [rewrite sum_with_Add; destruct c; cbv iota; lia | lia].
Qed.

(** The entries of [GetSkills] add up to what the kept records hold; debug
    mode adds the indirect skills once more. *)
Lemma build_Skills_sum c src o d :
  congr64 (sum_with (cell c) (Entries (build_Skills src o d)))
          (raw_sum c (Filter src o) any_skill src
           + if d then raw_sum c (Filter src o) indirect_skill src else 0).
Proof.
  unfold build_Skills.
  destruct (skills_loop src o d (ordered (SkillsHealing src))
              AggregatedVector_new 0 0 eq_refl eq_refl) as (vec & -> & Hsum).
  rewrite sum_with_sort_entries, sum_with_addIndirect, Hsum. simpl sum_with at 1.
  rewrite !raw_sum_skills, !Z.add_0_l.
  set (l := ordered (SkillsHealing src)).
  assert (Hlisted : congr64
    (sum_with (λ sk, if listed d sk
                     then skill_sum c (Filter src o) sk mod two64 else 0) l)
    (sum_with (λ sk, if listed d sk then skill_sum c (Filter src o) sk else 0) l)).
  { apply sum_with_congr. intros sk _.
    destruct (listed d sk); [apply congr64_mod | reflexivity]. }
  assert (Hbucket : congr64
    (match c with
     | healing => sum_with (λ sk, if indirect_skill sk
                   then skill_sum healing (Filter src o) sk else 0) l mod two64
     | hits => sum_with (λ sk, if indirect_skill sk
                   then skill_sum hits (Filter src o) sk else 0) l mod two64
     end)
    (sum_with (λ sk, if indirect_skill sk
                     then skill_sum c (Filter src o) sk else 0) l)).
  { destruct c; apply congr64_mod. }
  rewrite Hlisted, Hbucket. clear Hlisted Hbucket Hsum.
  destruct d.
  - rewrite <- !sum_with_plus. apply sum_with_congr. intros sk _.
    unfold listed, any_skill, indirect_skill. simpl. reflexivity.
  - rewrite Z.add_0_r, <- sum_with_plus. apply sum_with_congr. intros sk _.
    unfold listed, any_skill, indirect_skill. simpl.
    destruct (IsSkillIndirectHealing sk.1 (HealedSkill.Name sk.2)); simpl;
      [rewrite Z.add_0_l | rewrite Z.add_0_r]; reflexivity.
Qed.

(** ** [GetAllAgents] keeps every record *)

Lemma kept_pair c excluded agentId agent :
  kept c excluded (agentId, agent) = if excluded agentId then 0 else stat c agent.
Proof. reflexivity. Qed.

Lemma skill_sum_kept c excluded sk :
  skill_sum c excluded sk =
  sum_with (kept c excluded) (ordered (HealedSkill.AgentsHealing sk.2)).
Proof. reflexivity. Qed.

Lemma all_agents_agent_step_sum c excluded all it :
  congr64 (sum_with (kept c excluded) (map_to_list (all_agents_agent_step all it)))
          (sum_with (kept c excluded) (map_to_list all) + kept c excluded it).
Proof.
  destruct it as [agentId agent]. unfold all_agents_agent_step.
  destruct (all !! agentId) as [found|] eqn:Hfound.
  - rewrite <- insert_delete_eq.
    rewrite map_to_list_insert by apply lookup_delete_eq.
    rewrite <- (map_to_list_delete all agentId found Hfound).
    rewrite !sum_with_cons, !kept_pair.
    destruct (excluded agentId).
    + rewrite Z.add_0_r. reflexivity.
    + destruct c; cbn [stat TotalHealing Ticks];
        rewrite congr64_add64;
        match goal with |- congr64 ?a ?b => replace a with b by lia end;
        reflexivity.
  - rewrite map_to_list_insert by exact Hfound.
    rewrite sum_with_cons, !kept_pair.
    destruct (excluded agentId); [|destruct c]; cbn [stat TotalHealing Ticks];
      match goal with |- congr64 ?a ?b => replace a with b by lia end;
      reflexivity.
Qed.

Lemma all_agents_agent_loop c excluded l all :
  congr64 (sum_with (kept c excluded)
             (map_to_list (foldl all_agents_agent_step all l)))
          (sum_with (kept c excluded) (map_to_list all)
           + sum_with (kept c excluded) l).
Proof.
  revert all. induction l as [|it l IH]; intros all.
  - simpl. rewrite Z.add_0_r. reflexivity.
  - cbn [foldl]. rewrite IH, all_agents_agent_step_sum, sum_with_cons, Z.add_assoc.
    reflexivity.
Qed.

Lemma all_agents_loop c excluded l all :
  congr64 (sum_with (kept c excluded) (map_to_list (foldl all_agents_step all l)))
          (sum_with (kept c excluded) (map_to_list all)
           + sum_with (skill_sum c excluded) l).
Proof.
  revert all. induction l as [|sk l IH]; intros all.
  - simpl. rewrite Z.add_0_r. reflexivity.
  - cbn [foldl]. rewrite IH. unfold all_agents_step.
    rewrite all_agents_agent_loop, sum_with_cons, skill_sum_kept, Z.add_assoc.
    reflexivity.
Qed.

(** The merged table holds, for any set of agents, what the records hold. *)
Lemma build_AllAgents_sum c excluded src :
  congr64 (sum_with (kept c excluded) (map_to_list (build_AllAgents src)))
          (raw_sum c excluded any_skill src).
Proof.
  unfold build_AllAgents. rewrite all_agents_loop, map_to_list_empty.
  rewrite raw_sum_skills. simpl sum_with at 1. rewrite Z.add_0_l.
  reflexivity.
Qed.

(** ** [GetAgents] as a sum over the records *)

Lemma agents_loop c src o d l vec :
  sum_with (cell c) (Entries (foldl (agents_step src o d) vec l)) =
  sum_with (cell c) (Entries vec) + sum_with (kept c (Filter src o)) l.
Proof.
  revert vec. induction l as [|[agentId agent] l IH]; intros vec.
  - simpl. lia.
  - cbn [foldl]. rewrite IH, sum_with_cons. unfold agents_step.
    rewrite kept_pair.
    change (Filter_iterator src o (Agents src !! agentId)) with (Filter src o agentId).
    destruct (Filter src o agentId); [lia|].
    rewrite sum_with_Add. destruct c; cbn [stat]; lia.
Qed.

Lemma build_Agents_entries c src o d all :
  sum_with (cell c) (Entries (build_Agents src o d all)) =
  sum_with (kept c (Filter src o)) (map_to_list all).
Proof.
  unfold build_Agents. rewrite sum_with_sort_entries, agents_loop, ordered_perm.
  simpl. lia.
Qed.

Lemma build_Agents_sum c src o d :
  congr64 (sum_with (cell c) (Entries (build_Agents src o d (build_AllAgents src))))
          (raw_sum c (Filter src o) any_skill src).
Proof. rewrite build_Agents_entries. apply build_AllAgents_sum. Qed.

(** ** [GetGroupFilterTotals] as four sums over the records *)

(** The [default:] label of the switch over the group filter is never
    reached, and every index of the inner loop is one of the four entries. *)
Lemma group_filter_switch_covers i :
  i ∈ seq 0 GroupFilter.Max →
  is_Some (GroupFilter.of_index i) ∧ is_Some (GROUP_FILTER_STRING !! i).
Proof.
  rewrite elem_of_seq. unfold GroupFilter.Max. intros [_ Hi].
  do 4 (destruct i as [|i]; [split; eexists; reflexivity|]). lia.
Qed.

Lemma excluded_by_fake src g agentId fakeOptions :
  FilterInternal src (Agents src !! agentId) (set_group_filter g fakeOptions) =
  excluded_by src g agentId.
Proof. unfold excluded_by. destruct g; apply FilterInternal_ext; reflexivity. Qed.

Lemma group_filter_agent_step_eq src e0 e1 e2 e3 fakeOptions it :
  ∃ fakeOptions',
    group_filter_agent_step src ([e0; e1; e2; e3], fakeOptions) it =
    ([bump src GroupFilter.Group e0 it; bump src GroupFilter.Squad e1 it;
      bump src GroupFilter.AllExcludingMinions e2 it;
      bump src GroupFilter.All e3 it], fakeOptions').
Proof.
  destruct it as [agentId agent].
  unfold group_filter_agent_step, GroupFilter.Max, bump.
  cbn [seq foldl group_filter_index_step GroupFilter.of_index fst snd].
  repeat match goal with
         | |- context [FilterInternal src (Agents src !! agentId)
                                      (set_group_filter ?g ?f)] =>
             rewrite (excluded_by_fake src g agentId f)
         | |- context [if negb (excluded_by src ?g agentId) then _ else _] =>
             destruct (excluded_by src g agentId);
             cbn [negb foldl group_filter_index_step GroupFilter.of_index]
         end;
    eexists; reflexivity.
Qed.

Lemma group_filter_loop src l e0 e1 e2 e3 fakeOptions :
  ∃ fakeOptions',
    foldl (group_filter_agent_step src) ([e0; e1; e2; e3], fakeOptions) l =
    ([foldl (bump src GroupFilter.Group) e0 l;
      foldl (bump src GroupFilter.Squad) e1 l;
      foldl (bump src GroupFilter.AllExcludingMinions) e2 l;
      foldl (bump src GroupFilter.All) e3 l], fakeOptions').
Proof.
  revert e0 e1 e2 e3 fakeOptions.
  induction l as [|it l IH]; intros e0 e1 e2 e3 fakeOptions.
  - exists fakeOptions. reflexivity.
  - cbn [foldl].
    destruct (group_filter_agent_step_eq src e0 e1 e2 e3 fakeOptions it)
      as (fakeOptions1 & ->).
    apply IH.
Qed.

Lemma bump_loop src g l entry :
  Healing entry mod two64 = Healing entry →
  Hits entry mod two64 = Hits entry →
  foldl (bump src g) entry l =
  {| Id := Id entry; Name := Name entry;
     Healing := (Healing entry
                 + sum_with (kept healing (excluded_by src g)) l) mod two64;
     Hits := (Hits entry + sum_with (kept hits (excluded_by src g)) l) mod two64;
     Casts := Casts entry |}.
Proof.
  revert entry. induction l as [|[agentId agent] l IH]; intros entry Hh Ht.
  - simpl. rewrite !Z.add_0_r, Hh, Ht. destruct entry; reflexivity.
  - cbn [foldl]. rewrite !sum_with_cons, !kept_pair. unfold bump at 2.
    cbn [fst snd]. destruct (excluded_by src g agentId).
    + rewrite IH by assumption. reflexivity.
    + rewrite IH by apply add64_reduced. cbn [add_to_entry Id Name Healing Hits Casts stat].
      rewrite !add64_raw_then_sum. reflexivity.
Qed.

Lemma group_entry_loop src g name :
  foldl (bump src g) (mkAggregatedStatsEntry 0 name 0 0 None)
        (ordered (build_AllAgents src)) =
  group_entry src g name.
Proof.
  rewrite bump_loop by reflexivity. unfold group_entry.
  cbn [Id Name Healing Hits Casts]. rewrite !Z.add_0_l, !ordered_perm.
  f_equal; apply build_AllAgents_sum.
Qed.

Lemma build_GroupFilterTotals_entries src :
  Entries (build_GroupFilterTotals src (build_AllAgents src)) =
  [group_entry src GroupFilter.Group "Group";
   group_entry src GroupFilter.Squad "Squad";
   group_entry src GroupFilter.AllExcludingMinions "All (Excluding Summons)";
   group_entry src GroupFilter.All "All (Including Summons)"].
Proof.
  unfold build_GroupFilterTotals.
  cbn [GroupFilter.Max seq foldl Add Entries HighestHealing GROUP_FILTER_STRING
       lookup_total list_lookup_total app AggregatedVector_new].
  match goal with
  | |- context [foldl (group_filter_agent_step src) ([?a; ?b; ?c; ?d], ?f) ?l] =>
      destruct (group_filter_loop src l a b c d f) as (fakeOptions' & ->)
  end.
  cbn [Entries]. rewrite !group_entry_loop. reflexivity.
Qed.

(** ** The drill-down tables as sums over the records *)

Lemma build_SkillDetails_entries c src o d pSkillId :
  sum_with (cell c) (Entries (build_SkillDetails src o d pSkillId)) =
  match SkillsHealing src !! pSkillId with
  | Some skill => skill_sum c (Filter src o) (pSkillId, skill)
  | None => 0
  end.
Proof.
  unfold build_SkillDetails. destruct (SkillsHealing src !! pSkillId) as [skill|].
  - rewrite sum_with_sort_entries.
    change (skill_details_step src o d) with (agents_step src o d).
    rewrite agents_loop. simpl. reflexivity.
  - reflexivity.
Qed.

Lemma agent_details_agent_loop c d pAgentId sk l vec ih it :
  ih mod two64 = ih → it mod two64 = it →
  ∃ vec', foldl (agent_details_agent_step d pAgentId sk.1 sk.2) (vec, ih, it) l =
    (vec',
     (ih + if indirect_skill sk
           then sum_with (kept healing (of_agent pAgentId)) l else 0) mod two64,
     (it + if indirect_skill sk
           then sum_with (kept hits (of_agent pAgentId)) l else 0) mod two64)
  ∧ sum_with (cell c) (Entries vec') =
    sum_with (cell c) (Entries vec)
    + if listed d sk then sum_with (kept c (of_agent pAgentId)) l else 0.
Proof.
  revert vec ih it. induction l as [|[agentId agent] l IH]; intros vec ih it Hh Ht.
  - exists vec. cbn [foldl sum_with foldr].
    destruct (indirect_skill sk), (listed d sk); rewrite !Z.add_0_r, Hh, Ht;
      split; reflexivity.
  - cbn [foldl]. rewrite !sum_with_cons, !kept_pair.
    unfold agent_details_agent_step at 2, of_agent at 1 3 5.
    destruct (agentId =? pAgentId); cbn [negb].
    + unfold listed, indirect_skill in *.
      destruct (IsSkillIndirectHealing sk.1 (HealedSkill.Name sk.2)).
      * destruct d; cbn [negb orb] in *.
        -- edestruct IH as (vec' & -> & Hsum);
             [apply add64_reduced | apply add64_reduced |].
           exists vec'. rewrite Hsum, sum_with_Add, !add64_raw_then_sum.
           split; [reflexivity | destruct c; cbn [stat]; lia].
        -- edestruct IH as (vec' & -> & Hsum);
             [apply add64_reduced | apply add64_reduced |].
           exists vec'. rewrite Hsum, !add64_raw_then_sum.
           split; reflexivity.
      * rewrite orb_true_r in *.
        edestruct IH as (vec' & -> & Hsum); [exact Hh | exact Ht |].
        exists vec'. rewrite Hsum, sum_with_Add.
        split; [reflexivity | destruct c; cbn [stat]; lia].
    + edestruct IH as (vec' & -> & Hsum); [exact Hh | exact Ht |].
      exists vec'. rewrite Hsum, !Z.add_0_l. split; reflexivity.
Qed.

Lemma agent_details_loop c d pAgentId l vec ih it :
  ih mod two64 = ih → it mod two64 = it →
  ∃ vec', foldl (agent_details_step d pAgentId) (vec, ih, it) l =
    (vec',
     (ih + sum_with (λ sk, if indirect_skill sk
             then skill_sum healing (of_agent pAgentId) sk else 0) l) mod two64,
     (it + sum_with (λ sk, if indirect_skill sk
             then skill_sum hits (of_agent pAgentId) sk else 0) l) mod two64)
  ∧ sum_with (cell c) (Entries vec') =
    sum_with (cell c) (Entries vec)
    + sum_with (λ sk, if listed d sk
                      then skill_sum c (of_agent pAgentId) sk else 0) l.
Proof.
  revert vec ih it. induction l as [|sk l IH]; intros vec ih it Hh Ht.
  - exists vec. simpl. rewrite !Z.add_0_r, Hh, Ht. split; [reflexivity | lia].
  - cbn [foldl]. rewrite !sum_with_cons.
    replace (agent_details_step d pAgentId (vec, ih, it) sk)
      with (foldl (agent_details_agent_step d pAgentId sk.1 sk.2) (vec, ih, it)
                  (ordered (HealedSkill.AgentsHealing sk.2)))
      by (destruct sk; reflexivity).
    destruct (agent_details_agent_loop c d pAgentId sk
                (ordered (HealedSkill.AgentsHealing sk.2)) vec ih it Hh Ht)
      as (vec1 & -> & Hsum1).
    edestruct (IH vec1) as (vec' & -> & Hsum);
      [apply Z.mod_mod; discriminate | apply Z.mod_mod; discriminate |].
    exists vec'. rewrite Hsum, Hsum1, <- !skill_sum_kept. split; [|lia].
    f_equal; [f_equal|].
    + change (congr64
        ((ih + if indirect_skill sk then skill_sum healing (of_agent pAgentId) sk else 0)
           mod two64
         + sum_with (λ sk, if indirect_skill sk
             then skill_sum healing (of_agent pAgentId) sk else 0) l)
        (ih + ((if indirect_skill sk then skill_sum healing (of_agent pAgentId) sk else 0)
               + sum_with (λ sk, if indirect_skill sk
                   then skill_sum healing (of_agent pAgentId) sk else 0) l))).
      rewrite congr64_mod, Z.add_assoc. reflexivity.
    + change (congr64
        ((it + if indirect_skill sk then skill_sum hits (of_agent pAgentId) sk else 0)
           mod two64
         + sum_with (λ sk, if indirect_skill sk
             then skill_sum hits (of_agent pAgentId) sk else 0) l)
        (it + ((if indirect_skill sk then skill_sum hits (of_agent pAgentId) sk else 0)
               + sum_with (λ sk, if indirect_skill sk
                   then skill_sum hits (of_agent pAgentId) sk else 0) l))).
      rewrite congr64_mod, Z.add_assoc. reflexivity.
Qed.

(** ** The lazily filled members never change what a call returns *)

Lemma cache_ok_new src o d : cache_ok (AggregatedStats_new src o d).
Proof.
  unfold cache_ok. simpl. repeat split; intros; try discriminate.
  all: rewrite lookup_empty in *; discriminate.
Qed.

Lemma same_members_refl this : same_members this this.
Proof. repeat split. Qed.

Ltac run_call :=
  unfold computes, mbind, M_bind, mret, M_ret, member, assign; cbn beta iota.

Ltac members_of H :=
  destruct H as (Hsrc & Hopt & Hdbg); cbn in Hsrc, Hopt, Hdbg.

Lemma GetSkills_computes this :
  cache_ok this →
  computes GetSkills this
    (build_Skills (mySourceData this) (myOptions this) (myDebugMode this)).
Proof.
  intros Hok. unfold GetSkills. run_call.
  destruct (mySkills this) as [cached|] eqn:Hc.
  - exists this. pose proof Hok as (_ & _ & _ & H & _).
    rewrite (H _ Hc). auto using same_members_refl.
  - eexists. split; [reflexivity|]. split; [|repeat split].
    destruct Hok as (H1 & H2 & H3 & H4 & H5 & H6 & H7).
    unfold cache_ok. cbn. repeat split; try assumption.
    intros x [= <-]. reflexivity.
Qed.

Lemma GetAllAgents_computes this :
  cache_ok this →
  computes GetAllAgents this (build_AllAgents (mySourceData this)).
Proof.
  intros Hok. unfold GetAllAgents. run_call.
  destruct (myAllAgents this) as [cached|] eqn:Hc.
  - exists this. pose proof Hok as (_ & H & _).
    rewrite (H _ Hc). auto using same_members_refl.
  - eexists. split; [reflexivity|]. split; [|repeat split].
    destruct Hok as (H1 & H2 & H3 & H4 & H5 & H6 & H7).
    unfold cache_ok. cbn. repeat split; try assumption.
    intros x [= <-]. reflexivity.
Qed.

Lemma GetTotal_computes this :
  cache_ok this →
  computes GetTotal this
    (build_Total (build_Skills (mySourceData this) (myOptions this)
                               (myDebugMode this))).
Proof.
  intros Hok. unfold GetTotal. run_call.
  destruct (myTotal this) as [cached|] eqn:Hc.
  - exists this. pose proof Hok as (H & _).
    rewrite (H _ Hc). auto using same_members_refl.
  - destruct (GetSkills_computes this Hok) as (this1 & -> & Hok1 & Hsame).
    eexists. split; [reflexivity|]. split; [|exact Hsame].
    members_of Hsame.
    destruct Hok1 as (H1 & H2 & H3 & H4 & H5 & H6 & H7).
    unfold cache_ok. cbn. rewrite <- Hsrc, <- Hopt, <- Hdbg in *.
    repeat split; try assumption.
    intros x [= <-]. reflexivity.
Qed.

Lemma GetAgents_computes this :
  cache_ok this →
  computes GetAgents this
    (build_Agents (mySourceData this) (myOptions this) (myDebugMode this)
                  (build_AllAgents (mySourceData this))).
Proof.
  intros Hok. unfold GetAgents. run_call.
  destruct (myFilteredAgents this) as [cached|] eqn:Hc.
  - exists this. pose proof Hok as (_ & _ & H & _).
    rewrite (H _ Hc). auto using same_members_refl.
  - destruct (GetAllAgents_computes this Hok) as (this1 & -> & Hok1 & Hsame).
    members_of Hsame. rewrite <- Hsrc, <- Hopt, <- Hdbg.
    eexists. split; [reflexivity|]. split; [|repeat split; assumption].
    destruct Hok1 as (H1 & H2 & H3 & H4 & H5 & H6 & H7).
    unfold cache_ok. cbn. rewrite <- Hsrc, <- Hopt, <- Hdbg in *.
    repeat split; try assumption.
    intros x [= <-]. reflexivity.
Qed.

Lemma GetGroupFilterTotals_computes this :
  cache_ok this →
  computes GetGroupFilterTotals this
    (build_GroupFilterTotals (mySourceData this)
                             (build_AllAgents (mySourceData this))).
Proof.
  intros Hok. unfold GetGroupFilterTotals. run_call.
  destruct (myGroupFilterTotals this) as [cached|] eqn:Hc.
  - exists this. pose proof Hok as (_ & _ & _ & _ & H & _).
    rewrite (H _ Hc). auto using same_members_refl.
  - destruct (GetAllAgents_computes this Hok) as (this1 & -> & Hok1 & Hsame).
    members_of Hsame. rewrite <- Hsrc.
    eexists. split; [reflexivity|]. split; [|repeat split; assumption].
    destruct Hok1 as (H1 & H2 & H3 & H4 & H5 & H6 & H7).
    unfold cache_ok. cbn. rewrite <- Hsrc, <- Hopt, <- Hdbg in *.
    repeat split; try assumption.
    intros x [= <-]. reflexivity.
Qed.

Lemma GetAgentDetails_computes this pAgentId :
  cache_ok this →
  computes (GetAgentDetails pAgentId) this
    (build_AgentDetails (mySourceData this) (myOptions this) (myDebugMode this)
                        pAgentId).
Proof.
  intros Hok. unfold GetAgentDetails. run_call.
  destruct (myAgentsDetailed this !! pAgentId) as [cached|] eqn:Hc.
  - exists this. pose proof Hok as (_ & _ & _ & _ & _ & H & _).
    rewrite (H _ _ Hc). auto using same_members_refl.
  - eexists. split; [reflexivity|]. split; [|repeat split].
    destruct Hok as (H1 & H2 & H3 & H4 & H5 & H6 & H7).
    unfold cache_ok. cbn. repeat split; try assumption.
    intros k x. rewrite lookup_insert. case_decide as Hk.
    + subst k. intros [= <-]. reflexivity.
    + apply H6.
Qed.

Lemma GetSkillDetails_computes this pSkillId :
  cache_ok this →
  computes (GetSkillDetails pSkillId) this
    (build_SkillDetails (mySourceData this) (myOptions this) (myDebugMode this)
                        pSkillId).
Proof.
  intros Hok. unfold GetSkillDetails. run_call.
  destruct (mySkillsDetailed this !! pSkillId) as [cached|] eqn:Hc.
  - exists this. pose proof Hok as (_ & _ & _ & _ & _ & _ & H).
    rewrite (H _ _ Hc). auto using same_members_refl.
  - eexists. split; [reflexivity|]. split; [|repeat split].
    destruct Hok as (H1 & H2 & H3 & H4 & H5 & H6 & H7).
    unfold cache_ok. cbn. repeat split; try assumption.
    intros k x. rewrite lookup_insert. case_decide as Hk.
    + subst k. intros [= <-]. reflexivity.
    + apply H7.
Qed.

(** Whatever the data source, [GetDetails] returns the table of
    [GetAgentDetails]. *)
Lemma GetDetails_computes this pDataSource pId :
  cache_ok this →
  computes (GetDetails pDataSource pId) this
    (build_AgentDetails (mySourceData this) (myOptions this) (myDebugMode this)
                        pId).
Proof.
  intros Hok. destruct pDataSource; cbn [GetDetails];
    try apply GetAgentDetails_computes; try assumption.
  run_call.
  destruct (GetSkillDetails_computes this (to_uint32 pId) Hok)
    as (this1 & -> & Hok1 & Hsame).
  destruct (GetAgentDetails_computes this1 pId Hok1) as (this2 & -> & Hok2 & Hsame2).
  destruct Hsame as (Hsrc & Hopt & Hdbg). rewrite Hsrc, Hopt, Hdbg.
  exists this2. destruct Hsame2 as (Hsrc2 & Hopt2 & Hdbg2).
  split; [reflexivity|]. split; [exact Hok2|].
  unfold same_members. repeat split; congruence.
Qed.

Lemma returned_computes {A} (m : M A) this x :
  computes m this x → returned m this = x.
Proof. intros (this' & H & _). unfold returned. rewrite H. reflexivity. Qed.

(** ** Sums that do not wrap around *)

Lemma values_nonneg_stat src c r :
  values_nonneg src = true → r ∈ records src → 0 ≤ stat c r.2.2.
Proof.
  unfold values_nonneg. rewrite forallb_forall. intros H Hr.
  apply list_elem_of_In, H, andb_prop in Hr as [Hh Ht].
  apply Z.leb_le in Hh, Ht. destruct c; assumption.
Qed.

Lemma contribution_nonneg src c excluded only r :
  values_nonneg src = true → r ∈ records src → 0 ≤ contribution c excluded only r.
Proof.
  intros H Hr. unfold contribution.
  destruct (only r.1 && negb (excluded r.2.1)); [|lia].
  eapply values_nonneg_stat; eassumption.
Qed.

Lemma raw_sum_nonneg src c excluded only :
  values_nonneg src = true → 0 ≤ raw_sum c excluded only src.
Proof.
  intros H. apply sum_with_nonneg. intros r Hr.
  eapply contribution_nonneg; eassumption.
Qed.

(** Rejecting more agents, or looking at fewer skills, never adds to a sum. *)
Lemma raw_sum_mono src c excluded excluded' only only' :
  values_nonneg src = true →
  (∀ agentId, excluded agentId = true → excluded' agentId = true) →
  (∀ skill, only' skill = true → only skill = true) →
  raw_sum c excluded' only' src ≤ raw_sum c excluded only src.
Proof.
  intros H Hex Honly. apply sum_with_le. intros r Hr. unfold contribution.
  pose proof (values_nonneg_stat src c r H Hr).
  specialize (Hex r.2.1). specialize (Honly r.1).
  destruct (only' r.1), (only r.1), (excluded r.2.1), (excluded' r.2.1);
    simpl; try lia; try (discriminate Hex; reflexivity);
    try (discriminate Honly; reflexivity).
Qed.

Lemma raw_sum_le_total src c excluded only :
  values_nonneg src = true → raw_sum c excluded only src ≤ raw_total c src.
Proof.
  intros H. apply raw_sum_mono; [exact H | discriminate | reflexivity].
Qed.

Lemma elem_of_records src sk ag :
  sk ∈ ordered (SkillsHealing src) →
  ag ∈ ordered (HealedSkill.AgentsHealing sk.2) →
  (sk, ag) ∈ records src.
Proof.
  intros Hsk Hag. unfold records. apply list_elem_of_bind.
  exists sk. split; [|exact Hsk]. apply list_elem_of_fmap. exists ag. auto.
Qed.

Lemma skill_sum_bounds src c excluded pSkillId skill :
  values_nonneg src = true →
  SkillsHealing src !! pSkillId = Some skill →
  0 ≤ skill_sum c excluded (pSkillId, skill) ≤ raw_total c src.
Proof.
  intros H Hsk. apply elem_of_ordered in Hsk.
  assert (Hnn : ∀ exc sk, sk ∈ ordered (SkillsHealing src) → 0 ≤ skill_sum c exc sk).
  { intros exc sk Hin. apply sum_with_nonneg. intros ag Hag.
    destruct (exc ag.1); [lia|].
    apply (values_nonneg_stat src c (sk, ag) H). apply elem_of_records; assumption. }
  split; [apply Hnn; exact Hsk|].
  transitivity (skill_sum c nobody (pSkillId, skill)).
  - apply sum_with_le. intros ag Hag. unfold nobody.
    destruct (excluded ag.1); [|lia].
    apply (values_nonneg_stat src c ((pSkillId, skill), ag) H).
    apply elem_of_records; assumption.
  - unfold raw_total. rewrite raw_sum_skills. unfold any_skill.
    apply (sum_with_elem_le (skill_sum c nobody) _ (pSkillId, skill)); [|exact Hsk].
    intros sk Hin. apply Hnn. exact Hin.
Qed.

Lemma congr64_exact a b :
  congr64 a b → 0 ≤ b < two64 → a mod two64 = b.
Proof. intros H Hb. rewrite H. apply Z.mod_small. exact Hb. Qed.

Lemma doubled_fits src c d excluded :
  sums_fit (copies_of d) src →
  0 ≤ raw_sum c excluded any_skill src
      + (if d then raw_sum c excluded indirect_skill src else 0) < two64.
Proof.
  intros (Hnn & Hh & Ht).
  pose proof (raw_sum_nonneg src c excluded any_skill Hnn).
  pose proof (raw_sum_nonneg src c excluded indirect_skill Hnn).
  pose proof (raw_sum_le_total src c excluded any_skill Hnn).
  pose proof (raw_sum_le_total src c excluded indirect_skill Hnn).
  destruct d, c; unfold copies_of in *; lia.
Qed.

Lemma single_fits src c d excluded only :
  sums_fit (copies_of d) src → 0 ≤ raw_sum c excluded only src < two64.
Proof.
  intros (Hnn & Hh & Ht).
  pose proof (raw_sum_nonneg src c excluded only Hnn).
  pose proof (raw_sum_le_total src c excluded only Hnn).
  pose proof (raw_sum_nonneg src c nobody any_skill Hnn).
  unfold raw_total in *. destruct d, c; unfold copies_of in *; lia.
Qed.

(** The sums of the views, when nothing wraps around. *)
Lemma column_sum64_Skills_exact c src o d :
  sums_fit (copies_of d) src →
  column_sum64 c (Entries (build_Skills src o d)) =
  raw_sum c (Filter src o) any_skill src
  + (if d then raw_sum c (Filter src o) indirect_skill src else 0).
Proof.
  intros Hfit. rewrite column_sum64_spec.
  apply congr64_exact; [apply build_Skills_sum | apply doubled_fits; exact Hfit].
Qed.

Lemma group_entry_exact c src g name :
  sums_fit 1 src →
  cell c (group_entry src g name) = raw_sum c (excluded_by src g) any_skill src.
Proof.
  intros Hfit. destruct c; cbn [cell group_entry Healing Hits];
    apply Z.mod_small; apply (single_fits src _ false); exact Hfit.
Qed.

(** ** The sums of the tables as numbers *)

(** The entries of [GetSkills], added up as numbers. *)
Lemma build_Skills_plain c src o d :
  column_sum c (Entries (build_Skills src o d)) =
  sum_with (λ sk, if listed d sk
                  then skill_sum c (Filter src o) sk mod two64 else 0)
           (ordered (SkillsHealing src))
  + sum_with (λ sk, if indirect_skill sk
                    then skill_sum c (Filter src o) sk else 0)
             (ordered (SkillsHealing src)) mod two64.
Proof.
  unfold column_sum, build_Skills.
  destruct (skills_loop src o d (ordered (SkillsHealing src))
              AggregatedVector_new 0 0 eq_refl eq_refl) as (vec & -> & Hsum).
  rewrite sum_with_sort_entries, sum_with_addIndirect, Hsum. simpl sum_with at 1.
  rewrite !Z.add_0_l. destruct c; reflexivity.
Qed.

(** The entries of [GetAgentDetails], added up as numbers. *)
Lemma build_AgentDetails_plain c src o d pAgentId :
  column_sum c (Entries (build_AgentDetails src o d pAgentId)) =
  sum_with (λ sk, if listed d sk
                  then skill_sum c (of_agent pAgentId) sk else 0)
           (ordered (SkillsHealing src))
  + sum_with (λ sk, if indirect_skill sk
                    then skill_sum c (of_agent pAgentId) sk else 0)
             (ordered (SkillsHealing src)) mod two64.
Proof.
  unfold column_sum, build_AgentDetails.
  destruct (agent_details_loop c d pAgentId (ordered (SkillsHealing src))
              AggregatedVector_new 0 0 eq_refl eq_refl) as (vec & -> & Hsum).
  rewrite sum_with_sort_entries, sum_with_addIndirect, Hsum. simpl sum_with at 1.
  rewrite !Z.add_0_l. destruct c; reflexivity.
Qed.

Lemma listed_plus_indirect c excluded d l :
  sum_with (λ sk, if listed d sk then skill_sum c excluded sk else 0) l
  + sum_with (λ sk, if indirect_skill sk then skill_sum c excluded sk else 0) l
  = sum_with (λ sk, if any_skill sk then skill_sum c excluded sk else 0) l
    + if d then sum_with (λ sk, if indirect_skill sk
                                then skill_sum c excluded sk else 0) l
      else 0.
Proof.
  destruct d.
  - reflexivity.
  - rewrite Z.add_0_r, <- sum_with_plus. apply sum_with_ext. intros sk _.
    unfold listed, any_skill, indirect_skill. cbn [orb].
    destruct (IsSkillIndirectHealing sk.1 (HealedSkill.Name sk.2)); cbn [negb]; lia.
Qed.

Lemma skill_sum_small src c excluded sk :
  values_nonneg src = true → raw_total c src < two64 →
  sk ∈ ordered (SkillsHealing src) →
  skill_sum c excluded sk mod two64 = skill_sum c excluded sk.
Proof.
  intros Hnn Hfit Hin. destruct sk as [skillId skill].
  apply elem_of_ordered in Hin.
  pose proof (skill_sum_bounds src c excluded skillId skill Hnn Hin).
  apply Z.mod_small. lia.
Qed.

Lemma fit_column src c copies :
  1 ≤ copies → sums_fit copies src →
  values_nonneg src = true ∧ 0 ≤ raw_total c src ∧ raw_total c src < two64.
Proof.
  intros Hc (Hnn & Hh & Ht).
  pose proof (raw_sum_nonneg src c nobody any_skill Hnn) as H0.
  fold (raw_total c src) in H0.
  split; [exact Hnn|]. split; [exact H0|]. destruct c; nia.
Qed.

Lemma copies_of_pos d : 1 ≤ copies_of d.
Proof. destruct d; simpl; lia. Qed.

(** When nothing wraps around, the entries of [GetSkills] add up to the kept
    records, the indirect ones counted twice in debug mode. *)
Lemma column_sum_Skills c src o d :
  sums_fit 1 src →
  column_sum c (Entries (build_Skills src o d)) =
  raw_sum c (Filter src o) any_skill src
  + if d then raw_sum c (Filter src o) indirect_skill src else 0.
Proof.
  intros Hfit. destruct (fit_column src c 1 ltac:(lia) Hfit) as (Hnn & H0 & Hlt).
  rewrite build_Skills_plain, !raw_sum_skills, <- listed_plus_indirect.
  f_equal.
  - apply sum_with_ext. intros sk Hin.
    destruct (listed d sk); [|reflexivity].
    eapply skill_sum_small; eassumption.
  - apply Z.mod_small. rewrite <- raw_sum_skills.
    pose proof (raw_sum_nonneg src c (Filter src o) indirect_skill Hnn).
    pose proof (raw_sum_le_total src c (Filter src o) indirect_skill Hnn).
    lia.
Qed.

Lemma column_sum_SkillDetails c src o d pSkillId :
  column_sum c (Entries (build_SkillDetails src o d pSkillId)) =
  match SkillsHealing src !! pSkillId with
  | Some skill => skill_sum c (Filter src o) (pSkillId, skill)
  | None => 0
  end.
Proof. apply build_SkillDetails_entries. Qed.

(** ** [GetAllAgents] when nothing wraps around *)

Lemma stat_nonneg c v : 0 ≤ TotalHealing v ∧ 0 ≤ Ticks v → 0 ≤ stat c v.
Proof. intros [Hh Ht]. destruct c; assumption. Qed.

Lemma nonneg_map_le_total c (m : gmap Z AgentStats) k v :
  nonneg_map m → m !! k = Some v →
  stat c v ≤ sum_with (kept c nobody) (map_to_list m).
Proof.
  intros Hnn Hk.
  apply (sum_with_elem_le (kept c nobody) (map_to_list m) (k, v)).
  - intros [k' v'] Hin. apply elem_of_map_to_list in Hin.
    rewrite kept_pair. apply stat_nonneg. eapply Hnn. exact Hin.
  - apply elem_of_map_to_list. exact Hk.
Qed.

Lemma all_agents_agent_step_exact all it :
  nonneg_map all → 0 ≤ TotalHealing it.2 ∧ 0 ≤ Ticks it.2 →
  (∀ c, sum_with (kept c nobody) (map_to_list all) + stat c it.2 < two64) →
  nonneg_map (all_agents_agent_step all it)
  ∧ ∀ c excluded,
      sum_with (kept c excluded) (map_to_list (all_agents_agent_step all it))
      = sum_with (kept c excluded) (map_to_list all) + kept c excluded it.
Proof.
  destruct it as [agentId agent]. cbn [fst snd]. intros Hnn Hag Hfit.
  unfold all_agents_agent_step.
  destruct (all !! agentId) as [found|] eqn:Hfound.
  - pose proof (Hnn _ _ Hfound) as Hf.
    assert (Hexact : ∀ c, add64 (stat c found) (stat c agent)
                          = stat c found + stat c agent).
    { intros c. pose proof (nonneg_map_le_total c all agentId found Hnn Hfound).
      pose proof (Hfit c). pose proof (stat_nonneg c found Hf).
      pose proof (stat_nonneg c agent Hag). apply add64_exact; lia. }
    pose proof (Hexact healing) as Hh. pose proof (Hexact hits) as Ht.
    cbn [stat] in Hh, Ht. rewrite Hh, Ht. split.
    + intros k v. rewrite lookup_insert. case_decide as Hk.
      * intros [= <-]. cbn [TotalHealing Ticks]. lia.
      * apply Hnn.
    + intros c excluded. rewrite <- insert_delete_eq.
      rewrite map_to_list_insert by apply lookup_delete_eq.
      rewrite <- (map_to_list_delete all agentId found Hfound).
      rewrite !sum_with_cons, !kept_pair.
      destruct (excluded agentId), c; cbn [stat TotalHealing Ticks]; lia.
  - split.
    + intros k v. rewrite lookup_insert. case_decide as Hk.
      * intros [= <-]. exact Hag.
      * apply Hnn.
    + intros c excluded. rewrite map_to_list_insert by exact Hfound.
      rewrite sum_with_cons, !kept_pair.
      destruct (excluded agentId), c; cbn [stat TotalHealing Ticks]; lia.
Qed.

Lemma all_agents_agent_loop_exact l all :
  nonneg_map all → nonneg_rows l →
  (∀ c, sum_with (kept c nobody) (map_to_list all)
        + sum_with (kept c nobody) l < two64) →
  nonneg_map (foldl all_agents_agent_step all l)
  ∧ ∀ c excluded,
      sum_with (kept c excluded) (map_to_list (foldl all_agents_agent_step all l))
      = sum_with (kept c excluded) (map_to_list all) + sum_with (kept c excluded) l.
Proof.
  revert all. induction l as [|it l IH]; intros all Hnn Hrows Hfit.
  - split; [exact Hnn|]. intros c excluded. simpl. lia.
  - cbn [foldl].
    assert (Hit : 0 ≤ TotalHealing it.2 ∧ 0 ≤ Ticks it.2) by (apply Hrows; left).
    assert (Hl : nonneg_rows l) by (intros x Hx; apply Hrows; right; exact Hx).
    assert (Hrest : ∀ c, 0 ≤ sum_with (kept c nobody) l).
    { intros c. apply sum_with_nonneg. intros [k v] Hx. rewrite kept_pair.
      apply stat_nonneg, (Hl (k, v) Hx). }
    destruct (all_agents_agent_step_exact all it Hnn Hit) as (Hnn1 & Hsum1).
    { intros c. specialize (Hfit c). specialize (Hrest c).
      rewrite sum_with_cons in Hfit. destruct it as [k v].
      rewrite kept_pair in Hfit. cbn [fst snd nobody] in *. lia. }
    destruct (IH (all_agents_agent_step all it) Hnn1 Hl) as (Hnn2 & Hsum2).
    { intros c. rewrite Hsum1. specialize (Hfit c).
      rewrite sum_with_cons in Hfit. lia. }
    split; [exact Hnn2|]. intros c excluded.
    rewrite Hsum2, Hsum1, sum_with_cons. lia.
Qed.

Lemma all_agents_loop_exact l all :
  nonneg_map all →
  (∀ sk, sk ∈ l → nonneg_rows (ordered (HealedSkill.AgentsHealing sk.2))) →
  (∀ c, sum_with (kept c nobody) (map_to_list all)
        + sum_with (skill_sum c nobody) l < two64) →
  nonneg_map (foldl all_agents_step all l)
  ∧ ∀ c excluded,
      sum_with (kept c excluded) (map_to_list (foldl all_agents_step all l))
      = sum_with (kept c excluded) (map_to_list all)
        + sum_with (skill_sum c excluded) l.
Proof.
  revert all. induction l as [|sk l IH]; intros all Hnn Hrows Hfit.
  - split; [exact Hnn|]. intros c excluded. simpl. lia.
  - cbn [foldl]. unfold all_agents_step at 2 4.
    assert (Hsk : nonneg_rows (ordered (HealedSkill.AgentsHealing sk.2)))
      by (apply Hrows; left).
    assert (Hl : ∀ x, x ∈ l → nonneg_rows (ordered (HealedSkill.AgentsHealing x.2)))
      by (intros x Hx; apply Hrows; right; exact Hx).
    assert (Hrest : ∀ c, 0 ≤ sum_with (skill_sum c nobody) l).
    { intros c. apply sum_with_nonneg. intros x Hx.
      apply sum_with_nonneg. intros [k v] Hin. cbn [fst snd nobody].
      apply stat_nonneg, (Hl x Hx (k, v) Hin). }
    destruct (all_agents_agent_loop_exact
                (ordered (HealedSkill.AgentsHealing sk.2)) all Hnn Hsk)
      as (Hnn1 & Hsum1).
    { intros c. specialize (Hfit c). specialize (Hrest c).
      rewrite sum_with_cons, skill_sum_kept in Hfit. lia. }
    destruct (IH _ Hnn1 Hl) as (Hnn2 & Hsum2).
    { intros c. rewrite Hsum1. specialize (Hfit c).
      rewrite sum_with_cons, skill_sum_kept in Hfit. lia. }
    split; [exact Hnn2|]. intros c excluded.
    rewrite Hsum2, Hsum1, sum_with_cons, skill_sum_kept. lia.
Qed.

Lemma nonneg_map_empty : nonneg_map ∅.
Proof. intros k v. rewrite lookup_empty. discriminate. Qed.

(** When nothing wraps around, the merged table holds exactly what the
    records hold, for any set of agents. *)
Lemma build_AllAgents_exact c excluded src :
  sums_fit 1 src →
  sum_with (kept c excluded) (map_to_list (build_AllAgents src))
  = raw_sum c excluded any_skill src.
Proof.
  intros Hfit.
  assert (Hnn : values_nonneg src = true) by apply Hfit.
  destruct (all_agents_loop_exact (ordered (SkillsHealing src)) ∅ nonneg_map_empty)
    as (_ & Hsum).
  - intros sk Hsk [k v] Hin.
    pose proof (elem_of_records src sk (k, v) Hsk Hin) as Hr.
    split; [apply (values_nonneg_stat src healing _ Hnn Hr)
           | apply (values_nonneg_stat src hits _ Hnn Hr)].
  - intros c'. rewrite map_to_list_empty. cbn [sum_with foldr].
    destruct (fit_column src c' 1 ltac:(lia) Hfit) as (_ & _ & Hlt).
    unfold raw_total in Hlt. rewrite raw_sum_skills in Hlt. exact Hlt.
  - unfold build_AllAgents. rewrite Hsum, map_to_list_empty, raw_sum_skills.
    reflexivity.
Qed.

Lemma column_sum_Agents c src o d :
  sums_fit 1 src →
  column_sum c (Entries (build_Agents src o d (build_AllAgents src))) =
  raw_sum c (Filter src o) any_skill src.
Proof.
  intros Hfit. unfold column_sum. rewrite build_Agents_entries.
  apply build_AllAgents_exact. exact Hfit.
Qed.

(** ** The views of an object, whatever was called before *)

Lemma after_computes {A} (m : M A) this x :
  computes m this x → cache_ok (after m this) ∧ same_members this (after m this).
Proof. intros (this' & H & Hok & Hsame). unfold after. rewrite H. auto. Qed.

Lemma GetStats_computes this pDataSource :
  cache_ok this → ∃ x, computes (GetStats pDataSource) this x.
Proof.
  intros Hok. destruct pDataSource; cbn [GetStats]; eexists.
  - apply GetAgents_computes, Hok.
  - apply GetSkills_computes, Hok.
  - apply GetGroupFilterTotals_computes, Hok.
Qed.

Lemma perform_ok this c :
  cache_ok this → cache_ok (perform this c) ∧ same_members this (perform this c).
Proof.
  intros Hok. destruct c; cbn [perform].
  - eapply after_computes, GetTotal_computes, Hok.
  - destruct (GetStats_computes this pDataSource Hok) as (x & Hx).
    eapply after_computes, Hx.
  - eapply after_computes, GetDetails_computes, Hok.
  - eapply after_computes, GetAgents_computes, Hok.
  - eapply after_computes, GetSkills_computes, Hok.
  - eapply after_computes, GetAgentDetails_computes, Hok.
  - eapply after_computes, GetSkillDetails_computes, Hok.
  - eapply after_computes, GetGroupFilterTotals_computes, Hok.
  - eapply after_computes, GetAllAgents_computes, Hok.
Qed.

Lemma history_ok history this :
  cache_ok this →
  cache_ok (foldl perform this history)
  ∧ same_members this (foldl perform this history).
Proof.
  revert this. induction history as [|c history IH]; intros this Hok.
  - split; [exact Hok | apply same_members_refl].
  - cbn [foldl]. destruct (perform_ok this c Hok) as (Hok1 & Hs1 & Ho1 & Hd1).
    destruct (IH _ Hok1) as (Hok2 & Hs2 & Ho2 & Hd2).
    split; [exact Hok2|]. unfold same_members. repeat split; congruence.
Qed.

(** Every object a client can hold has consistent members. *)
Lemma object_after_ok history src o d :
  cache_ok (object_after history src o d)
  ∧ mySourceData (object_after history src o d) = src
  ∧ myOptions (object_after history src o d) = o
  ∧ myDebugMode (object_after history src o d) = d.
Proof.
  destruct (history_ok history (AggregatedStats_new src o d) (cache_ok_new src o d))
    as (Hok & Hs & Ho & Hd).
  unfold object_after. cbn in Hs, Ho, Hd. auto.
Qed.

Ltac with_object history src o d Hok :=
  destruct (object_after_ok history src o d) as (Hok & Hsrc & Hopt & Hdbg).

Lemma returned_GetSkills history src o d :
  returned GetSkills (object_after history src o d) = build_Skills src o d.
Proof.
  with_object history src o d Hok.
  rewrite (returned_computes _ _ _ (GetSkills_computes _ Hok)). congruence.
Qed.

Lemma returned_GetTotal history src o d :
  returned GetTotal (object_after history src o d)
  = build_Total (build_Skills src o d).
Proof.
  with_object history src o d Hok.
  rewrite (returned_computes _ _ _ (GetTotal_computes _ Hok)). congruence.
Qed.

Lemma returned_GetAgents history src o d :
  returned GetAgents (object_after history src o d)
  = build_Agents src o d (build_AllAgents src).
Proof.
  with_object history src o d Hok.
  rewrite (returned_computes _ _ _ (GetAgents_computes _ Hok)). congruence.
Qed.

Lemma returned_GetGroupFilterTotals history src o d :
  returned GetGroupFilterTotals (object_after history src o d)
  = build_GroupFilterTotals src (build_AllAgents src).
Proof.
  with_object history src o d Hok.
  rewrite (returned_computes _ _ _ (GetGroupFilterTotals_computes _ Hok)).
  congruence.
Qed.

Lemma returned_GetAgentDetails history src o d pAgentId :
  returned (GetAgentDetails pAgentId) (object_after history src o d)
  = build_AgentDetails src o d pAgentId.
Proof.
  with_object history src o d Hok.
  rewrite (returned_computes _ _ _ (GetAgentDetails_computes _ pAgentId Hok)).
  congruence.
Qed.

Lemma returned_GetSkillDetails history src o d pSkillId :
  returned (GetSkillDetails pSkillId) (object_after history src o d)
  = build_SkillDetails src o d pSkillId.
Proof.
  with_object history src o d Hok.
  rewrite (returned_computes _ _ _ (GetSkillDetails_computes _ pSkillId Hok)).
  congruence.
Qed.

(** Whatever the data source, [GetDetails] returns the table of
    [GetAgentDetails]. *)
Lemma returned_GetDetails history src o d pDataSource pId :
  returned (GetDetails pDataSource pId) (object_after history src o d)
  = build_AgentDetails src o d pId.
Proof.
  with_object history src o d Hok.
  rewrite (returned_computes _ _ _ (GetDetails_computes _ pDataSource pId Hok)).
  congruence.
Qed.

(** A second call returns what the first one returned. *)
Lemma GetSkills_again history src o d :
  returned GetSkills (after GetSkills (object_after history src o d))
  = returned GetSkills (object_after history src o d).
Proof.
  change (after GetSkills (object_after history src o d))
    with (perform (object_after history src o d) CallGetSkills).
  change (perform (object_after history src o d) CallGetSkills)
    with (foldl perform (object_after history src o d) [CallGetSkills]).
  unfold object_after. rewrite <- foldl_app.
  apply (eq_trans (returned_GetSkills (history ++ [CallGetSkills]) src o d)).
  symmetry. apply returned_GetSkills.
Qed.

Lemma cell_build_Total c skills :
  cell c (build_Total skills) = column_sum64 c (Entries skills).
Proof.
  unfold build_Total, column_sum64.
  destruct (foldl total_step (0, 0) (Entries skills)) as [h t].
  destruct c; reflexivity.
Qed.

Lemma no_indirect_elem src sk :
  no_indirect src → sk ∈ ordered (SkillsHealing src) → indirect_skill sk = false.
Proof.
  intros H Hin. destruct sk as [skillId skill]. apply elem_of_ordered in Hin.
  apply (H _ _ Hin).
Qed.

Lemma raw_sum_no_indirect c excluded src :
  no_indirect src → raw_sum c excluded indirect_skill src = 0.
Proof.
  intros H. rewrite raw_sum_skills.
  etransitivity; [|apply (sum_with_zero (ordered (SkillsHealing src)))].
  apply sum_with_ext. intros sk Hin.
  rewrite (no_indirect_elem src sk H Hin). reflexivity.
Qed.

(** The 64-bit sum of a column of [GetSkills]: every kept record once, and
    in debug mode the indirect ones twice. *)
Lemma column_sum64_Skills c src o d :
  column_sum64 c (Entries (build_Skills src o d)) =
  (raw_sum c (Filter src o) any_skill src
   + if d then raw_sum c (Filter src o) indirect_skill src else 0) mod two64.
Proof. rewrite column_sum64_spec. apply build_Skills_sum. Qed.

Lemma column_sum64_Agents c src o d :
  column_sum64 c (Entries (build_Agents src o d (build_AllAgents src))) =
  raw_sum c (Filter src o) any_skill src mod two64.
Proof. rewrite column_sum64_spec. apply build_Agents_sum. Qed.

Lemma indirect_free (d : bool) (y : Z) :
  d = false ∨ y = 0 → (if d then y else 0) = 0.
Proof. intros [-> | ->]; [|destruct d]; reflexivity. Qed.

(** In debug mode [GetTotal] counts the indirect skills twice. *)
Lemma debug_total_counts_indirect_twice c src o :
  cell c (build_Total (build_Skills src o true)) =
  add64 (cell c (build_Total (build_Skills src o false)))
        (raw_sum c (Filter src o) indirect_skill src).
Proof.
  rewrite !cell_build_Total, !column_sum64_Skills. unfold add64.
  rewrite Z.add_0_r, Zplus_mod_idemp_l. reflexivity.
Qed.

(** C1 (amended).  Conservation across groupings.  For every snapshot and
    configuration and after any calls: the healing and the hits of [GetTotal]
    are the 64-bit sums of the healing and of the hits over the entries of
    [GetSkills]; these are the 64-bit sums over the entries of [GetAgents]
    plus, in debug mode, what the indirect skills hold for the agents that
    pass the filter (debug mode lists an indirect skill under its own name and
    in the synthetic entry).  So when debug mode is off, or no skill of the
    snapshot is classified as indirect healing, the three are equal; and if
    moreover the healing and the ticks of the snapshot each add up to less
    than [two64], the sums over [GetSkills] and [GetAgents] taken as numbers
    are equal and are the healing and hits of [GetTotal]. *)
Theorem conservation_across_groupings src o d history :
  let this := object_after history src o d in
  (∀ c, cell c (returned GetTotal this)
        = column_sum64 c (Entries (returned GetSkills this)))
  ∧ (∀ c, column_sum64 c (Entries (returned GetSkills this))
          = add64 (column_sum64 c (Entries (returned GetAgents this)))
                  (if d then raw_sum c (Filter src o) indirect_skill src else 0))
  ∧ (d = false ∨ no_indirect src →
     (∀ c, column_sum64 c (Entries (returned GetSkills this))
           = column_sum64 c (Entries (returned GetAgents this)))
     ∧ (sums_fit 1 src →
        ∀ c, column_sum c (Entries (returned GetSkills this))
             = column_sum c (Entries (returned GetAgents this))
             ∧ column_sum c (Entries (returned GetAgents this))
               = cell c (returned GetTotal this))).
Proof.
  intros this. unfold this.
  rewrite returned_GetTotal, returned_GetSkills, returned_GetAgents.
  split; [intros c; apply cell_build_Total|].
  split.
  { intros c. rewrite column_sum64_Skills, column_sum64_Agents. unfold add64.
    rewrite Zplus_mod_idemp_l. reflexivity. }
  intros Hcond.
  assert (Hfree : ∀ c, (if d then raw_sum c (Filter src o) indirect_skill src
                        else 0) = 0).
  { intros c. apply indirect_free.
    destruct Hcond as [Hd | Hni]; [left; exact Hd | right].
    apply raw_sum_no_indirect, Hni. }
  split.
  - intros c. rewrite column_sum64_Skills, column_sum64_Agents, Hfree, Z.add_0_r.
    reflexivity.
  - intros Hfit c.
    rewrite cell_build_Total, column_sum64_Skills, Hfree, Z.add_0_r.
    rewrite column_sum_Skills, column_sum_Agents, Hfree, Z.add_0_r by exact Hfit.
    split; [reflexivity|]. symmetry. apply Z.mod_small.
    apply (single_fits src c false). exact Hfit.
Qed.

Lemma column_sum64_AgentDetails c src o d pAgentId :
  column_sum64 c (Entries (build_AgentDetails src o d pAgentId)) =
  (raw_sum c (of_agent pAgentId) any_skill src
   + if d then raw_sum c (of_agent pAgentId) indirect_skill src else 0) mod two64.
Proof.
  rewrite column_sum64_spec. fold (column_sum c (Entries (build_AgentDetails src o d pAgentId))).
  rewrite build_AgentDetails_plain, !raw_sum_skills, <- listed_plus_indirect.
  rewrite Zplus_mod_idemp_r. reflexivity.
Qed.

(** C3 (amended).  Debug-mode noninterference.  Between an object in debug
    mode and one that is not, built from the same snapshot and options and
    after any calls: the healing and hits sums of [GetAgents] and of every
    [GetSkillDetails] are the same and [GetGroupFilterTotals] is the same
    table.  The healing and hits of [GetTotal] and the 64-bit sums of
    [GetSkills] in debug mode are those without debug mode plus what the
    indirect skills hold for the agents that pass the filter, and the 64-bit
    sums of [GetAgentDetails] are those without debug mode plus what the
    indirect skills hold for that agent.  When no skill of the snapshot is
    classified as indirect healing, the healing and hits of [GetTotal] and the
    healing and hits sums of [GetSkills] and of every [GetAgentDetails] are
    the same in both modes. *)
Theorem debug_mode_noninterference src o historyD historyN :
  let thisD := object_after historyD src o true in
  let thisN := object_after historyN src o false in
  (∀ c, column_sum c (Entries (returned GetAgents thisD))
        = column_sum c (Entries (returned GetAgents thisN)))
  ∧ (∀ c pSkillId,
        column_sum c (Entries (returned (GetSkillDetails pSkillId) thisD))
        = column_sum c (Entries (returned (GetSkillDetails pSkillId) thisN)))
  ∧ returned GetGroupFilterTotals thisD = returned GetGroupFilterTotals thisN
  ∧ (∀ c, cell c (returned GetTotal thisD)
          = add64 (cell c (returned GetTotal thisN))
                  (raw_sum c (Filter src o) indirect_skill src))
  ∧ (∀ c, column_sum64 c (Entries (returned GetSkills thisD))
          = add64 (column_sum64 c (Entries (returned GetSkills thisN)))
                  (raw_sum c (Filter src o) indirect_skill src))
  ∧ (∀ c pAgentId,
        column_sum64 c (Entries (returned (GetAgentDetails pAgentId) thisD))
        = add64 (column_sum64 c (Entries (returned (GetAgentDetails pAgentId) thisN)))
                (raw_sum c (of_agent pAgentId) indirect_skill src))
  ∧ (no_indirect src →
     (∀ c, cell c (returned GetTotal thisD) = cell c (returned GetTotal thisN))
     ∧ (∀ c, column_sum c (Entries (returned GetSkills thisD))
             = column_sum c (Entries (returned GetSkills thisN)))
     ∧ (∀ c pAgentId,
          column_sum c (Entries (returned (GetAgentDetails pAgentId) thisD))
          = column_sum c (Entries (returned (GetAgentDetails pAgentId) thisN)))).
Proof.
  intros thisD thisN. unfold thisD, thisN.
  rewrite !returned_GetTotal, !returned_GetSkills, !returned_GetAgents,
    !returned_GetGroupFilterTotals.
  split; [|split; [|split; [reflexivity|]]].
  - intros c. unfold column_sum. rewrite !build_Agents_entries. reflexivity.
  - intros c pSkillId. rewrite !returned_GetSkillDetails, !column_sum_SkillDetails.
    reflexivity.
  - split; [intros c; apply debug_total_counts_indirect_twice|].
    split.
    { intros c. rewrite <- !cell_build_Total.
      apply debug_total_counts_indirect_twice. }
    split.
    { intros c pAgentId. rewrite !returned_GetAgentDetails.
      rewrite !column_sum64_AgentDetails. unfold add64.
      rewrite Z.add_0_r, Zplus_mod_idemp_l. reflexivity. }
    intros Hni.
    assert (Hlisted : ∀ c excluded,
      sum_with (λ sk, if listed true sk then skill_sum c excluded sk mod two64 else 0)
               (ordered (SkillsHealing src))
      = sum_with (λ sk, if listed false sk then skill_sum c excluded sk mod two64 else 0)
                 (ordered (SkillsHealing src))).
    { intros c excluded. apply sum_with_ext. intros sk Hin.
      pose proof (no_indirect_elem src sk Hni Hin) as Hsk.
      unfold listed, indirect_skill in *. rewrite Hsk. reflexivity. }
    assert (Hlisted' : ∀ c excluded,
      sum_with (λ sk, if listed true sk then skill_sum c excluded sk else 0)
               (ordered (SkillsHealing src))
      = sum_with (λ sk, if listed false sk then skill_sum c excluded sk else 0)
                 (ordered (SkillsHealing src))).
    { intros c excluded. apply sum_with_ext. intros sk Hin.
      pose proof (no_indirect_elem src sk Hni Hin) as Hsk.
      unfold listed, indirect_skill in *. rewrite Hsk. reflexivity. }
    split; [|split].
    + intros c. rewrite !cell_build_Total, !column_sum64_Skills.
      rewrite raw_sum_no_indirect by exact Hni. reflexivity.
    + intros c. rewrite !build_Skills_plain, Hlisted. reflexivity.
    + intros c pAgentId. rewrite !returned_GetAgentDetails.
      rewrite !build_AgentDetails_plain, Hlisted'. reflexivity.
Qed.

(** C4 (amended).  An agent that is in the agent map, is not a minion and has
    subgroup 0 while the local subgroup is 0 as well is excluded exactly when
    [ExcludeGroup] is set: the last test of the filter compares the two
    subgroups, and 0 equals 0.  Under every configuration whose
    [ExcludeGroup] is false the agent is not excluded. *)
Theorem ungrouped_agent_follows_ExcludeGroup src o agentId agent :
  Agents src !! agentId = Some agent →
  HealedAgent.IsMinion agent = false →
  HealedAgent.Subgroup agent = 0 →
  SubGroup src = 0 →
  Filter src o agentId = ExcludeGroup o
  ∧ ∀ pFilter, FilterInternal src (Some agent) pFilter = ExcludeGroup pFilter.
Proof.
  intros Hfound Hminion Hsub Hlocal.
  assert (H : ∀ pFilter, FilterInternal src (Some agent) pFilter = ExcludeGroup pFilter).
  { intros pFilter. unfold FilterInternal. rewrite Hminion, Hsub, Hlocal.
    simpl. destruct (ExcludeGroup pFilter); reflexivity. }
  split; [|exact H]. unfold Filter. rewrite Hfound. apply H.
Qed.

(** ** The group filters are nested *)

Lemma excluded_by_nested src agentId :
  (excluded_by src GroupFilter.Squad agentId = true →
   excluded_by src GroupFilter.Group agentId = true)
  ∧ (excluded_by src GroupFilter.AllExcludingMinions agentId = true →
     excluded_by src GroupFilter.Squad agentId = true)
  ∧ (excluded_by src GroupFilter.All agentId = true →
     excluded_by src GroupFilter.AllExcludingMinions agentId = true).
Proof.
  unfold excluded_by.
  repeat split; apply FilterInternal_mono; intros []; simpl; congruence.
Qed.

(** C5 (amended).  On every snapshot whose healing and whose ticks each add
    up to less than [two64] (no value negative), and after any calls, the
    four entries of [GetGroupFilterTotals] are Group, Squad,
    All (Excluding Summons) and All (Including Summons) in this order, with
    non-decreasing healing and non-decreasing hits. *)
Theorem group_filter_totals_ordered src o d history :
  sums_fit 1 src →
  ∃ group squad all_but_summons all,
    Entries (returned GetGroupFilterTotals (object_after history src o d))
    = [group; squad; all_but_summons; all]
    ∧ Name group = "Group"%string ∧ Name squad = "Squad"%string
    ∧ Name all_but_summons = "All (Excluding Summons)"%string
    ∧ Name all = "All (Including Summons)"%string
    ∧ ∀ c, cell c group ≤ cell c squad
           ∧ cell c squad ≤ cell c all_but_summons
           ∧ cell c all_but_summons ≤ cell c all.
Proof.
  intros Hfit.
  rewrite returned_GetGroupFilterTotals, build_GroupFilterTotals_entries.
  do 4 eexists. split; [reflexivity|]. repeat (split; [reflexivity|]).
  intros c. rewrite !group_entry_exact by exact Hfit.
  destruct Hfit as (Hnn & _).
  pose proof (excluded_by_nested src) as Hnest.
  repeat split; (apply raw_sum_mono; [exact Hnn | | auto]);
    intros agentId; apply Hnest.
Qed.

(** C6 (amended).  In the scenario, under every configuration and after any
    calls, [GetGroupFilterTotals] holds healing 150 (hits 15) for Group and
    healing 180 (hits 18) for Squad and for both All filters: every group
    filter sets [ExcludeUnmapped], so the 5 healed by the unmapped agent C is
    in none of the four totals. *)
Theorem scenario_group_filter_totals o d history :
  (λ entry, (Name entry, Healing entry, Hits entry))
    <$> Entries (returned GetGroupFilterTotals
                   (object_after history Scenario.snapshot o d)) =
  [("Group", 150, 15); ("Squad", 180, 18);
   ("All (Excluding Summons)", 180, 18);
   ("All (Including Summons)", 180, 18)]%string.
Proof. rewrite returned_GetGroupFilterTotals. vm_compute. reflexivity. Qed.

(** ** Turning a switch on *)

Lemma Filter_with_flag src o f agentId :
  Filter src o agentId = true → Filter src (with_flag f o) agentId = true.
Proof.
  unfold Filter. apply FilterInternal_mono. intros g. apply flag_of_with_flag.
Qed.

Lemma skill_sum_mono src c excluded excluded' pSkillId skill :
  values_nonneg src = true →
  SkillsHealing src !! pSkillId = Some skill →
  (∀ agentId, excluded agentId = true → excluded' agentId = true) →
  skill_sum c excluded' (pSkillId, skill) ≤ skill_sum c excluded (pSkillId, skill).
Proof.
  intros Hnn Hsk Hex. apply elem_of_ordered in Hsk.
  apply sum_with_le. intros ag Hag.
  pose proof (values_nonneg_stat src c ((pSkillId, skill), ag) Hnn
                (elem_of_records src _ _ Hsk Hag)) as Hpos.
  specialize (Hex ag.1). cbn [fst snd] in Hpos.
  destruct (excluded ag.1), (excluded' ag.1);
    try lia; try (discriminate Hex; reflexivity).
Qed.

Lemma build_AgentDetails_sort_only src o o' d pAgentId :
  SortOrderChoice o' = SortOrderChoice o →
  build_AgentDetails src o' d pAgentId = build_AgentDetails src o d pAgentId.
Proof.
  intros H. unfold build_AgentDetails, sort_entries, Sort. rewrite H. reflexivity.
Qed.

Lemma sums_fit_once src d : sums_fit (copies_of d) src → sums_fit 1 src.
Proof.
  intros Hfit.
  destruct (fit_column src healing _ (copies_of_pos d) Hfit) as (Hnn & _ & Hh).
  destruct (fit_column src hits _ (copies_of_pos d) Hfit) as (_ & _ & Ht).
  unfold sums_fit. rewrite !Z.mul_1_l. auto.
Qed.

(** C7 (amended).  Filter monotonicity.  Turning one of the five switches on,
    everything else unchanged, never moves an agent from excluded to included;
    and on a snapshot whose healing and whose ticks each add up to less than
    [two64] (counted twice in debug mode, where [GetTotal] adds the indirect
    skills twice; no value negative) it never increases the healing or the
    hits of [GetTotal] nor the healing or hits sum of [GetSkills],
    [GetAgents], [GetSkillDetails], [GetAgentDetails] or
    [GetGroupFilterTotals], after any calls. *)
Theorem filter_monotonicity src o d f history history' :
  let this := object_after history src o d in
  let this' := object_after history' src (with_flag f o) d in
  (∀ agent, FilterInternal src agent o = true →
            FilterInternal src agent (with_flag f o) = true)
  ∧ (sums_fit (copies_of d) src →
     ∀ c,
       cell c (returned GetTotal this') ≤ cell c (returned GetTotal this)
       ∧ column_sum c (Entries (returned GetSkills this'))
         ≤ column_sum c (Entries (returned GetSkills this))
       ∧ column_sum c (Entries (returned GetAgents this'))
         ≤ column_sum c (Entries (returned GetAgents this))
       ∧ (∀ pSkillId,
            column_sum c (Entries (returned (GetSkillDetails pSkillId) this'))
            ≤ column_sum c (Entries (returned (GetSkillDetails pSkillId) this)))
       ∧ (∀ pAgentId,
            column_sum c (Entries (returned (GetAgentDetails pAgentId) this'))
            ≤ column_sum c (Entries (returned (GetAgentDetails pAgentId) this)))
       ∧ column_sum c (Entries (returned GetGroupFilterTotals this'))
         ≤ column_sum c (Entries (returned GetGroupFilterTotals this))).
Proof.
  intros this this'. unfold this, this'. split.
  { intros agent. apply FilterInternal_mono. intros g. apply flag_of_with_flag. }
  intros Hfit c.
  rewrite !returned_GetTotal, !returned_GetSkills, !returned_GetAgents,
    !returned_GetGroupFilterTotals.
  pose proof (sums_fit_once src d Hfit) as Hfit1.
  pose proof Hfit as (Hnn & _).
  pose proof (raw_sum_mono src c (Filter src o) (Filter src (with_flag f o))
                any_skill any_skill Hnn (Filter_with_flag src o f) (λ _ H, H))
    as Hall.
  pose proof (raw_sum_mono src c (Filter src o) (Filter src (with_flag f o))
                indirect_skill indirect_skill Hnn (Filter_with_flag src o f)
                (λ _ H, H)) as Hind.
  split.
  { rewrite !cell_build_Total, !column_sum64_Skills_exact by exact Hfit.
    destruct d; lia. }
  split.
  { rewrite !column_sum_Skills by exact Hfit1. destruct d; lia. }
  split.
  { rewrite !column_sum_Agents by exact Hfit1. exact Hall. }
  split.
  { intros pSkillId. rewrite !returned_GetSkillDetails, !column_sum_SkillDetails.
    destruct (SkillsHealing src !! pSkillId) as [skill|] eqn:Hsk; [|lia].
    eapply skill_sum_mono; [exact Hnn | exact Hsk | apply Filter_with_flag]. }
  split; [|lia].
  intros pAgentId. rewrite !returned_GetAgentDetails.
  rewrite (build_AgentDetails_sort_only src o (with_flag f o)) by reflexivity.
  lia.
Qed.

(** ** The end of combat *)

Lemma combat_end_spec src o : combat_end src o = spec_combat_end src o.
Proof.
  unfold combat_end, spec_combat_end.
  destruct (CombatEndConditionChoice o); cbn [CombatEndCondition.eqb andb];
    destruct (Z.eqb_spec (ExitedCombatTime src) 0) as [Hx|Hx];
    destruct (Z.eqb_spec (LastHealEvent src) 0) as [Hl|Hl];
    cbn [negb andb]; repeat case_decide; try reflexivity;
    repeat match goal with
           | H : _ ∧ _ |- _ => destruct H
           | H : ¬ (_ ∧ _) |- _ => exfalso; apply H; split; [reflexivity | assumption]
           | H : _ ≠ _ |- _ => contradiction
           | H : _ = _ |- _ => discriminate H
           end.
Qed.

(** ** Binary32 arithmetic on integers below [2 ^ 24] *)

Lemma digits2_pos_bounds p :
  2 ^ (Z.pos (digits2_pos p) - 1) ≤ Z.pos p < 2 ^ Z.pos (digits2_pos p).
Proof.
  induction p as [p IH|p IH|]; cbn [digits2_pos].
  - rewrite Pos2Z.inj_succ, Z.pow_succ_r by lia.
    replace (Z.succ (Z.pos (digits2_pos p)) - 1) with (Z.succ (Z.pos (digits2_pos p) - 1)) by lia.
    rewrite Z.pow_succ_r by lia. lia.
  - rewrite Pos2Z.inj_succ, Z.pow_succ_r by lia.
    replace (Z.succ (Z.pos (digits2_pos p)) - 1) with (Z.succ (Z.pos (digits2_pos p) - 1)) by lia.
    rewrite Z.pow_succ_r by lia. lia.
  - cbn. lia.
Qed.

Lemma digits2_pos_unique p d :
  2 ^ (d - 1) ≤ Z.pos p < 2 ^ d → Z.pos (digits2_pos p) = d.
Proof.
  intros [Hlo Hhi]. pose proof (digits2_pos_bounds p) as [Hlo' Hhi'].
  assert (0 < d).
  { destruct (Z.ltb_spec 0 d) as [|Hd]; [assumption|].
    exfalso. destruct (Z.eq_dec d 0) as [->|]; [cbn in Hhi; lia|].
    rewrite Z.pow_neg_r in Hhi by lia. lia. }
  destruct (Z.lt_trichotomy (Z.pos (digits2_pos p)) d) as [Hlt | [Heq | Hgt]];
    [exfalso | exact Heq | exfalso].
  - assert (2 ^ Z.pos (digits2_pos p) ≤ 2 ^ (d - 1))
      by (apply Z.pow_le_mono_r; lia).
    lia.
  - assert (2 ^ d ≤ 2 ^ (Z.pos (digits2_pos p) - 1))
      by (apply Z.pow_le_mono_r; lia).
    lia.
Qed.

Lemma Pos_iter_xO p k : Z.pos (Pos.iter xO p k) = Z.pos p * 2 ^ Z.pos k.
Proof.
  induction k as [|k IH] using Pos.peano_ind.
  - cbn. lia.
  - rewrite Pos.iter_succ, Pos2Z.inj_succ, Z.pow_succ_r by lia.
    rewrite Pos2Z.inj_xO, IH. lia.
Qed.

Lemma iter_pos_comm {A} (f : A → A) k x :
  SpecFloat.iter_pos f k (f x) = f (SpecFloat.iter_pos f k x).
Proof.
  revert x. induction k as [k IH|k IH|]; intros x; cbn [SpecFloat.iter_pos].
  - rewrite !IH. reflexivity.
  - rewrite !IH. reflexivity.
  - reflexivity.
Qed.

Lemma iter_pos_succ {A} (f : A → A) k x :
  SpecFloat.iter_pos f (Pos.succ k) x = f (SpecFloat.iter_pos f k x).
Proof.
  revert x. induction k as [k IH|k IH|]; intros x.
  - change (Pos.succ k~1) with ((Pos.succ k)~0)%positive.
    cbn [SpecFloat.iter_pos]. rewrite !IH, !iter_pos_comm. reflexivity.
  - change (Pos.succ k~0) with (k~1)%positive.
    cbn [SpecFloat.iter_pos]. rewrite !iter_pos_comm. reflexivity.
  - reflexivity.
Qed.

(** Shifting out zeros is exact. *)
Lemma shr_exact m k :
  SpecFloat.iter_pos shr_1 k (Build_shr_record (Z.pos m * 2 ^ Z.pos k) false false)
  = Build_shr_record (Z.pos m) false false.
Proof.
  induction k as [|k IH] using Pos.peano_ind.
  - replace (Z.pos m * 2 ^ 1) with (Z.pos m~0) by lia. reflexivity.
  - rewrite iter_pos_succ.
    rewrite Pos2Z.inj_succ, Z.pow_succ_r by lia.
    replace (Z.pos m * (2 * 2 ^ Z.pos k)) with (Z.pos (xO m) * 2 ^ Z.pos k) by lia.
    rewrite <- iter_pos_comm.
    assert (Hone : shr_1 (Build_shr_record (Z.pos m~0 * 2 ^ Z.pos k) false false)
                   = Build_shr_record (Z.pos m * 2 ^ Z.pos k) false false).
    { assert (Hpos : 0 < 2 ^ Z.pos k) by (apply Z.pow_pos_nonneg; lia).
      destruct (2 ^ Z.pos k) as [|q|q] eqn:Hq; try lia. reflexivity. }
    rewrite Hone. exact IH.
Qed.

Lemma loc_of_shr_record_of_loc m l :
  loc_of_shr_record (shr_record_of_loc m l) = l.
Proof. destruct l as [|[]]; reflexivity. Qed.

Lemma shr_m_record_of_loc m l : shr_m (shr_record_of_loc m l) = m.
Proof. destruct l as [|[]]; reflexivity. Qed.

Lemma fexp_normal e : -149 ≤ e → fexp 24 128 (24 + e) = e.
Proof. intros H. unfold fexp, emin. lia. Qed.

(** A 24-bit mantissa with an exponent in range is kept. *)
Lemma binary_round_aux_normal s m e :
  Z.pos (digits2_pos m) = 24 → -149 ≤ e ≤ 104 →
  binary_round_aux 24 128 s (Z.pos m) e loc_Exact = S754_finite s m e.
Proof.
  intros Hd He. unfold binary_round_aux, shr_fexp. cbn [Zdigits2].
  rewrite Hd, fexp_normal, Z.sub_diag by lia.
  cbn [shr shr_record_of_loc loc_of_shr_record round_nearest_even shr_m Zdigits2].
  rewrite Hd, fexp_normal, Z.sub_diag by lia. cbn [shr shr_m].
  destruct (Z.leb_spec e (128 - 24)) as [|Hgt]; [reflexivity | lia].
Qed.

Lemma digits2_pos_iter_xO p k :
  Z.pos (digits2_pos (Pos.iter xO p k)) = Z.pos (digits2_pos p) + Z.pos k.
Proof.
  induction k as [|k IH] using Pos.peano_ind.
  - cbn [Pos.iter digits2_pos]. lia.
  - rewrite Pos.iter_succ. cbn [digits2_pos]. lia.
Qed.

Lemma Pos_iter_xO_eq p q k :
  Z.pos q = Z.pos p * 2 ^ Z.pos k → q = Pos.iter xO p k.
Proof. rewrite <- Pos_iter_xO. intros [= ->]. reflexivity. Qed.

(** Rounding a number that a 24-bit mantissa represents is exact. *)
Lemma binary_round_exact s P E m e :
  Z.pos (digits2_pos m) = 24 → -149 ≤ e ≤ 104 →
  Z.pos P * 2 ^ Z.max (E - e) 0 = Z.pos m * 2 ^ Z.max (e - E) 0 →
  binary_round 24 128 s P E = S754_finite s m e.
Proof.
  intros Hd He Hval. unfold binary_round, shl_align.
  destruct (Z.lt_trichotomy E e) as [Hlt | [-> | Hgt]].
  - rewrite (Z.max_r (E - e)), (Z.max_l (e - E)) in Hval by lia.
    rewrite Z.pow_0_r, Z.mul_1_r in Hval.
    destruct (e - E) as [|k|k] eqn:Hk; try lia.
    apply Pos_iter_xO_eq in Hval. subst P.
    rewrite digits2_pos_iter_xO, Hd.
    replace (24 + Z.pos k + E) with (24 + e) by lia.
    rewrite fexp_normal, Hk by lia.
    unfold binary_round_aux, shr_fexp. cbn [Zdigits2].
    rewrite digits2_pos_iter_xO, Hd.
    replace (24 + Z.pos k + E) with (24 + e) by lia.
    rewrite fexp_normal, Hk by lia.
    cbn [shr shr_record_of_loc]. rewrite Pos_iter_xO, shr_exact.
    cbn [loc_of_shr_record round_nearest_even shr_m Zdigits2].
    rewrite Hd.
    replace (E + Z.pos k) with e by lia.
    rewrite fexp_normal, Z.sub_diag by lia. cbn [shr shr_m].
    destruct (Z.leb_spec e (128 - 24)) as [|Hgt]; [reflexivity | lia].
  - rewrite Z.sub_diag in Hval. cbn in Hval. injection Hval as Hval.
    assert (P = m) as -> by lia.
    rewrite Hd, fexp_normal, Z.sub_diag by lia.
    apply binary_round_aux_normal; assumption.
  - rewrite (Z.max_l (E - e)), (Z.max_r (e - E)) in Hval by lia.
    rewrite Z.pow_0_r, Z.mul_1_r in Hval.
    destruct (E - e) as [|k|k] eqn:Hk; try lia.
    symmetry in Hval. apply Pos_iter_xO_eq in Hval. subst m.
    rewrite digits2_pos_iter_xO in Hd.
    replace (Z.pos (digits2_pos P) + E) with (24 + e) by lia.
    rewrite fexp_normal by lia.
    replace (e - E) with (Z.neg k) by lia.
    apply binary_round_aux_normal; [|lia].
    rewrite digits2_pos_iter_xO. exact Hd.
Qed.

(** The binary32 number of an integer below [2 ^ 24] is the integer. *)
Lemma float_of_Z_represents n : 0 ≤ n < 2 ^ 24 → represents (float_of_Z n) n.
Proof.
  intros Hn. destruct n as [|p|p]; [reflexivity | | lia].
  pose proof (digits2_pos_bounds p) as Hp.
  assert (Hd : Z.pos (digits2_pos p) ≤ 24).
  { destruct (Z.le_gt_cases (Z.pos (digits2_pos p)) 24) as [|Hgt]; [assumption|].
    assert (2 ^ 24 ≤ 2 ^ (Z.pos (digits2_pos p) - 1))
      by (apply Z.pow_le_mono_r; lia).
    lia. }
  set (e := Z.pos (digits2_pos p) - 24).
  assert (Hm : ∃ m, Z.pos m = Z.pos p * 2 ^ (- e) ∧ Z.pos (digits2_pos m) = 24).
  { destruct (- e) as [|k|k] eqn:Hk; try lia.
    - exists p. split; [lia | lia].
    - exists (Pos.iter xO p k). split; [apply Pos_iter_xO|].
      rewrite digits2_pos_iter_xO. lia. }
  destruct Hm as (m & Hm & Hdm).
  unfold float_of_Z, binary_normalize.
  rewrite (binary_round_exact false p 0 m e); [| exact Hdm | lia |].
  - cbn [represents]. split; [exact Hdm|]. split; [lia | exact Hm].
  - rewrite Z.max_l, Z.max_r by lia. rewrite Z.pow_0_r, Z.mul_1_r, Z.sub_0_l.
    symmetry. exact Hm.
Qed.

Lemma pow2_exponents m e m' e' n n' :
  Z.pos (digits2_pos m) = 24 → Z.pos (digits2_pos m') = 24 →
  e ≤ 0 → e' ≤ 0 →
  Z.pos m = n * 2 ^ (- e) → Z.pos m' = n' * 2 ^ (- e') →
  n ≤ n' → e ≤ e'.
Proof.
  intros Hd Hd' He He' Hm Hm' Hn.
  pose proof (digits2_pos_bounds m) as Hb. pose proof (digits2_pos_bounds m') as Hb'.
  rewrite Hd in Hb. rewrite Hd' in Hb'.
  destruct (Z.le_gt_cases e e') as [|Hgt]; [assumption | exfalso].
  replace (- e') with ((- e) + (e - e')) in Hm' by lia.
  rewrite Z.pow_add_r in Hm' by lia.
  assert (2 ≤ 2 ^ (e - e'))
    by (change 2 with (2 ^ 1) at 1; apply Z.pow_le_mono_r; lia).
  assert (0 < 2 ^ (- e)) by (apply Z.pow_pos_nonneg; lia).
  assert (0 < n) by nia.
  assert (n * 2 ^ (- e) ≤ n' * 2 ^ (- e)) by nia.
  nia.
Qed.

(** The difference of two integers below [2 ^ 24] is computed exactly. *)
Lemma float_sub_exact a b :
  0 ≤ a → a ≤ b → b < 2 ^ 24 →
  float_sub (float_of_Z b) (float_of_Z a) = float_of_Z (b - a).
Proof.
  intros Ha Hab Hb.
  pose proof (float_of_Z_represents a ltac:(lia)) as Ra.
  pose proof (float_of_Z_represents b ltac:(lia)) as Rb.
  pose proof (float_of_Z_represents (b - a) ltac:(lia)) as Rc.
  destruct (float_of_Z a) as [[]| | |[] ma ea] eqn:Ea; cbn in Ra; try contradiction.
  - subst a. rewrite Z.sub_0_r.
    destruct (float_of_Z b) as [[]| | |[] mb eb]; cbn in Rb; try contradiction;
      reflexivity.
  - destruct Ra as (Hda & Hea & Hma).
    destruct (float_of_Z b) as [[]| | |[] mb eb] eqn:Eb; cbn in Rb; try contradiction.
    { subst b. exfalso. assert (a = 0) by lia. subst a. lia. }
    destruct Rb as (Hdb & Heb & Hmb).
    assert (Hle : ea ≤ eb)
      by (eapply (pow2_exponents ma ea mb eb a b); eassumption || lia).
    unfold float_sub, SFsub. rewrite (Z.min_r eb ea) by lia.
    unfold shl_align at 2. rewrite Z.sub_diag. cbn [fst cond_Zopp].
    assert (Hshift : Z.pos (shl_align mb eb ea).1 = b * 2 ^ (- ea)).
    { unfold shl_align. destruct (ea - eb) as [|k|k] eqn:Hk; try lia; cbn [fst].
      - assert (ea = eb) as -> by lia. exact Hmb.
      - rewrite Pos_iter_xO, Hmb, <- Z.mul_assoc, <- Z.pow_add_r by lia.
        f_equal. f_equal. lia. }
    change (fst (shl_align mb eb ea)) with ((shl_align mb eb ea).1).
    rewrite Hshift, Hma, <- Z.mul_sub_distr_r.
    destruct (Z.eq_dec a b) as [->|Hne].
    + rewrite Z.sub_diag. reflexivity.
    + assert (Hpos : 0 < (b - a) * 2 ^ (- ea))
        by (apply Z.mul_pos_pos; [lia | apply Z.pow_pos_nonneg; lia]).
      destruct ((b - a) * 2 ^ (- ea)) as [|P|P] eqn:HP; try lia.
      destruct (float_of_Z (b - a)) as [[]| | |[] mc ec]; cbn in Rc;
        try contradiction; try lia.
      destruct Rc as (Hdc & Hec & Hmc).
      cbn [binary_normalize]. apply binary_round_exact; [exact Hdc | lia |].
      rewrite <- HP, Hmc.
      destruct (Z.le_ge_cases ea ec) as [Hc | Hc].
      * rewrite (Z.max_r (ea - ec)), (Z.max_l (ec - ea)) by lia.
        rewrite Z.pow_0_r, Z.mul_1_r, <- Z.mul_assoc, <- Z.pow_add_r by lia.
        f_equal. f_equal. lia.
      * rewrite (Z.max_l (ea - ec)), (Z.max_r (ec - ea)) by lia.
        rewrite Z.pow_0_r, Z.mul_1_r, <- Z.mul_assoc, <- Z.pow_add_r by lia.
        f_equal. f_equal. lia.
Qed.

(** *** Rounding a quotient *)

Lemma round_nearest_even_cases m l :
  round_nearest_even (Z.pos m) l = Z.pos m
  ∨ round_nearest_even (Z.pos m) l = Z.pos (Pos.succ m).
Proof.
  destruct l as [|[]]; cbn [round_nearest_even]; auto.
  - destruct (Z.even (Z.pos m)); [left; reflexivity | right; lia].
  - right. lia.
Qed.

(** A 24-bit mantissa beside a location: rounded to nearest, and
    renormalised when the rounding carries into a 25th bit. *)
Lemma binary_round_aux_24 m e l :
  Z.pos (digits2_pos m) = 24 → -149 ≤ e ≤ 103 →
  binary_round_aux 24 128 false (Z.pos m) e l =
  if round_nearest_even (Z.pos m) l <? 2 ^ 24
  then S754_finite false (Z.to_pos (round_nearest_even (Z.pos m) l)) e
  else S754_finite false (Z.to_pos (2 ^ 23)) (e + 1).
Proof.
  intros Hd He. unfold binary_round_aux, shr_fexp. cbn [Zdigits2].
  rewrite Hd, fexp_normal, Z.sub_diag by lia. cbn [shr].
  rewrite loc_of_shr_record_of_loc, shr_m_record_of_loc.
  pose proof (digits2_pos_bounds m) as Hb. rewrite Hd in Hb.
  destruct (round_nearest_even_cases m l) as [-> | ->].
  - cbn [Zdigits2]. rewrite Hd, fexp_normal, Z.sub_diag by lia.
    cbn [shr shr_record_of_loc shr_m].
    destruct (Z.ltb_spec (Z.pos m) (2 ^ 24)) as [_|]; [|lia].
    destruct (Z.leb_spec e (128 - 24)) as [|]; [|lia]. reflexivity.
  - destruct (Z.ltb_spec (Z.pos (Pos.succ m)) (2 ^ 24)) as [Hlt|Hge].
    + assert (Hd' : Z.pos (digits2_pos (Pos.succ m)) = 24)
        by (apply digits2_pos_unique; lia).
      cbn [Zdigits2]. rewrite Hd', fexp_normal, Z.sub_diag by lia.
      cbn [shr shr_record_of_loc shr_m].
      destruct (Z.leb_spec e (128 - 24)) as [|]; [|lia]. reflexivity.
    + assert (Pos.succ m = 16777216%positive) as -> by lia.
      change (Zdigits2 16777216) with 25.
      replace (fexp 24 128 (25 + e) - e) with 1 by (unfold fexp, emin; lia).
      cbn [shr shr_record_of_loc SpecFloat.iter_pos shr_1 shr_m orb].
      destruct (Z.leb_spec (e + 1) (128 - 24)) as [|]; [|lia]. reflexivity.
Qed.

(** A 25-bit mantissa beside a location loses its last bit. *)
Lemma binary_round_aux_25 p (bit : bool) e l :
  Z.pos (digits2_pos p) = 24 → Z.pos p + 1 < 2 ^ 24 → -150 ≤ e ≤ 103 →
  binary_round_aux 24 128 false (Z.pos (if bit then p~1 else p~0)) e l =
  S754_finite false (Z.to_pos (round_nearest_even (Z.pos p) (halved bit l))) (e + 1).
Proof.
  intros Hd Hp He. unfold binary_round_aux, shr_fexp.
  assert (Hd' : Zdigits2 (Z.pos (if bit then p~1 else p~0)) = 25)
    by (destruct bit; cbn [Zdigits2 digits2_pos]; lia).
  rewrite Hd'.
  replace (fexp 24 128 (25 + e) - e) with 1 by (unfold fexp, emin; lia).
  cbn [shr SpecFloat.iter_pos].
  assert (Hshr : shr_1 (shr_record_of_loc (Z.pos (if bit then p~1 else p~0)) l)
                 = shr_record_of_loc (Z.pos p) (halved bit l))
    by (destruct bit, l as [|[]]; reflexivity).
  rewrite Hshr, loc_of_shr_record_of_loc, shr_m_record_of_loc.
  pose proof (digits2_pos_bounds p) as Hb. rewrite Hd in Hb.
  assert (Hd'' : ∀ q, round_nearest_even (Z.pos p) (halved bit l) = Z.pos q →
                   Z.pos (digits2_pos q) = 24).
  { intros q Hq. apply digits2_pos_unique.
    destruct (round_nearest_even_cases p (halved bit l)) as [H | H];
      rewrite H in Hq; injection Hq as <-; lia. }
  destruct (round_nearest_even_cases p (halved bit l)) as [H | H]; rewrite H;
    specialize (Hd'' _ H); cbn [Zdigits2];
    rewrite Hd'', fexp_normal, Z.sub_diag by lia;
    cbn [shr shr_record_of_loc shr_m Z.to_pos];
    (destruct (Z.leb_spec (e + 1) (128 - 24)) as [|]; [|lia]); reflexivity.
Qed.

Lemma float_of_Z_1000 : float_of_Z 1000 = S754_finite false 16384000 (-14).
Proof. reflexivity. Qed.

Lemma SFdiv_core_binary_1000 mx ex :
  Z.pos (digits2_pos mx) = 24 → -23 ≤ ex ≤ 0 →
  SFdiv_core_binary 24 128 (Z.pos mx) ex 16384000 (-14) =
  ((Z.pos mx * 2 ^ 24) / 16384000, ex - 10,
   new_location 16384000 ((Z.pos mx * 2 ^ 24) mod 16384000)).
Proof.
  intros Hd He. unfold SFdiv_core_binary. cbv zeta. cbn [Zdigits2].
  rewrite Hd. change (Z.pos (digits2_pos 16384000)) with 24.
  replace (fexp 24 128 (24 + ex - (24 + -14))) with (ex - 10)
    by (unfold fexp, emin; lia).
  rewrite (Z.min_l (ex - 10) (ex - -14)) by lia.
  replace (ex - -14 - (ex - 10)) with 24 by lia.
  cbv beta iota. rewrite Z.shiftl_mul_pow2 by lia.
  unfold Z.div, Z.modulo.
  destruct (Z.div_eucl (Z.pos mx * 2 ^ 24) 16384000) as [q r]. reflexivity.
Qed.

(** Dividing an integer below [2 ^ 24] by 1000 gives the quotient within
    half a unit in the last place. *)
Lemma float_div_1000 x n :
  represents x n → 0 ≤ n < 2 ^ 24 →
  within_half_ulp (float_div x (float_of_Z 1000)) n 1000.
Proof.
  intros Rx Hn. rewrite float_of_Z_1000.
  destruct x as [[]| | |[] mx ex]; cbn [represents] in Rx; try contradiction.
  { subst n. reflexivity. }
  destruct Rx as (Hd & He & Hmx).
  pose proof (digits2_pos_bounds mx) as Hb. rewrite Hd in Hb.
  unfold float_div, SFdiv. rewrite SFdiv_core_binary_1000 by assumption.
  cbn [xorb].
  set (a := Z.pos mx * 2 ^ 24) in *.
  pose proof (Z.div_mod a 16384000 ltac:(lia)) as Hdiv.
  pose proof (Z.mod_pos_bound a 16384000 ltac:(lia)) as Hr.
  set (q := a / 16384000) in *. set (r := a mod 16384000) in *.
  assert (Ha : a = Z.pos mx * 16777216) by (unfold a; reflexivity).
  assert (Hq : 8589934 ≤ q ≤ 17179869) by lia.
  (* the scaled numerator *)
  assert (Hscale : ∀ k, 0 ≤ k → n * 2 ^ (- (ex - k)) = Z.pos mx * 2 ^ k).
  { intros k Hk. replace (- (ex - k)) with (- ex + k) by lia.
    rewrite Z.pow_add_r, Z.mul_assoc, <- Hmx by lia. reflexivity. }
  assert (Hloc : new_location 16384000 r =
                 if r =? 0 then loc_Exact
                 else loc_Inexact (2 * r ?= 16384000)) by reflexivity.
  destruct q as [|pq|pq] eqn:Eq; try lia.
  destruct (Z.lt_ge_cases (Z.pos pq) (2 ^ 24)) as [Hsmall | Hbig].
  - (* 24 bits *)
    assert (Hdq : Z.pos (digits2_pos pq) = 24) by (apply digits2_pos_unique; lia).
    rewrite binary_round_aux_24 by (assumption || lia).
    assert (Hround : ∃ M, round_nearest_even (Z.pos pq) (new_location 16384000 r) = M
                          ∧ Z.pos pq ≤ M ≤ Z.pos pq + 1
                          ∧ 2 * Z.abs (a - 16384000 * M) ≤ 16384000).
    { rewrite Hloc. destruct (Z.eqb_spec r 0) as [Hr0|Hr0]; cbn [round_nearest_even].
      - eexists. split; [reflexivity|]. lia.
      - destruct (Z.compare_spec (2 * r) 16384000) as [Hc|Hc|Hc];
          [destruct (Z.even (Z.pos pq))| |]; eexists; (split; [reflexivity|]); lia. }
    destruct Hround as (M & -> & HM & Herr).
    destruct (Z.ltb_spec M (2 ^ 24)) as [HltM | HgeM].
    + destruct M as [|pM|pM]; try lia. cbn [Z.to_pos within_half_ulp].
      split; [apply digits2_pos_unique; lia|]. split; [lia|].
      rewrite (Z.max_l (- (ex - 10))), (Z.max_r (ex - 10)) by lia.
      rewrite Hscale, Z.pow_0_r, !Z.mul_1_r by lia.
      change (2 ^ 10) with 1024. lia.
    + assert (M = 16777216) as -> by lia.
      change (Z.to_pos (2 ^ 23)) with 8388608%positive. cbn [within_half_ulp].
      split; [reflexivity|]. split; [lia|].
      rewrite (Z.max_l (- (ex - 10 + 1))), (Z.max_r (ex - 10 + 1)) by lia.
      replace (ex - 10 + 1) with (ex - 9) by lia.
      rewrite Hscale, Z.pow_0_r, !Z.mul_1_r by lia.
      change (2 ^ 9) with 512. lia.
  - (* 25 bits *)
    assert (Hsplit : ∃ p bit, pq = (if bit : bool then p~1 else p~0)%positive).
    { destruct pq as [p|p|]; [exists p, true | exists p, false | lia]; reflexivity. }
    destruct Hsplit as (p & bit & ->).
    assert (Hp : 2 ^ 23 ≤ Z.pos p ∧ Z.pos p + 1 < 2 ^ 24) by (destruct bit; lia).
    assert (Hdp : Z.pos (digits2_pos p) = 24) by (apply digits2_pos_unique; lia).
    rewrite binary_round_aux_25 by (assumption || lia).
    assert (Hround : ∃ M, round_nearest_even (Z.pos p)
                            (halved bit (new_location 16384000 r)) = M
                          ∧ Z.pos p ≤ M ≤ Z.pos p + 1
                          ∧ Z.abs (a - 2 * 16384000 * M) ≤ 16384000).
    { rewrite Hloc.
      destruct bit, (Z.eqb_spec r 0) as [Hr0|Hr0]; cbn [halved round_nearest_even];
        try (destruct (Z.even (Z.pos p))); eexists; (split; [reflexivity|]); lia. }
    destruct Hround as (M & -> & HM & Herr).
    destruct M as [|pM|pM]; try lia. cbn [Z.to_pos within_half_ulp].
    split; [apply digits2_pos_unique; lia|]. split; [lia|].
    rewrite (Z.max_l (- (ex - 10 + 1))), (Z.max_r (ex - 10 + 1)) by lia.
    replace (ex - 10 + 1) with (ex - 9) by lia.
    rewrite Hscale, Z.pow_0_r, !Z.mul_1_r by lia.
    change (2 ^ 9) with 512. lia.
Qed.

(** C8.  [GetCombatTime] returns the binary32 value of
    [(float(end) - float(enteredCombat)) / 1000]: both timestamps are
    converted to [float] before the subtraction.  Here [end] is the exit time
    if the end condition is combat exit and that time is not zero, else the
    last heal event if the condition is last heal event and that time is not
    zero, else the maximum of the time combat was entered, the last heal
    event and the last damage event; under the invariant of the snapshot
    [enteredCombat ≤ end] in every case, so the assertion of the source holds
    and a value is returned.  When [end] is below [2 ^ 24] both timestamps
    are binary32 numbers, the subtraction is exact, and the value returned
    is [(end - enteredCombat) / 1000] rounded to binary32: [+0] for the
    quotient 0, otherwise a normal number within half a unit in the last
    place of the quotient. *)
Theorem combat_time_from_end src o :
  snapshot_invariant src →
  combat_end src o = spec_combat_end src o
  ∧ EnteredCombatTime src ≤ spec_combat_end src o
  ∧ ∃ seconds,
      GetCombatTime src o = Some seconds
      ∧ seconds = float_div
                    (float_sub (float_of_Z (spec_combat_end src o))
                               (float_of_Z (EnteredCombatTime src)))
                    (float_of_Z 1000)
      ∧ (spec_combat_end src o < 2 ^ 24 →
         within_half_ulp seconds
           (spec_combat_end src o - EnteredCombatTime src) 1000).
Proof.
  intros (H0 & H1 & H2 & H3 & Hexit & Hheal & Hdamage).
  assert (Hle : EnteredCombatTime src ≤ spec_combat_end src o).
  { unfold spec_combat_end.
    repeat case_decide;
      first [ lia
            | apply Hexit; match goal with H : _ ∧ _ |- _ => exact (proj2 H) end
            | apply Hheal; match goal with H : _ ∧ _ |- _ => exact (proj2 H) end ]. }
  split; [apply combat_end_spec|]. split; [exact Hle|].
  eexists. split; [|split; [reflexivity|]].
  - unfold GetCombatTime. rewrite combat_end_spec.
    destruct (EnteredCombatTime src <=? spec_combat_end src o) eqn:Hcmp;
      [reflexivity|].
    apply Z.leb_gt in Hcmp. lia.
  - intros Hsmall. rewrite float_sub_exact by lia.
    apply float_div_1000; [apply float_of_Z_represents|]; lia.
Qed.

(** C9.  For a skill id that is not in the skill map of the snapshot (the
    id of the synthetic entry included), [GetSkillDetails] returns the empty
    table, after any calls, a call with the same id included.  No view
    operation has a failing path: each is a total function that returns a
    table or an entry. *)
Theorem GetSkillDetails_unknown_id src o d history pSkillId :
  SkillsHealing src !! pSkillId = None →
  returned (GetSkillDetails pSkillId) (object_after history src o d)
  = AggregatedVector_new
  ∧ Entries (returned (GetSkillDetails pSkillId) (object_after history src o d))
    = [].
Proof.
  intros Hnone. rewrite returned_GetSkillDetails.
  unfold build_SkillDetails. rewrite Hnone. auto.
Qed.

(** ** No view fills in a cast count *)

Lemma clean_Add v pId pName pHealing pHits :
  clean v → clean (Add v pId pName pHealing pHits None).
Proof.
  unfold clean. intros H. cbn [Add Entries]. apply Forall_app. split; [exact H|].
  apply Forall_singleton. reflexivity.
Qed.

Lemma clean_new : clean AggregatedVector_new.
Proof. apply Forall_nil_2. Qed.

Lemma clean_sort_entries o v : clean v → clean (sort_entries o v).
Proof. unfold clean. cbn [sort_entries Entries]. rewrite Sort_perm. auto. Qed.

Lemma clean_addIndirect v a b : clean v → clean (addIndirect v a b).
Proof.
  intros H. unfold addIndirect.
  destruct (negb (a =? 0) || negb (b =? 0)); [apply clean_Add|]; exact H.
Qed.

Lemma clean_skills_loop src o d l st :
  clean st.1.1 → clean (foldl (skills_step src o d) st l).1.1.
Proof.
  revert st. induction l as [|sk l IH]; intros [[vec ih] it] H; [exact H|].
  cbn [foldl]. apply IH. rewrite skills_step_eq. cbn [fst].
  destruct (listed d sk); [apply clean_Add|]; exact H.
Qed.

Lemma clean_agents_loop src o d l vec :
  clean vec → clean (foldl (agents_step src o d) vec l).
Proof.
  revert vec. induction l as [|[agentId agent] l IH]; intros vec H; [exact H|].
  cbn [foldl]. apply IH. unfold agents_step.
  destruct (Filter_iterator src o (Agents src !! agentId)); [|apply clean_Add]; exact H.
Qed.

Lemma clean_agent_details_agent_loop d pAgentId skillId skill l st :
  clean st.1.1 →
  clean (foldl (agent_details_agent_step d pAgentId skillId skill) st l).1.1.
Proof.
  revert st. induction l as [|[agentId agent] l IH]; intros [[vec ih] it] H; [exact H|].
  cbn [foldl]. apply IH. unfold agent_details_agent_step.
  destruct (negb (agentId =? pAgentId)); [exact H|].
  destruct (IsSkillIndirectHealing skillId (HealedSkill.Name skill));
    [destruct (negb d)|]; cbn [fst]; try apply clean_Add; exact H.
Qed.

Lemma clean_agent_details_loop d pAgentId l st :
  clean st.1.1 → clean (foldl (agent_details_step d pAgentId) st l).1.1.
Proof.
  revert st. induction l as [|[skillId skill] l IH]; intros st H; [exact H|].
  cbn [foldl]. apply IH. unfold agent_details_step.
  apply clean_agent_details_agent_loop. exact H.
Qed.

Lemma clean_build_Skills src o d : clean (build_Skills src o d).
Proof.
  unfold build_Skills.
  pose proof (clean_skills_loop src o d (ordered (SkillsHealing src))
                (AggregatedVector_new, 0, 0) clean_new) as H.
  destruct (foldl (skills_step src o d) (AggregatedVector_new, 0, 0)
                  (ordered (SkillsHealing src))) as [[vec ih] it].
  apply clean_sort_entries, clean_addIndirect, H.
Qed.

Lemma clean_build_AgentDetails src o d pAgentId :
  clean (build_AgentDetails src o d pAgentId).
Proof.
  unfold build_AgentDetails.
  pose proof (clean_agent_details_loop d pAgentId (ordered (SkillsHealing src))
                (AggregatedVector_new, 0, 0) clean_new) as H.
  destruct (foldl (agent_details_step d pAgentId) (AggregatedVector_new, 0, 0)
                  (ordered (SkillsHealing src))) as [[vec ih] it].
  apply clean_sort_entries, clean_addIndirect, H.
Qed.

Lemma clean_build_Agents src o d all : clean (build_Agents src o d all).
Proof. apply clean_sort_entries, clean_agents_loop, clean_new. Qed.

Lemma clean_build_SkillDetails src o d pSkillId :
  clean (build_SkillDetails src o d pSkillId).
Proof.
  unfold build_SkillDetails.
  destruct (SkillsHealing src !! pSkillId); [|apply clean_new].
  apply clean_sort_entries. change (skill_details_step src o d) with (agents_step src o d).
  apply clean_agents_loop, clean_new.
Qed.

Lemma clean_build_GroupFilterTotals src :
  clean (build_GroupFilterTotals src (build_AllAgents src)).
Proof.
  unfold clean. rewrite build_GroupFilterTotals_entries.
  repeat constructor.
Qed.

(** C10.  After any calls, the total and every entry of every table returned
    by [GetTotal], [GetAgents], [GetSkills], [GetAgentDetails],
    [GetSkillDetails] and [GetGroupFilterTotals] has no cast count. *)
Theorem casts_always_absent src o d history :
  let this := object_after history src o d in
  Casts (returned GetTotal this) = None
  ∧ Forall no_casts (Entries (returned GetAgents this))
  ∧ Forall no_casts (Entries (returned GetSkills this))
  ∧ (∀ pAgentId, Forall no_casts (Entries (returned (GetAgentDetails pAgentId) this)))
  ∧ (∀ pSkillId, Forall no_casts (Entries (returned (GetSkillDetails pSkillId) this)))
  ∧ Forall no_casts (Entries (returned GetGroupFilterTotals this)).
Proof.
  intros this. unfold this.
  rewrite returned_GetTotal, returned_GetSkills, returned_GetAgents,
    returned_GetGroupFilterTotals.
  split.
  { unfold build_Total. destruct (foldl total_step _ _). reflexivity. }
  split; [apply clean_build_Agents|]. split; [apply clean_build_Skills|].
  split; [|split].
  - intros pAgentId. rewrite returned_GetAgentDetails.
    apply clean_build_AgentDetails.
  - intros pSkillId. rewrite returned_GetSkillDetails.
    apply clean_build_SkillDetails.
  - apply clean_build_GroupFilterTotals.
Qed.


(** * Further properties of the engine *)

(** ** The filter in closed form *)

Lemma FilterInternal_unmapped src pFilter :
  FilterInternal src None pFilter = ExcludeUnmapped pFilter.
Proof. unfold FilterInternal. destruct (ExcludeUnmapped pFilter); reflexivity. Qed.

Lemma FilterInternal_mapped src agent pFilter :
  FilterInternal src (Some agent) pFilter
  = (HealedAgent.IsMinion agent && ExcludeMinions pFilter)
    || flag_of (agent_class src agent) pFilter.
Proof.
  unfold FilterInternal, agent_class.
  rewrite (Z.eqb_sym (SubGroup src) (HealedAgent.Subgroup agent)).
  destruct (Z.eqb_spec (HealedAgent.Subgroup agent) (SubGroup src)) as [Heq|Hne];
    destruct (Z.eqb_spec (HealedAgent.Subgroup agent) 0) as [H0|H0];
    destruct (Z.eqb_spec (SubGroup src) 0) as [Hl|Hl];
    try (exfalso; congruence); cbn [flag_of];
    destruct (HealedAgent.IsMinion agent), (ExcludeMinions pFilter),
      (ExcludeOffSquad pFilter), (ExcludeOffGroup pFilter),
      (ExcludeGroup pFilter); reflexivity.
Qed.

(** X1.  [FilterInternal] in closed form.  An agent missing from the agent
    map is excluded exactly when [ExcludeUnmapped] is set.  A mapped agent is
    in exactly one of three classes (the observer's subgroup, no subgroup
    while the observer has one, another subgroup) and is excluded exactly
    when it is a minion and [ExcludeMinions] is set, or the switch of its
    class is set; the order of the tests in the source does not matter. *)
Theorem FilterInternal_closed_form src pFilter :
  FilterInternal src None pFilter = ExcludeUnmapped pFilter
  ∧ ∀ agent,
      FilterInternal src (Some agent) pFilter
      = (HealedAgent.IsMinion agent && ExcludeMinions pFilter)
        || flag_of (agent_class src agent) pFilter.
Proof.
  split; [apply FilterInternal_unmapped|].
  intros agent. apply FilterInternal_mapped.
Qed.

(** X2.  With none of the five switches set the filter keeps every agent,
    mapped or not; with all five set it rejects every agent. *)
Theorem Filter_extremes src o agentId :
  ((∀ f, flag_of f o = false) → Filter src o agentId = false)
  ∧ ((∀ f, flag_of f o = true) → Filter src o agentId = true).
Proof.
  pose proof (FilterInternal_unmapped src o) as Hnone.
  pose proof (λ agent, FilterInternal_mapped src agent o) as Hsome.
  unfold Filter. split; intros H.
  - destruct (Agents src !! agentId) as [agent|].
    + rewrite Hsome, (H (agent_class src agent)),
        (H FlagMinions : ExcludeMinions o = false), andb_false_r.
      reflexivity.
    + rewrite Hnone. apply (H FlagUnmapped).
  - destruct (Agents src !! agentId) as [agent|].
    + rewrite Hsome, (H (agent_class src agent)). apply orb_true_r.
    + rewrite Hnone. apply (H FlagUnmapped).
Qed.

(** ** What the four group filters keep *)

Lemma excluded_by_unmapped src g agentId :
  Agents src !! agentId = None → excluded_by src g agentId = true.
Proof. unfold excluded_by. intros ->. destruct g; reflexivity. Qed.

Lemma excluded_by_mapped src agentId agent :
  Agents src !! agentId = Some agent →
  excluded_by src GroupFilter.Group agentId
  = HealedAgent.IsMinion agent
    || negb (HealedAgent.Subgroup agent =? SubGroup src)
  ∧ excluded_by src GroupFilter.Squad agentId
    = HealedAgent.IsMinion agent
      || (HealedAgent.Subgroup agent =? 0) && negb (SubGroup src =? 0)
  ∧ excluded_by src GroupFilter.AllExcludingMinions agentId
    = HealedAgent.IsMinion agent
  ∧ excluded_by src GroupFilter.All agentId = false.
Proof.
  unfold excluded_by. intros ->.
  rewrite !FilterInternal_mapped. unfold agent_class.
  destruct (Z.eqb_spec (HealedAgent.Subgroup agent) (SubGroup src)) as [Heq|Hne];
    destruct (Z.eqb_spec (HealedAgent.Subgroup agent) 0) as [H0|H0];
    destruct (Z.eqb_spec (SubGroup src) 0) as [Hl|Hl];
    try (exfalso; congruence);
    destruct (HealedAgent.IsMinion agent); cbn; repeat split; reflexivity.
Qed.

(** X3.  The agents the four group filters keep.  Group keeps the mapped
    agents that are no minions and are in the observer's subgroup; Squad the
    mapped agents that are no minions, except those without a subgroup when
    the observer has one; All (Excluding Summons) the mapped agents that are
    no minions; All (Including Summons) the mapped agents.  None keeps an
    agent missing from the agent map. *)
Theorem group_filters_keep src agentId :
  (excluded_by src GroupFilter.Group agentId = false ↔
     ∃ agent, Agents src !! agentId = Some agent
              ∧ HealedAgent.IsMinion agent = false
              ∧ HealedAgent.Subgroup agent = SubGroup src)
  ∧ (excluded_by src GroupFilter.Squad agentId = false ↔
       ∃ agent, Agents src !! agentId = Some agent
                ∧ HealedAgent.IsMinion agent = false
                ∧ ¬ (HealedAgent.Subgroup agent = 0 ∧ SubGroup src ≠ 0))
  ∧ (excluded_by src GroupFilter.AllExcludingMinions agentId = false ↔
       ∃ agent, Agents src !! agentId = Some agent
                ∧ HealedAgent.IsMinion agent = false)
  ∧ (excluded_by src GroupFilter.All agentId = false ↔
       ∃ agent, Agents src !! agentId = Some agent).
Proof.
  destruct (Agents src !! agentId) as [agent|] eqn:Hfound.
  - destruct (excluded_by_mapped src agentId agent Hfound)
      as (-> & -> & -> & ->).
    split; [|split; [|split]].
    + rewrite orb_false_iff, negb_false_iff, Z.eqb_eq. split.
      * intros [Hm Hs]. exists agent. auto.
      * intros (a & [= <-] & Hm & Hs). auto.
    + rewrite orb_false_iff, andb_false_iff, negb_false_iff, Z.eqb_neq, Z.eqb_eq.
      split.
      * intros [Hm Hs]. exists agent. split; [reflexivity|]. split; [exact Hm|].
        intros [H0 Hl]. destruct Hs; contradiction.
      * intros (a & [= <-] & Hm & Hs). split; [exact Hm|].
        destruct (decide (HealedAgent.Subgroup agent = 0)) as [H0|H0]; [|left; exact H0].
        right. destruct (decide (SubGroup src = 0)) as [Hl|Hl]; [exact Hl|].
        exfalso. apply Hs. auto.
    + split; [intros Hm; exists agent; auto | intros (a & [= <-] & Hm); exact Hm].
    + split; [intros _; exists agent; reflexivity | reflexivity].
  - rewrite !(excluded_by_unmapped src _ agentId Hfound).
    split; [|split; [|split]]; (split; [intros [=]|]).
    + intros (a & [=] & _).
    + intros (a & [=] & _).
    + intros (a & [=] & _).
    + intros (a & [=]).
Qed.

(** ** The table of [GetGroupFilterTotals] *)

(** X4.  For every snapshot and configuration and after any calls,
    [GetGroupFilterTotals] has exactly four entries, named Group, Squad,
    All (Excluding Summons) and All (Including Summons), each with id 0 and
    no cast count, and each holds the 64-bit sums of the healing and of the
    ticks of all records whose agent its group filter keeps. *)
Theorem GetGroupFilterTotals_table src o d history :
  Entries (returned GetGroupFilterTotals (object_after history src o d)) =
  [group_entry src GroupFilter.Group "Group";
   group_entry src GroupFilter.Squad "Squad";
   group_entry src GroupFilter.AllExcludingMinions "All (Excluding Summons)";
   group_entry src GroupFilter.All "All (Including Summons)"].
Proof. rewrite returned_GetGroupFilterTotals. apply build_GroupFilterTotals_entries. Qed.

(** ** [HighestHealing] is the running maximum *)

Lemma highest_ok_new : highest_ok AggregatedVector_new.
Proof.
  split; [|left; reflexivity]. intros entry Hin. cbn in Hin.
  apply elem_of_nil in Hin. contradiction.
Qed.

Lemma highest_ok_Add v pId pName pHealing pHits pCasts :
  highest_ok v → highest_ok (Add v pId pName pHealing pHits pCasts).
Proof.
  intros (Hbound & Hmax). unfold highest_ok. cbn [Add Entries HighestHealing Healing].
  split.
  - intros entry Hin. apply elem_of_app in Hin as [Hin | Hin].
    + specialize (Hbound entry Hin). lia.
    + apply list_elem_of_singleton in Hin. subst entry. cbn. lia.
  - destruct (Z.max_spec (HighestHealing v) pHealing) as [[Hlt ->] | [Hle ->]].
    + right. eexists. split; [apply elem_of_app; right; left|]. reflexivity.
    + destruct Hmax as [H0 | (entry & Hin & Heq)]; [left; exact H0|].
      right. exists entry. split; [apply elem_of_app; left; exact Hin | exact Heq].
Qed.

Lemma highest_ok_sort_entries o v : highest_ok v → highest_ok (sort_entries o v).
Proof.
  intros (Hbound & Hmax). unfold highest_ok. cbn [sort_entries Entries HighestHealing].
  split.
  - intros entry Hin. rewrite Sort_perm in Hin. apply Hbound, Hin.
  - destruct Hmax as [H0 | (entry & Hin & Heq)]; [left; exact H0|].
    right. exists entry. rewrite Sort_perm. auto.
Qed.

Lemma highest_ok_addIndirect v a b : highest_ok v → highest_ok (addIndirect v a b).
Proof.
  intros H. unfold addIndirect.
  destruct (negb (a =? 0) || negb (b =? 0)); [apply highest_ok_Add|]; exact H.
Qed.

Lemma highest_ok_skills_loop src o d l st :
  highest_ok st.1.1 → highest_ok (foldl (skills_step src o d) st l).1.1.
Proof.
  revert st. induction l as [|sk l IH]; intros [[vec ih] it] H; [exact H|].
  cbn [foldl]. apply IH. rewrite skills_step_eq. cbn [fst].
  destruct (listed d sk); [apply highest_ok_Add|]; exact H.
Qed.

Lemma highest_ok_agents_loop src o d l vec :
  highest_ok vec → highest_ok (foldl (agents_step src o d) vec l).
Proof.
  revert vec. induction l as [|[agentId agent] l IH]; intros vec H; [exact H|].
  cbn [foldl]. apply IH. unfold agents_step.
  destruct (Filter_iterator src o (Agents src !! agentId));
    [|apply highest_ok_Add]; exact H.
Qed.

Lemma highest_ok_agent_details_agent_loop d pAgentId skillId skill l st :
  highest_ok st.1.1 →
  highest_ok (foldl (agent_details_agent_step d pAgentId skillId skill) st l).1.1.
Proof.
  revert st. induction l as [|[agentId agent] l IH]; intros [[vec ih] it] H; [exact H|].
  cbn [foldl]. apply IH. unfold agent_details_agent_step.
  destruct (negb (agentId =? pAgentId)); [exact H|].
  destruct (IsSkillIndirectHealing skillId (HealedSkill.Name skill));
    [destruct (negb d)|]; cbn [fst]; try apply highest_ok_Add; exact H.
Qed.

Lemma highest_ok_agent_details_loop d pAgentId l st :
  highest_ok st.1.1 → highest_ok (foldl (agent_details_step d pAgentId) st l).1.1.
Proof.
  revert st. induction l as [|[skillId skill] l IH]; intros st H; [exact H|].
  cbn [foldl]. apply IH. unfold agent_details_step.
  apply highest_ok_agent_details_agent_loop. exact H.
Qed.

Lemma highest_ok_foldl (l : list AggregatedStatsEntry) h :
  let m := foldl (λ highest entry, Z.max highest (Healing entry)) h l in
  h ≤ m ∧ (∀ entry, entry ∈ l → Healing entry ≤ m)
  ∧ (m = h ∨ ∃ entry, entry ∈ l ∧ Healing entry = m).
Proof.
  revert h. induction l as [|e l IH]; intros h; cbn [foldl].
  - split; [lia|]. split; [|left; reflexivity].
    intros entry Hin. apply elem_of_nil in Hin. contradiction.
  - destruct (IH (Z.max h (Healing e))) as (Hle & Hbound & Hmax).
    split; [lia|]. split.
    + intros entry Hin. apply elem_of_cons in Hin as [-> | Hin]; [lia|].
      apply Hbound, Hin.
    + destruct Hmax as [Heq | (entry & Hin & Heq)].
      * destruct (Z.max_spec h (Healing e)) as [[_ Hm] | [_ Hm]]; rewrite Hm in Heq |- *.
        -- right. exists e. split; [left | symmetry; exact Heq].
        -- left. exact Heq.
      * right. exists entry. split; [right; exact Hin | exact Heq].
Qed.

Lemma highest_ok_build_Skills src o d : highest_ok (build_Skills src o d).
Proof.
  unfold build_Skills.
  pose proof (highest_ok_skills_loop src o d (ordered (SkillsHealing src))
                (AggregatedVector_new, 0, 0) highest_ok_new) as H.
  destruct (foldl (skills_step src o d) (AggregatedVector_new, 0, 0)
                  (ordered (SkillsHealing src))) as [[vec ih] it].
  apply highest_ok_sort_entries, highest_ok_addIndirect, H.
Qed.

Lemma highest_ok_build_AgentDetails src o d pAgentId :
  highest_ok (build_AgentDetails src o d pAgentId).
Proof.
  unfold build_AgentDetails.
  pose proof (highest_ok_agent_details_loop d pAgentId
                (ordered (SkillsHealing src))
                (AggregatedVector_new, 0, 0) highest_ok_new) as H.
  destruct (foldl (agent_details_step d pAgentId) (AggregatedVector_new, 0, 0)
                  (ordered (SkillsHealing src))) as [[vec ih] it].
  apply highest_ok_sort_entries, highest_ok_addIndirect, H.
Qed.

Lemma highest_ok_build_SkillDetails src o d pSkillId :
  highest_ok (build_SkillDetails src o d pSkillId).
Proof.
  unfold build_SkillDetails.
  destruct (SkillsHealing src !! pSkillId); [|apply highest_ok_new].
  apply highest_ok_sort_entries.
  change (skill_details_step src o d) with (agents_step src o d).
  apply highest_ok_agents_loop, highest_ok_new.
Qed.

Lemma highest_ok_build_GroupFilterTotals src :
  highest_ok (build_GroupFilterTotals src (build_AllAgents src)).
Proof.
  unfold build_GroupFilterTotals.
  destruct (foldl (group_filter_agent_step src) _ (ordered (build_AllAgents src)))
    as [entries fakeOptions].
  unfold highest_ok. cbn [Entries HighestHealing].
  match goal with
  | |- context [foldl ?f ?h entries] =>
      destruct (highest_ok_foldl entries h) as (_ & Hbound & Hmax)
  end.
  split; [exact Hbound|].
  destruct Hmax as [Heq | Hex]; [left | right; exact Hex].
  rewrite Heq. reflexivity.
Qed.

(** X5.  In every table a view returns, after any calls, [HighestHealing]
    is at least the healing of every entry and, unless it is 0, is the
    healing of one of the entries: the maximum [Add] keeps survives the
    sort, and [GetGroupFilterTotals] recomputes it over its four totals. *)
Theorem HighestHealing_is_maximum src o d history :
  let this := object_after history src o d in
  highest_ok (returned GetSkills this)
  ∧ highest_ok (returned GetAgents this)
  ∧ (∀ pAgentId, highest_ok (returned (GetAgentDetails pAgentId) this))
  ∧ (∀ pSkillId, highest_ok (returned (GetSkillDetails pSkillId) this))
  ∧ highest_ok (returned GetGroupFilterTotals this).
Proof.
  intros this. unfold this.
  rewrite returned_GetSkills, returned_GetAgents, returned_GetGroupFilterTotals.
  split; [apply highest_ok_build_Skills|].
  split; [apply highest_ok_sort_entries, highest_ok_agents_loop, highest_ok_new|].
  split; [intros pAgentId; rewrite returned_GetAgentDetails;
          apply highest_ok_build_AgentDetails|].
  split; [intros pSkillId; rewrite returned_GetSkillDetails;
          apply highest_ok_build_SkillDetails|].
  apply highest_ok_build_GroupFilterTotals.
Qed.

(** ** [Sort] puts every pair of entries in the chosen order *)

Lemma Ascii_compare_trans a b c :
  Ascii.compare a b = Lt → Ascii.compare b c = Lt → Ascii.compare a c = Lt.
Proof.
  unfold Ascii.compare. rewrite !N.compare_lt_iff. apply N.lt_trans.
Qed.

Lemma Ascii_compare_eq a b : Ascii.compare a b = Eq → a = b.
Proof.
  unfold Ascii.compare. rewrite N.compare_eq_iff. intros H.
  rewrite <- (ascii_N_embedding a), <- (ascii_N_embedding b), H. reflexivity.
Qed.

Lemma String_compare_trans a : ∀ b c,
  String.compare a b = Lt → String.compare b c = Lt → String.compare a c = Lt.
Proof.
  induction a as [|x a IH]; intros [|y b] [|z c]; cbn; try congruence.
  destruct (Ascii.compare x y) eqn:Hxy; try congruence;
    destruct (Ascii.compare y z) eqn:Hyz; try congruence.
  - apply Ascii_compare_eq in Hxy, Hyz. subst y z.
    assert (Ascii.compare x x = Eq) as ->
      by (unfold Ascii.compare; apply N.compare_refl).
    apply IH.
  - apply Ascii_compare_eq in Hxy. subst y. rewrite Hyz. reflexivity.
  - apply Ascii_compare_eq in Hyz. subst z. rewrite Hxy. reflexivity.
  - rewrite (Ascii_compare_trans x y z Hxy Hyz). reflexivity.
Qed.

Lemma String_leb_trans a b c :
  String.leb a b = true → String.leb b c = true → String.leb a c = true.
Proof.
  unfold String.leb. intros Hab Hbc.
  destruct (String.compare a b) eqn:Eab; try discriminate.
  - apply String.compare_eq_iff in Eab. subst b. exact Hbc.
  - destruct (String.compare b c) eqn:Ebc; try discriminate.
    + apply String.compare_eq_iff in Ebc. subst c. rewrite Eab. reflexivity.
    + rewrite (String_compare_trans a b c Eab Ebc). reflexivity.
Qed.

Lemma String_ltb_leb a b : String.ltb b a = false → String.leb a b = true.
Proof.
  unfold String.ltb, String.leb. rewrite (String.compare_antisym b a).
  destruct (String.compare a b); cbn; congruence.
Qed.

Lemma in_order_trans order : Transitive (in_order order).
Proof.
  intros a b c. destruct order; cbn [in_order].
  - apply String_leb_trans.
  - intros Hab Hbc. exact (String_leb_trans _ _ _ Hbc Hab).
  - lia.
  - lia.
Qed.

Lemma sorted_before_in_order o a b :
  sorted_before (Sort_comparator o) a b → in_order (SortOrderChoice o) a b.
Proof.
  unfold sorted_before, Sort_comparator.
  destruct (SortOrderChoice o); cbn [in_order].
  - apply String_ltb_leb.
  - apply String_ltb_leb.
  - intros H. apply Z.ltb_ge in H. exact H.
  - intros H. rewrite Z.gtb_ltb in H. apply Z.ltb_ge in H. exact H.
Qed.

Lemma Sorted_weaken {A} (R R' : relation A) l :
  (∀ a b, R a b → R' a b) → Sorted R l → Sorted R' l.
Proof.
  intros Himpl Hsorted. induction Hsorted as [|a l Hl IH Hhd]; constructor.
  - exact IH.
  - destruct Hhd; constructor. apply Himpl. assumption.
Qed.

Lemma Sort_strongly_sorted o l :
  StronglySorted (in_order (SortOrderChoice o)) (Sort o l).
Proof.
  apply Sorted_StronglySorted; [apply in_order_trans|].
  apply (Sorted_weaken (sorted_before (Sort_comparator o))).
  - apply sorted_before_in_order.
  - apply Sort_sorted.
Qed.

(** X6.  [Sort] returns a rearrangement of its argument in which every
    entry, not only the next one, stands before all the entries that follow
    it in the order the configuration asks for: names ascending or
    descending as byte strings, or healing ascending or descending. *)
Theorem Sort_sorts o l :
  Sort o l ≡ₚ l ∧ StronglySorted (in_order (SortOrderChoice o)) (Sort o l).
Proof.
  split; [apply Sort_perm | apply Sort_strongly_sorted].
Qed.

(** X7.  The four listing views return their entries in the configured
    order, whatever was called before. *)
Theorem views_are_sorted src o d history :
  let this := object_after history src o d in
  let sorted v := StronglySorted (in_order (SortOrderChoice o)) (Entries v) in
  sorted (returned GetSkills this)
  ∧ sorted (returned GetAgents this)
  ∧ (∀ pAgentId, sorted (returned (GetAgentDetails pAgentId) this))
  ∧ (∀ pSkillId, sorted (returned (GetSkillDetails pSkillId) this)).
Proof.
  intros this sorted. unfold this, sorted.
  rewrite returned_GetSkills, returned_GetAgents.
  split; [|split; [|split]].
  - unfold build_Skills.
    destruct (foldl (skills_step src o d) (AggregatedVector_new, 0, 0)
                    (ordered (SkillsHealing src))) as [[vec ih] it].
    apply Sort_strongly_sorted.
  - apply Sort_strongly_sorted.
  - intros pAgentId. rewrite returned_GetAgentDetails. unfold build_AgentDetails.
    destruct (foldl (agent_details_step d pAgentId) (AggregatedVector_new, 0, 0)
                    (ordered (SkillsHealing src))) as [[vec ih] it].
    apply Sort_strongly_sorted.
  - intros pSkillId. rewrite returned_GetSkillDetails. unfold build_SkillDetails.
    destruct (SkillsHealing src !! pSkillId); [apply Sort_strongly_sorted|].
    constructor.
Qed.

(** ** The assertion of [GetCombatTime] *)

(** X8.  The assertion of [GetCombatTime] fails exactly when the chosen end
    of combat is a timestamp that is set and lies before the entry into
    combat: the exit time under [CombatExit], the last heal under
    [LastHealEvent].  Under [LastDamageEvent], and whenever the chosen
    timestamp is still 0, the end is the latest of the entry time and the
    two event times and the assertion holds. *)
Theorem GetCombatTime_assertion src o :
  GetCombatTime src o = None ↔
  (CombatEndConditionChoice o = CombatEndCondition.CombatExit
   ∧ ExitedCombatTime src ≠ 0
   ∧ ExitedCombatTime src < EnteredCombatTime src)
  ∨ (CombatEndConditionChoice o = CombatEndCondition.LastHealEvent
     ∧ LastHealEvent src ≠ 0
     ∧ LastHealEvent src < EnteredCombatTime src).
Proof.
  unfold GetCombatTime, combat_end.
  destruct (CombatEndConditionChoice o); cbn [CombatEndCondition.eqb andb];
    destruct (Z.eqb_spec (ExitedCombatTime src) 0) as [Hx|Hx];
    destruct (Z.eqb_spec (LastHealEvent src) 0) as [Hl|Hl];
    cbn [negb andb];
    match goal with
    | |- context [?a <=? ?b] => destruct (Z.leb_spec a b) as [Hle|Hlt]
    end;
    (split;
     [ intros Hnone;
       first [ discriminate Hnone
             | exfalso; lia
             | left; split; [reflexivity | split; [assumption | lia]]
             | right; split; [reflexivity | split; [assumption | lia]] ]
     | intros [(Hc & Hn & Hlt') | (Hc & Hn & Hlt')];
       first [ discriminate Hc | reflexivity | lia ] ]).
Qed.

(** ** The caches are transparent *)

Lemma returned_GetAllAgents history src o d :
  returned GetAllAgents (object_after history src o d) = build_AllAgents src.
Proof.
  with_object history src o d Hok.
  rewrite (returned_computes _ _ _ (GetAllAgents_computes _ Hok)). congruence.
Qed.

Lemma returned_GetStats history src o d pDataSource :
  returned (GetStats pDataSource) (object_after history src o d) =
  match pDataSource with
  | DataSource.Skills => build_Skills src o d
  | DataSource.Agents => build_Agents src o d (build_AllAgents src)
  | DataSource.Totals => build_GroupFilterTotals src (build_AllAgents src)
  end.
Proof.
  destruct pDataSource; cbn [GetStats].
  - apply returned_GetAgents.
  - apply returned_GetSkills.
  - apply returned_GetGroupFilterTotals.
Qed.

(** X9.  What a member function returns does not depend on the calls made
    before it: on two objects built from the same snapshot, options and
    debug flag, every view returns the same value after any two histories of
    calls, so that no filled or unfilled cache can be observed. *)
Theorem views_independent_of_history src o d history history' :
  let this := object_after history src o d in
  let this' := object_after history' src o d in
  returned GetTotal this = returned GetTotal this'
  ∧ (∀ pDataSource,
       returned (GetStats pDataSource) this = returned (GetStats pDataSource) this')
  ∧ (∀ pDataSource pId,
       returned (GetDetails pDataSource pId) this
       = returned (GetDetails pDataSource pId) this')
  ∧ returned GetAgents this = returned GetAgents this'
  ∧ returned GetSkills this = returned GetSkills this'
  ∧ (∀ pAgentId,
       returned (GetAgentDetails pAgentId) this
       = returned (GetAgentDetails pAgentId) this')
  ∧ (∀ pSkillId,
       returned (GetSkillDetails pSkillId) this
       = returned (GetSkillDetails pSkillId) this')
  ∧ returned GetGroupFilterTotals this = returned GetGroupFilterTotals this'
  ∧ returned GetAllAgents this = returned GetAllAgents this'.
Proof.
  intros this this'. unfold this, this'.
  split; [rewrite !returned_GetTotal; reflexivity|].
  split; [intros ?; rewrite !returned_GetStats; reflexivity|].
  split; [intros ? ?; rewrite !returned_GetDetails; reflexivity|].
  split; [rewrite !returned_GetAgents; reflexivity|].
  split; [rewrite !returned_GetSkills; reflexivity|].
  split; [intros ?; rewrite !returned_GetAgentDetails; reflexivity|].
  split; [intros ?; rewrite !returned_GetSkillDetails; reflexivity|].
  split; [rewrite !returned_GetGroupFilterTotals; reflexivity|].
  rewrite !returned_GetAllAgents; reflexivity.
Qed.

(** ** The merged table of [GetAllAgents], agent by agent *)

Lemma all_agents_agent_step_lookup all it k :
  all_agents_agent_step all it !! k = None ↔ all !! k = None ∧ it.1 ≠ k.
Proof.
  destruct it as [agentId agent]. unfold all_agents_agent_step. cbn [fst].
  destruct (all !! agentId) as [found|] eqn:Hfound;
    (destruct (decide (agentId = k)) as [->|Hne];
     [rewrite lookup_insert_eq | rewrite lookup_insert_ne by exact Hne]);
    (split; [intros H | intros [H1 H2]]);
    first [ discriminate | contradiction | assumption | split; assumption ].
Qed.

Lemma all_agents_agent_loop_lookup l all k :
  foldl all_agents_agent_step all l !! k = None ↔
  all !! k = None ∧ ∀ it, it ∈ l → it.1 ≠ k.
Proof.
  revert all. induction l as [|it l IH]; intros all; cbn [foldl].
  - split; [intros H; split; [exact H|] | intros [H _]; exact H].
    intros it Hin. apply elem_of_nil in Hin. contradiction.
  - rewrite IH, all_agents_agent_step_lookup. split.
    + intros [[Hall Hit] Hl]. split; [exact Hall|].
      intros it' Hin. apply elem_of_cons in Hin as [-> | Hin]; [exact Hit|].
      apply Hl, Hin.
    + intros [Hall Hl]. split; [split; [exact Hall|]|].
      * apply Hl. left.
      * intros it' Hin. apply Hl. right. exact Hin.
Qed.

Lemma all_agents_loop_lookup l all k :
  foldl all_agents_step all l !! k = None ↔
  all !! k = None ∧ ∀ sk, sk ∈ l → HealedSkill.AgentsHealing sk.2 !! k = None.
Proof.
  revert all. induction l as [|sk l IH]; intros all; cbn [foldl].
  - split; [intros H; split; [exact H|] | intros [H _]; exact H].
    intros it Hin. apply elem_of_nil in Hin. contradiction.
  - rewrite IH. unfold all_agents_step. rewrite all_agents_agent_loop_lookup.
    assert (Hsk : (∀ it, it ∈ ordered (HealedSkill.AgentsHealing sk.2) → it.1 ≠ k)
                  ↔ HealedSkill.AgentsHealing sk.2 !! k = None).
    { split.
      - intros H. destruct (HealedSkill.AgentsHealing sk.2 !! k) as [v|] eqn:Hv;
          [|reflexivity].
        apply elem_of_ordered in Hv. specialize (H _ Hv). contradiction.
      - intros H [k' v] Hin Heq. cbn in Heq. subst k'.
        apply elem_of_ordered in Hin. congruence. }
    rewrite Hsk. split.
    + intros [[Hall Hhere] Hl]. split; [exact Hall|].
      intros sk' Hin. apply elem_of_cons in Hin as [-> | Hin]; [exact Hhere|].
      apply Hl, Hin.
    + intros [Hall Hl]. split; [split; [exact Hall|]|].
      * apply Hl. left.
      * intros sk' Hin. apply Hl. right. exact Hin.
Qed.

Lemma build_AllAgents_lookup_None src agentId :
  build_AllAgents src !! agentId = None ↔ never_healed src agentId.
Proof.
  unfold build_AllAgents. rewrite all_agents_loop_lookup. unfold never_healed.
  split.
  - intros [_ H] skillId skill Hskill.
    apply (H (skillId, skill)). apply elem_of_ordered. exact Hskill.
  - intros H. split; [apply lookup_empty|].
    intros [skillId skill] Hin. apply elem_of_ordered in Hin.
    exact (H skillId skill Hin).
Qed.

(** The rows of one agent in an agent-keyed table: at most one. *)
Lemma sum_with_of_agent c (m : gmap Z AgentStats) k :
  sum_with (kept c (of_agent k)) (map_to_list m) = from_option (stat c) 0 (m !! k).
Proof.
  assert (Hzero : ∀ m' : gmap Z AgentStats, m' !! k = None →
            sum_with (kept c (of_agent k)) (map_to_list m') = 0).
  { intros m' Hk. etransitivity; [|apply (sum_with_zero (map_to_list m'))].
    apply sum_with_ext. intros [k' v'] Hin. apply elem_of_map_to_list in Hin.
    rewrite kept_pair. unfold of_agent.
    destruct (Z.eqb_spec k' k) as [->|Hne]; [congruence | reflexivity]. }
  destruct (m !! k) as [v|] eqn:Hk; cbn [from_option].
  - rewrite <- (map_to_list_delete m k v Hk).
    rewrite sum_with_cons, kept_pair. unfold of_agent at 1.
    rewrite Z.eqb_refl. cbn [negb].
    rewrite Hzero by apply lookup_delete_eq. lia.
  - apply Hzero, Hk.
Qed.

(** X10.  The table [GetAllAgents] merges has a row for an agent exactly
    when some skill of the snapshot holds a record for that agent, whether
    or not the agent is mapped or filtered; the row's healing and ticks are,
    as 64-bit values, the sums over all the records of that agent. *)
Theorem GetAllAgents_per_agent src o d history agentId :
  let all := returned GetAllAgents (object_after history src o d) in
  (all !! agentId = None ↔ never_healed src agentId)
  ∧ ∀ c, congr64 (from_option (stat c) 0 (all !! agentId))
                 (raw_sum c (of_agent agentId) any_skill src).
Proof.
  intros all. unfold all. rewrite returned_GetAllAgents. split.
  - apply build_AllAgents_lookup_None.
  - intros c. rewrite <- sum_with_of_agent. apply build_AllAgents_sum.
Qed.

(** ** The rows of the tables *)

Lemma agents_loop_rows src o d l vec :
  Entries (foldl (agents_step src o d) vec l) =
  Entries vec ++ (agent_row src d <$> filter (passes src o) l).
Proof.
  revert vec. induction l as [|[agentId agent] l IH]; intros vec; cbn [foldl].
  - rewrite app_nil_r. reflexivity.
  - rewrite IH. unfold agents_step.
    change (Filter_iterator src o (Agents src !! agentId))
      with (Filter src o agentId).
    rewrite filter_cons.
    destruct (decide (passes src o (agentId, agent))) as [Hp|Hp];
      unfold passes in Hp; cbn [fst] in Hp.
    + rewrite Hp. cbn [Add Entries]. rewrite fmap_cons, <- app_assoc. reflexivity.
    + apply not_false_is_true in Hp. rewrite Hp. reflexivity.
Qed.

Lemma NoDup_keys_ordered {V} (m : gmap Z V) : NoDup (ordered m).*1.
Proof. rewrite ordered_perm. apply NoDup_fst_map_to_list. Qed.



Lemma build_Agents_rows src o d all :
  Entries (build_Agents src o d all) ≡ₚ
  agent_row src d <$> filter (passes src o) (map_to_list all).
Proof.
  unfold build_Agents. cbn [sort_entries Entries]. rewrite Sort_perm.
  rewrite agents_loop_rows. cbn [AggregatedVector_new Entries app].
  rewrite ordered_perm. reflexivity.
Qed.


Lemma build_SkillDetails_rows src o d pSkillId :
  Entries (build_SkillDetails src o d pSkillId) ≡ₚ
  match SkillsHealing src !! pSkillId with
  | Some skill =>
      agent_row src d <$> filter (passes src o) (map_to_list (HealedSkill.AgentsHealing skill))
  | None => []
  end.
Proof.
  unfold build_SkillDetails. destruct (SkillsHealing src !! pSkillId) as [skill|].
  - cbn [sort_entries Entries]. rewrite Sort_perm.
    change (skill_details_step src o d) with (agents_step src o d).
    rewrite agents_loop_rows. cbn [AggregatedVector_new Entries app].
    rewrite ordered_perm. reflexivity.
  - reflexivity.
Qed.


Lemma skills_loop_rows src o d l st :
  Entries (foldl (skills_step src o d) st l).1.1 =
  Entries st.1.1 ++ (skill_row src o d <$> filter (λ sk, listed d sk) l).
Proof.
  revert st. induction l as [|sk l IH]; intros [[vec ih] it]; cbn [foldl].
  - cbn [fst]. rewrite app_nil_r. reflexivity.
  - rewrite IH, skills_step_eq. cbn [fst]. rewrite filter_cons.
    destruct (listed d sk).
    + rewrite decide_True by exact I.
      cbn [Add Entries]. rewrite fmap_cons, <- app_assoc. reflexivity.
    + rewrite decide_False by (intros []). reflexivity.
Qed.

Lemma Entries_addIndirect v a b :
  Entries (addIndirect v a b) =
  Entries v ++
  (if negb (a =? 0) || negb (b =? 0)
   then [mkAggregatedStatsEntry IndirectHealingSkillId "Healing by Damage Dealt" a b None]
   else []).
Proof.
  unfold addIndirect. destruct (negb (a =? 0) || negb (b =? 0)).
  - reflexivity.
  - rewrite app_nil_r. reflexivity.
Qed.

Lemma build_Skills_rows src o d :
  Entries (build_Skills src o d) ≡ₚ
  (skill_row src o d <$> filter (λ sk, listed d sk) (map_to_list (SkillsHealing src)))
  ++ synthetic_rows (Filter src o) src.
Proof.
  unfold build_Skills.
  pose proof (skills_loop_rows src o d (ordered (SkillsHealing src))
                (AggregatedVector_new, 0, 0)) as Hrows.
  destruct (skills_loop src o d (ordered (SkillsHealing src)) AggregatedVector_new 0 0
              eq_refl eq_refl) as (vec' & Hloop & _).
  rewrite Hloop in Hrows |- *. cbn [fst AggregatedVector_new Entries app] in Hrows.
  cbn [sort_entries Entries]. rewrite Sort_perm, Entries_addIndirect, Hrows.
  rewrite !Z.add_0_l, <- !raw_sum_skills.
  rewrite ordered_perm. reflexivity.
Qed.

(** X13.  [GetSkills] has one row for every skill of the snapshot that is
    listed (every skill in debug mode, the skills that are not indirect
    healing otherwise), also for a skill all of whose agents the filter
    rejects, which gets healing 0; the row holds the 64-bit sums over the
    agents the filter keeps.  One further row, Healing by Damage Dealt,
    follows exactly when the 64-bit sum of the indirect healing or of its
    ticks over the kept agents is not 0. *)
Theorem GetSkills_rows src o d history :
  Entries (returned GetSkills (object_after history src o d)) ≡ₚ
  (skill_row src o d <$> filter (λ sk, listed d sk) (map_to_list (SkillsHealing src)))
  ++ synthetic_rows (Filter src o) src.
Proof. rewrite returned_GetSkills. apply build_Skills_rows. Qed.

Lemma filter_key_absent {V} (l : list (Z * V)) k :
  (∀ it, it ∈ l → it.1 ≠ k) → filter (λ it : Z * V, it.1 = k) l = [].
Proof.
  induction l as [|x l IH]; intros H; [reflexivity|].
  rewrite filter_cons, decide_False by (apply H; left).
  apply IH. intros it Hin. apply H. right. exact Hin.
Qed.

Lemma filter_key_ordered {V} (m : gmap Z V) k :
  filter (λ it : Z * V, it.1 = k) (ordered m) = option_list (pair k <$> m !! k).
Proof.
  pose proof (NoDup_keys_ordered m) as Hnd.
  assert (Hiff : ∀ v, (k, v) ∈ ordered m ↔ m !! k = Some v)
    by (intros v; apply elem_of_ordered).
  revert Hnd Hiff. generalize (m !! k) as found. generalize (ordered m) as l.
  induction l as [|[k' v'] l IH]; intros found Hnd Hiff.
  - destruct found as [v|]; [|reflexivity].
    exfalso. eapply not_elem_of_nil. apply Hiff. reflexivity.
  - rewrite fmap_cons in Hnd. apply NoDup_cons in Hnd as [Hk' Hl]. cbn [fst] in Hk'.
    rewrite filter_cons. cbn [fst].
    destruct (decide (k' = k)) as [->|Hne].
    + assert (found = Some v') as -> by (apply Hiff; left).
      rewrite filter_key_absent; [reflexivity|].
      intros it Hin Heq. apply Hk'. apply list_elem_of_fmap.
      exists it. split; [symmetry; exact Heq | exact Hin].
    + apply (IH found Hl). intros v. rewrite <- Hiff. split.
      * intros Hin. right. exact Hin.
      * intros Hin. apply elem_of_cons in Hin as [Heq | Hin]; [|exact Hin].
        inversion Heq. congruence.
Qed.

Lemma agent_details_agent_loop_rows d pAgentId sk l st :
  Entries (foldl (agent_details_agent_step d pAgentId sk.1 sk.2) st l).1.1 =
  Entries st.1.1 ++
  (if listed d sk
   then (λ it : Z * AgentStats,
           mkAggregatedStatsEntry sk.1 (skillName d sk.1 sk.2 (indirect_skill sk))
             (TotalHealing it.2) (Ticks it.2) None)
        <$> filter (λ it : Z * AgentStats, it.1 = pAgentId) l
   else []).
Proof.
  revert st. induction l as [|[agentId agent] l IH]; intros [[vec ih] it]; cbn [foldl].
  - cbn [fst]. destruct (listed d sk); rewrite ?filter_nil, ?fmap_nil, app_nil_r;
      reflexivity.
  - rewrite IH. unfold agent_details_agent_step. rewrite filter_cons. cbn [fst].
    unfold listed, indirect_skill.
    destruct (Z.eqb_spec agentId pAgentId) as [->|Hne]; cbn [negb].
    + rewrite decide_True by reflexivity.
      destruct (IsSkillIndirectHealing sk.1 (HealedSkill.Name sk.2)), d;
        cbn [negb orb fst Add Entries];
        rewrite ?fmap_cons, <- ?app_assoc; reflexivity.
    + rewrite decide_False by exact Hne. reflexivity.
Qed.

Lemma agent_details_loop_rows d pAgentId l st :
  Entries (foldl (agent_details_step d pAgentId) st l).1.1 =
  Entries st.1.1 ++ omap (detail_row d pAgentId) l.
Proof.
  revert st. induction l as [|[skillId skill] l IH]; intros st; cbn [foldl].
  - rewrite app_nil_r. reflexivity.
  - rewrite IH. unfold agent_details_step.
    rewrite (agent_details_agent_loop_rows d pAgentId (skillId, skill)).
    rewrite filter_key_ordered, <- app_assoc. f_equal.
    cbn [omap list_omap]. unfold detail_row at 2. cbn [fst snd].
    destruct (listed d (skillId, skill));
      destruct (HealedSkill.AgentsHealing skill !! pAgentId); reflexivity.
Qed.

Lemma build_AgentDetails_rows src o d pAgentId :
  Entries (build_AgentDetails src o d pAgentId) ≡ₚ
  omap (detail_row d pAgentId) (map_to_list (SkillsHealing src))
  ++ synthetic_rows (of_agent pAgentId) src.
Proof.
  unfold build_AgentDetails.
  pose proof (agent_details_loop_rows d pAgentId (ordered (SkillsHealing src))
                (AggregatedVector_new, 0, 0)) as Hrows.
  destruct (agent_details_loop healing d pAgentId (ordered (SkillsHealing src))
              AggregatedVector_new 0 0 eq_refl eq_refl) as (vec' & Hloop & _).
  rewrite Hloop in Hrows |- *. cbn [fst AggregatedVector_new Entries app] in Hrows.
  cbn [sort_entries Entries]. rewrite Sort_perm, Entries_addIndirect, Hrows.
  rewrite !Z.add_0_l, <- !raw_sum_skills.
  rewrite ordered_perm. reflexivity.
Qed.

(** X14.  [GetAgentDetails] of an agent has one row for every listed skill
    that holds a record for the agent, with the healing and ticks of that
    record and the name [GetSkills] gives the skill, and the row Healing by
    Damage Dealt exactly when the agent's 64-bit indirect sums are not both
    0.  The filter is not asked: an agent the filter rejects, mapped or
    not, is detailed like any other. *)
Theorem GetAgentDetails_rows src o d history pAgentId :
  Entries (returned (GetAgentDetails pAgentId) (object_after history src o d)) ≡ₚ
  omap (detail_row d pAgentId) (map_to_list (SkillsHealing src))
  ++ synthetic_rows (of_agent pAgentId) src.
Proof. rewrite returned_GetAgentDetails. apply build_AgentDetails_rows. Qed.

(** ** Drilling down *)

Lemma raw_sum_never_healed c only src pAgentId :
  never_healed src pAgentId → raw_sum c (of_agent pAgentId) only src = 0.
Proof.
  intros Hnever. rewrite raw_sum_skills.
  etransitivity; [|apply (sum_with_zero (ordered (SkillsHealing src)))].
  apply sum_with_ext. intros [skillId skill] Hsk. apply elem_of_ordered in Hsk.
  destruct (only (skillId, skill)); [|reflexivity].
  rewrite skill_sum_kept. cbn [snd].
  etransitivity;
    [|apply (sum_with_zero (ordered (HealedSkill.AgentsHealing skill)))].
  apply sum_with_ext. intros [agentId agent] Hag. apply elem_of_ordered in Hag.
  rewrite kept_pair. unfold of_agent.
  destruct (Z.eqb_spec agentId pAgentId) as [->|Hne]; [|reflexivity].
  rewrite (Hnever skillId skill Hsk) in Hag. discriminate.
Qed.

Lemma omap_all_None {A B} (f : A → option B) l :
  (∀ x, x ∈ l → f x = None) → omap f l = [].
Proof.
  induction l as [|x l IH]; intros H; [reflexivity|].
  cbn [omap list_omap]. rewrite (H x) by left.
  apply IH. intros y Hy. apply H. right. exact Hy.
Qed.

(** X15.  The details of an agent no skill holds a record for are an empty
    table, in debug mode and out of it, whether or not the agent is in the
    agent map: no row and [HighestHealing] 0. *)
Theorem GetAgentDetails_never_healed src o d history pAgentId :
  never_healed src pAgentId →
  let details := returned (GetAgentDetails pAgentId) (object_after history src o d) in
  Entries details = [] ∧ HighestHealing details = 0.
Proof.
  intros Hnever details.
  assert (Hnil : Entries details = []).
  { apply Permutation_nil_r. unfold details. rewrite returned_GetAgentDetails, build_AgentDetails_rows.
    rewrite omap_all_None.
    - unfold synthetic_rows. rewrite !raw_sum_never_healed by exact Hnever.
      reflexivity.
    - intros [skillId skill] Hin. apply elem_of_map_to_list in Hin.
      unfold detail_row. cbn [fst snd]. rewrite (Hnever skillId skill Hin).
      destruct (listed d (skillId, skill)); reflexivity. }
  split; [exact Hnil|].
  pose proof (highest_ok_build_AgentDetails src o d pAgentId) as Hhigh.
  rewrite <- (returned_GetAgentDetails history) in Hhigh. fold details in Hhigh.
  destruct Hhigh as (_ & [H0 | (entry & Hin & _)]); [exact H0|].
  rewrite Hnil in Hin. apply elem_of_nil in Hin. contradiction.
Qed.

(** X16.  The rows of the details of a skill add up, in 64 bits, to the
    healing and the ticks of the row [GetSkills] makes for that skill; for
    an id that is no skill of the snapshot they add up to 0. *)
Theorem GetSkillDetails_adds_up_to_skill_row src o d history pSkillId c :
  column_sum64 c
    (Entries (returned (GetSkillDetails pSkillId) (object_after history src o d))) =
  match SkillsHealing src !! pSkillId with
  | Some skill => cell c (skill_row src o d (pSkillId, skill))
  | None => 0
  end.
Proof.
  rewrite returned_GetSkillDetails, column_sum64_spec, build_SkillDetails_entries.
  destruct (SkillsHealing src !! pSkillId) as [skill|]; [|reflexivity].
  destruct c; reflexivity.
Qed.

(** X17.  The rows of the details of an agent add up, in 64 bits, to the
    row of that agent in the merged table of [GetAllAgents] (to 0 when it
    has none); in debug mode the agent's indirect healing is added once
    more, being listed under its skills and in the synthetic row. *)
Theorem GetAgentDetails_adds_up_to_agent_row src o d history pAgentId c :
  let this := object_after history src o d in
  column_sum64 c (Entries (returned (GetAgentDetails pAgentId) this)) =
  (from_option (stat c) 0 (returned GetAllAgents this !! pAgentId)
   + if d then raw_sum c (of_agent pAgentId) indirect_skill src else 0) mod two64.
Proof.
  intros this. unfold this.
  rewrite returned_GetAgentDetails, returned_GetAllAgents, column_sum64_AgentDetails.
  rewrite <- sum_with_of_agent.
  pose proof (build_AllAgents_sum c (of_agent pAgentId) src) as Hsum.
  unfold congr64 in Hsum.
  rewrite Z.add_mod by discriminate. rewrite <- Hsum.
  rewrite <- Z.add_mod by discriminate. reflexivity.
Qed.

(** ** The sort order and the other choices change no amount *)

Lemma Filter_same_switches src o o' agentId :
  same_switches o o' → Filter src o agentId = Filter src o' agentId.
Proof.
  intros Hsame. unfold Filter. apply FilterInternal_ext.
  - exact (Hsame FlagGroup).
  - exact (Hsame FlagOffGroup).
  - exact (Hsame FlagOffSquad).
  - exact (Hsame FlagMinions).
  - exact (Hsame FlagUnmapped).
Qed.

Lemma filter_passes_same_switches src o o' (l : list (Z * AgentStats)) :
  same_switches o o' → filter (passes src o) l = filter (passes src o') l.
Proof.
  intros Hsame. apply list_filter_iff. intros it. unfold passes.
  rewrite (Filter_same_switches src o o' it.1 Hsame). reflexivity.
Qed.

Lemma skill_row_same_switches src o o' d sk :
  same_switches o o' → skill_row src o d sk = skill_row src o' d sk.
Proof.
  intros Hsame. unfold skill_row.
  assert (Hsum : ∀ c, skill_sum c (Filter src o) sk = skill_sum c (Filter src o') sk).
  { intros c. unfold skill_sum. apply sum_with_ext. intros it _.
    rewrite (Filter_same_switches src o o' it.1 Hsame). reflexivity. }
  rewrite !Hsum. reflexivity.
Qed.

Lemma raw_sum_same_switches c only src o o' :
  same_switches o o' →
  raw_sum c (Filter src o) only src = raw_sum c (Filter src o') only src.
Proof.
  intros Hsame. unfold raw_sum. apply sum_with_ext. intros r _.
  unfold contribution. rewrite (Filter_same_switches src o o' r.2.1 Hsame).
  reflexivity.
Qed.

Lemma build_Total_eq skills :
  build_Total skills =
  mkAggregatedStatsEntry 0 "__TOTAL__" (column_sum64 healing (Entries skills))
                         (column_sum64 hits (Entries skills)) None.
Proof.
  unfold build_Total, column_sum64.
  destruct (foldl total_step (0, 0) (Entries skills)). reflexivity.
Qed.

(** X18.  Two configurations that agree on the five switches of the filter,
    whatever their sort order, data source and end-of-combat condition,
    give the same rows in another order in [GetAgents], [GetSkills] and
    every [GetSkillDetails], and the same [GetTotal]. *)
Theorem same_switches_same_rows src o o' d history history' :
  same_switches o o' →
  let this := object_after history src o d in
  let this' := object_after history' src o' d in
  Entries (returned GetAgents this) ≡ₚ Entries (returned GetAgents this')
  ∧ Entries (returned GetSkills this) ≡ₚ Entries (returned GetSkills this')
  ∧ (∀ pSkillId,
       Entries (returned (GetSkillDetails pSkillId) this)
       ≡ₚ Entries (returned (GetSkillDetails pSkillId) this'))
  ∧ returned GetTotal this = returned GetTotal this'.
Proof.
  intros Hsame this this'. unfold this, this'.
  assert (Hskills : Entries (build_Skills src o d) ≡ₚ Entries (build_Skills src o' d)).
  { rewrite !build_Skills_rows. unfold synthetic_rows.
    rewrite !(raw_sum_same_switches _ _ src o o' Hsame).
    apply Permutation_app; [|reflexivity].
    erewrite list_fmap_ext; [reflexivity|].
    intros i sk _. apply skill_row_same_switches, Hsame. }
  rewrite !returned_GetAgents, !returned_GetSkills, !returned_GetTotal.
  split; [|split; [|split]].
  - rewrite !build_Agents_rows, (filter_passes_same_switches src o o' _ Hsame).
    reflexivity.
  - exact Hskills.
  - intros pSkillId. rewrite !returned_GetSkillDetails, !build_SkillDetails_rows.
    destruct (SkillsHealing src !! pSkillId) as [skill|]; [|reflexivity].
    rewrite (filter_passes_same_switches src o o' _ Hsame). reflexivity.
  - rewrite !build_Total_eq, !column_sum64_spec, Hskills. reflexivity.
Qed.

(** ** The empty snapshot *)

Lemma ordered_empty {V} (m : gmap Z V) : m = ∅ → ordered m = [].
Proof.
  intros ->. apply Permutation_nil_r. rewrite ordered_perm, map_to_list_empty.
  reflexivity.
Qed.

Lemma raw_sum_empty c excluded only src :
  SkillsHealing src = ∅ → raw_sum c excluded only src = 0.
Proof.
  intros Hempty. rewrite raw_sum_skills, (ordered_empty _ Hempty). reflexivity.
Qed.

(** X19.  On a snapshot without any skill, every listing view is an empty
    table, the merged table of the agents is empty, [GetTotal] is 0 healing
    in 0 hits, and [GetGroupFilterTotals] still has its four entries, all
    0, with [HighestHealing] 0; the agent map and the options play no
    part. *)
Theorem empty_snapshot src o d history :
  SkillsHealing src = ∅ →
  let this := object_after history src o d in
  Entries (returned GetSkills this) = []
  ∧ Entries (returned GetAgents this) = []
  ∧ (∀ pAgentId, Entries (returned (GetAgentDetails pAgentId) this) = [])
  ∧ (∀ pSkillId, Entries (returned (GetSkillDetails pSkillId) this) = [])
  ∧ returned GetAllAgents this = ∅
  ∧ returned GetTotal this = mkAggregatedStatsEntry 0 "__TOTAL__" 0 0 None
  ∧ returned GetGroupFilterTotals this =
      {| Entries :=
           [mkAggregatedStatsEntry 0 "Group" 0 0 None;
            mkAggregatedStatsEntry 0 "Squad" 0 0 None;
            mkAggregatedStatsEntry 0 "All (Excluding Summons)" 0 0 None;
            mkAggregatedStatsEntry 0 "All (Including Summons)" 0 0 None];
         HighestHealing := 0 |}.
Proof.
  intros Hempty this. unfold this.
  assert (Hskills : Entries (build_Skills src o d) = []).
  { apply Permutation_nil_r. rewrite build_Skills_rows, Hempty, map_to_list_empty.
    unfold synthetic_rows. rewrite !raw_sum_empty by exact Hempty. reflexivity. }
  assert (Hall : build_AllAgents src = ∅).
  { unfold build_AllAgents. rewrite (ordered_empty _ Hempty). reflexivity. }
  rewrite returned_GetSkills, returned_GetAgents, returned_GetAllAgents,
    returned_GetTotal, returned_GetGroupFilterTotals.
  split; [exact Hskills|].
  split.
  { apply Permutation_nil_r. rewrite build_Agents_rows, Hall, map_to_list_empty.
    reflexivity. }
  split.
  { intros pAgentId. apply Permutation_nil_r.
    rewrite returned_GetAgentDetails, build_AgentDetails_rows, Hempty, map_to_list_empty.
    unfold synthetic_rows. rewrite !raw_sum_empty by exact Hempty. reflexivity. }
  split.
  { intros pSkillId. rewrite returned_GetSkillDetails. unfold build_SkillDetails.
    rewrite Hempty, lookup_empty. reflexivity. }
  split; [exact Hall|].
  split.
  { rewrite build_Total_eq, !column_sum64_spec, Hskills. reflexivity. }
  pose proof (build_GroupFilterTotals_entries src) as Hentries.
  unfold group_entry in Hentries. rewrite !raw_sum_empty in Hentries by exact Hempty.
  change (0 mod two64) with 0 in Hentries.
  unfold build_GroupFilterTotals in *.
  destruct (foldl (group_filter_agent_step src) _ (ordered (build_AllAgents src)))
    as [entries fakeOptions].
  cbn [Entries] in Hentries. subst entries. reflexivity.
Qed.

(** ** Sums that fit *)

(** X20.  When no 64-bit sum over the snapshot wraps around, the row of an
    agent in the merged table of [GetAllAgents] holds exactly the sum of the
    healing, and of the ticks, of all the records of that agent. *)
Theorem GetAllAgents_exact src o d history agentId c :
  sums_fit 1 src →
  from_option (stat c) 0
    (returned GetAllAgents (object_after history src o d) !! agentId)
  = raw_sum c (of_agent agentId) any_skill src.
Proof.
  intros Hfit. rewrite returned_GetAllAgents, <- sum_with_of_agent.
  apply build_AllAgents_exact, Hfit.
Qed.

(** ** Names in debug mode *)

Lemma length_substring_le n s : (String.length (String.substring 0 n s) ≤ n)%nat.
Proof.
  revert s. induction n as [|n IH]; intros [|a s]; cbn; try lia.
  specialize (IH s). lia.
Qed.

Lemma length_snprintf1024 s : (String.length (snprintf1024 s) ≤ 1023)%nat.
Proof. apply length_substring_le. Qed.

Lemma length_agentName_debug agentId mapAgent :
  (String.length (agentName true agentId mapAgent) ≤ 1023)%nat.
Proof.
  unfold agentName. cbn [negb]. destruct mapAgent; apply length_snprintf1024.
Qed.

Lemma length_skillName_debug skillId skill isIndirect :
  (String.length (skillName true skillId skill isIndirect) ≤ 1023)%nat.
Proof. unfold skillName. cbn [negb]. apply length_snprintf1024. Qed.

Lemma length_synthetic_rows excluded src entry :
  entry ∈ synthetic_rows excluded src → (String.length (Name entry) ≤ 1023)%nat.
Proof.
  unfold synthetic_rows. destruct (_ || _); intros Hin.
  - apply list_elem_of_singleton in Hin. subst entry. cbn. lia.
  - apply elem_of_nil in Hin. contradiction.
Qed.

Lemma names_fit_perm (l l' : list AggregatedStatsEntry) :
  l ≡ₚ l' →
  Forall (λ entry, (String.length (Name entry) ≤ 1023)%nat) l' →
  Forall (λ entry, (String.length (Name entry) ≤ 1023)%nat) l.
Proof. intros Hperm H. rewrite Hperm. exact H. Qed.

(** X21.  In debug mode no name in any listing table is longer than the
    1023 characters the formatting buffer holds: a longer agent or skill
    name is cut off. *)
Theorem debug_names_fit_buffer src o history :
  let this := object_after history src o true in
  let fit v := Forall (λ entry, (String.length (Name entry) ≤ 1023)%nat) (Entries v) in
  fit (returned GetAgents this)
  ∧ fit (returned GetSkills this)
  ∧ (∀ pAgentId, fit (returned (GetAgentDetails pAgentId) this))
  ∧ (∀ pSkillId, fit (returned (GetSkillDetails pSkillId) this)).
Proof.
  intros this fit. unfold this, fit.
  rewrite returned_GetAgents, returned_GetSkills.
  split; [|split; [|split]].
  - eapply names_fit_perm; [apply build_Agents_rows|].
    apply Forall_fmap, Forall_forall. intros it _. apply length_agentName_debug.
  - eapply names_fit_perm; [apply build_Skills_rows|].
    apply Forall_app. split.
    + apply Forall_fmap, Forall_forall. intros sk _. apply length_skillName_debug.
    + apply Forall_forall. apply length_synthetic_rows.
  - intros pAgentId. rewrite returned_GetAgentDetails.
    eapply names_fit_perm; [apply build_AgentDetails_rows|].
    apply Forall_app. split.
    + apply Forall_forall. intros entry Hin.
      apply list_elem_of_omap in Hin as (sk & _ & Hrow).
      unfold detail_row in Hrow. destruct (listed true sk); [|discriminate].
      destruct (HealedSkill.AgentsHealing sk.2 !! pAgentId); [|discriminate].
      cbn in Hrow. injection Hrow as <-. apply length_skillName_debug.
    + apply Forall_forall. apply length_synthetic_rows.
  - intros pSkillId. rewrite returned_GetSkillDetails.
    eapply names_fit_perm; [apply build_SkillDetails_rows|].
    destruct (SkillsHealing src !! pSkillId) as [skill|]; [|constructor].
    apply Forall_fmap, Forall_forall. intros it _. apply length_agentName_debug.
Qed.
End Engine.

(** * The engine on the concrete snapshots *)

Import Scenario.

Abbreviation object_after' := (object_after classify synthetic_id no_options).
Abbreviation GetSkills' := (GetSkills classify synthetic_id).
Abbreviation GetTotal' := (GetTotal classify synthetic_id).
Abbreviation GetAgentDetails' := (GetAgentDetails classify synthetic_id).
Abbreviation GetDetails' := (GetDetails classify synthetic_id).
Abbreviation GetGroupFilterTotals' := (GetGroupFilterTotals no_options).

(** The ungrouped encounter has the direct skill S1 only. *)
Lemma no_indirect_ungrouped : no_indirect classify ungrouped.
Proof.
  intros skillId skill. cbn [ungrouped SkillsHealing].
  rewrite lookup_insert_Some, lookup_empty.
  intros [[<- <-] | [_ [=]]]. reflexivity.
Qed.

(** The amounts of the scenario are far from [two64]. *)
Lemma sums_fit_snapshot : sums_fit 1 snapshot.
Proof. repeat split; vm_compute; reflexivity. Qed.

(** The tables of the scenario, debug mode off: one entry for agent A, and
    one entry for S1 beside the synthetic entry. *)
Example scenario_GetAgents :
  Entries (returned GetAgents (engine false))
  = [mkAggregatedStatsEntry 1 "A" 150 15 None].
Proof. vm_compute. reflexivity. Qed.

Example scenario_GetSkills :
  Entries (returned GetSkills' (engine false))
  = [mkAggregatedStatsEntry 100 "S1" 100 10 None;
     mkAggregatedStatsEntry synthetic_id "Healing by Damage Dealt" 50 5 None].
Proof. vm_compute. reflexivity. Qed.

(** On the scenario, debug mode off, the healing and the hits of [GetSkills],
    [GetAgents] and [GetTotal] agree. *)
Lemma conservation_across_groupings_witness :
  let this := object_after' [CallGetAgents] snapshot options false in
  sums_fit 1 snapshot
  ∧ ∀ c, column_sum c (Entries (returned GetSkills' this))
         = column_sum c (Entries (returned GetAgents this))
         ∧ column_sum c (Entries (returned GetAgents this))
           = cell c (returned GetTotal' this).
Proof.
  intros this. split; [exact sums_fit_snapshot|].
  destruct (conservation_across_groupings classify synthetic_id no_options
              snapshot options false [CallGetAgents]) as (_ & _ & H).
  destruct (H (or_introl eq_refl)) as (_ & Hplain).
  exact (Hplain sums_fit_snapshot).
Defined.

(** In debug mode the indirect skill S2 is listed under its own name and in
    the synthetic entry: the healing of [GetSkills] adds up to 200, that of
    [GetAgents] to 150. *)
Lemma conservation_fails_in_debug_mode :
  column_sum healing (Entries (returned GetSkills' (engine true)))
  ≠ column_sum healing (Entries (returned GetAgents (engine true)))
  ∧ column_sum64 healing (Entries (returned GetSkills' (engine true)))
    ≠ column_sum64 healing (Entries (returned GetAgents (engine true))).
Proof. split; vm_compute; discriminate. Qed.

(** C2.  Asked for the details of skill S1 (id 100) with the data source
    [Skills], [GetDetails] returns the table of [GetAgentDetails 100], which
    is empty since no agent has id 100; the per-skill breakdown, which
    [GetSkillDetails 100] computes, has the entry of agent A. *)
Theorem GetDetails_Skills_returns_agent_details :
  returned (GetDetails' DataSource.Skills 100) (engine false)
  = returned (GetAgentDetails' 100) (engine false)
  ∧ Entries (returned (GetDetails' DataSource.Skills 100) (engine false)) = []
  ∧ Entries (returned (GetSkillDetails 100) (engine false))
    = [mkAggregatedStatsEntry 1 "A" 100 10 None].
Proof. vm_compute. auto. Qed.

(** Without an indirect skill the total is the same in both modes. *)
Lemma debug_mode_noninterference_witness :
  no_indirect classify ungrouped
  ∧ ∀ c, cell c (returned GetTotal' (object_after' [CallGetTotal] ungrouped options true))
         = cell c (returned GetTotal' (object_after' [] ungrouped options false)).
Proof.
  split; [apply no_indirect_ungrouped|].
  apply (debug_mode_noninterference classify synthetic_id no_options
           ungrouped options [CallGetTotal] []), no_indirect_ungrouped.
Defined.

(** With the indirect skill S2 in the snapshot, [GetTotal] holds healing 200
    in debug mode and 150 otherwise. *)
Lemma debug_mode_changes_total :
  Healing (returned GetTotal' (engine true))
  ≠ Healing (returned GetTotal' (engine false)).
Proof. vm_compute. discriminate. Qed.

(** With every switch off the agent of the ungrouped encounter is kept. *)
Lemma ungrouped_agent_follows_ExcludeGroup_witness :
  Agents ungrouped !! 1 = Some loner
  ∧ HealedAgent.IsMinion loner = false
  ∧ HealedAgent.Subgroup loner = 0
  ∧ SubGroup ungrouped = 0
  ∧ Filter ungrouped no_options 1 = false.
Proof.
  repeat (split; [reflexivity|]).
  apply (ungrouped_agent_follows_ExcludeGroup ungrouped no_options 1 loner);
    reflexivity.
Defined.

(** With [ExcludeGroup] set, the agent of subgroup 0 is excluded although
    the local subgroup is 0 too. *)
Lemma ungrouped_agent_excluded_by_ExcludeGroup :
  Agents ungrouped !! 1 = Some loner
  ∧ Filter ungrouped (with_flag FlagGroup no_options) 1 = true.
Proof. split; reflexivity. Qed.

(** The totals of the scenario are in order. *)
Lemma group_filter_totals_ordered_witness :
  sums_fit 1 snapshot
  ∧ ∃ group squad all_but_summons all,
      Entries (returned GetGroupFilterTotals'
                 (object_after' [CallGetSkills] snapshot options false))
      = [group; squad; all_but_summons; all]
      ∧ Name group = "Group"%string ∧ Name squad = "Squad"%string
      ∧ Name all_but_summons = "All (Excluding Summons)"%string
      ∧ Name all = "All (Including Summons)"%string
      ∧ ∀ c, cell c group ≤ cell c squad
             ∧ cell c squad ≤ cell c all_but_summons
             ∧ cell c all_but_summons ≤ cell c all.
Proof.
  split; [exact sums_fit_snapshot|].
  apply (group_filter_totals_ordered classify synthetic_id no_options
           snapshot options false [CallGetSkills] sums_fit_snapshot).
Defined.

(** When the healing of the squad adds up to [two64], the total of Squad
    wraps around to 0 and is below the total of Group. *)
Lemma group_filter_totals_wrap_around :
  Healing <$> Entries (returned GetGroupFilterTotals' engine_huge)
  = [2 ^ 63; 0; 0; 0].
Proof. vm_compute. reflexivity. Qed.

(** The healing of the four totals of the scenario. *)
Lemma scenario_group_filter_totals_witness :
  Healing <$> Entries (returned GetGroupFilterTotals'
                         (object_after' [CallGetTotal] snapshot options false))
  = [150; 180; 180; 180].
Proof.
  pose proof (scenario_group_filter_totals classify synthetic_id no_options
                options false [CallGetTotal]) as H.
  apply (f_equal (fmap (λ x : string * Z * Z, x.1.2))) in H.
  rewrite <- list_fmap_compose in H. exact H.
Defined.

(** The healing of the four totals is not 150, 180, 185, 185: the 5 of the
    unmapped agent C is missing from both All totals. *)
Lemma scenario_all_totals_are_not_185 :
  Healing <$> Entries (returned GetGroupFilterTotals' (engine false))
  ≠ [150; 180; 185; 185].
Proof. vm_compute. discriminate. Qed.

(** Excluding the agents of other groups does not raise the total of the
    scenario. *)
Lemma filter_monotonicity_witness :
  sums_fit (copies_of false) snapshot
  ∧ Healing (returned GetTotal'
               (object_after' [] snapshot (with_flag FlagOffGroup no_options) false))
    ≤ Healing (returned GetTotal' (object_after' [] snapshot no_options false)).
Proof.
  split; [exact sums_fit_snapshot|].
  apply (proj2 (filter_monotonicity classify synthetic_id no_options
                  snapshot no_options false FlagOffGroup [] [])
               sums_fit_snapshot healing).
Defined.

(** With every switch off the healing of A and B adds up to [two64] and the
    total wraps around to 0, as does the one entry of [GetSkills]; turning
    [ExcludeOffGroup] on drops B and raises both to [2 ^ 63]. *)
Lemma excluding_raises_wrapped_total :
  Healing (returned GetTotal' engine_huge)
  < Healing (returned GetTotal'
               (AggregatedStats_new huge (with_flag FlagOffGroup no_options) false))
  ∧ column_sum healing (Entries (returned GetSkills' engine_huge))
    < column_sum healing
        (Entries (returned GetSkills'
           (AggregatedStats_new huge (with_flag FlagOffGroup no_options) false))).
Proof. split; vm_compute; reflexivity. Qed.

(** The combat of the scenario ends at the exit time and lasts 4.5 seconds
    ([9437184 * 2 ^ -21]), the quotient of 4500 by 1000. *)
Lemma combat_time_from_end_witness :
  snapshot_invariant snapshot
  ∧ combat_end snapshot options = 5500
  ∧ GetCombatTime snapshot options = Some (S754_finite false 9437184 (-21))
  ∧ within_half_ulp (S754_finite false 9437184 (-21)) (5500 - 1000) 1000.
Proof.
  assert (Hinv : snapshot_invariant snapshot).
  { unfold snapshot_invariant. cbn. lia. }
  split; [exact Hinv|].
  destruct (combat_time_from_end snapshot options Hinv)
    as (Hend & _ & seconds & Htime & Hvalue & Hnear).
  split; [rewrite Hend; reflexivity|].
  assert (Hseconds : seconds = S754_finite false 9437184 (-21))
    by (rewrite Hvalue; reflexivity).
  rewrite Hseconds in Htime, Hnear.
  split; [exact Htime|]. apply Hnear. reflexivity.
Defined.

(** Past [2 ^ 24] milliseconds the timestamps are rounded before they are
    subtracted.  A combat entered at 16777217 and left at 16777219 lasted
    0.002 seconds ([8589935 * 2 ^ -32]) and [GetCombatTime] returns 0.004
    ([8589935 * 2 ^ -31]); a combat of 31 milliseconds entered at 864000000
    is given 0 seconds. *)
Lemma combat_time_rounds_the_timestamps :
  let at_ entered exited :=
    {| Agents := ∅; SkillsHealing := ∅; SubGroup := 1;
       EnteredCombatTime := entered; ExitedCombatTime := exited;
       LastHealEvent := 0; LastDamageEvent := 0 |} in
  (snapshot_invariant (at_ 16777217 16777219)
   ∧ combat_end (at_ 16777217 16777219) options = 16777219
   ∧ GetCombatTime (at_ 16777217 16777219) options
     = Some (S754_finite false 8589935 (-31))
   ∧ ¬ within_half_ulp (S754_finite false 8589935 (-31)) (16777219 - 16777217) 1000
   ∧ within_half_ulp (S754_finite false 8589935 (-32)) (16777219 - 16777217) 1000)
  ∧ (snapshot_invariant (at_ 864000000 864000031)
     ∧ combat_end (at_ 864000000 864000031) options = 864000031
     ∧ GetCombatTime (at_ 864000000 864000031) options = Some (S754_zero false)
     ∧ ¬ within_half_ulp (S754_zero false) (864000031 - 864000000) 1000).
Proof.
  intros at_. split.
  - split; [unfold snapshot_invariant; cbn; lia|].
    split; [reflexivity|]. split; [reflexivity|]. split.
    + cbn. intros (_ & _ & H). vm_compute in H. apply H. reflexivity.
    + cbn. split; [reflexivity|]. split; [lia|]. vm_compute. discriminate.
  - split; [unfold snapshot_invariant; cbn; lia|].
    split; [reflexivity|]. split; [reflexivity|].
    cbn. discriminate.
Qed.

(** The synthetic id is no skill of the scenario: its table is empty, also
    when asked for a second time. *)
Lemma GetSkillDetails_unknown_id_witness :
  SkillsHealing snapshot !! synthetic_id = None
  ∧ Entries (returned (GetSkillDetails synthetic_id)
               (object_after' [CallGetSkillDetails synthetic_id]
                              snapshot options false)) = [].
Proof.
  split; [reflexivity|].
  apply (GetSkillDetails_unknown_id classify synthetic_id no_options
           snapshot options false [CallGetSkillDetails synthetic_id]
           synthetic_id eq_refl).
Defined.

(** The total of the scenario has no cast count. *)
Lemma casts_always_absent_witness :
  Casts (returned GetTotal' (object_after' [CallGetStats DataSource.Totals]
                                           snapshot options false)) = None.
Proof.
  apply (casts_always_absent classify synthetic_id no_options
           snapshot options false [CallGetStats DataSource.Totals]).
Defined.

(** ** Instances of the further properties *)

(** Agent C of the scenario, missing from the agent map, with no switch set
    and with all five set. *)
Lemma Filter_extremes_witness :
  let every_switch :=
    {| SortOrderChoice := SortOrder.DescendingSize;
       DataSourceChoice := DataSource.Agents;
       CombatEndConditionChoice := CombatEndCondition.CombatExit;
       ExcludeGroup := true; ExcludeOffGroup := true;
       ExcludeOffSquad := true; ExcludeMinions := true;
       ExcludeUnmapped := true |} in
  (∀ f, flag_of f no_options = false)
  ∧ (∀ f, flag_of f every_switch = true)
  ∧ Filter snapshot no_options 3 = false
  ∧ Filter snapshot every_switch 3 = true.
Proof.
  intros every_switch.
  assert (Hoff : ∀ f, flag_of f no_options = false) by (intros []; reflexivity).
  assert (Hon : ∀ f, flag_of f every_switch = true) by (intros []; reflexivity).
  split; [exact Hoff|]. split; [exact Hon|]. split.
  - exact (proj1 (Filter_extremes snapshot no_options 3) Hoff).
  - exact (proj2 (Filter_extremes snapshot every_switch 3) Hon).
Defined.

(** No skill of the scenario holds a record for agent 7. *)
Lemma GetAgentDetails_never_healed_witness :
  never_healed snapshot 7
  ∧ let details := returned (GetAgentDetails' 7)
                     (object_after' [CallGetSkills] snapshot options true) in
    Entries details = [] ∧ HighestHealing details = 0.
Proof.
  assert (Hnever : never_healed snapshot 7).
  { intros skillId skill. cbn [snapshot SkillsHealing].
    rewrite !lookup_insert_Some, lookup_empty.
    intros [[_ <-] | [_ [[_ <-] | [_ [=]]]]]; reflexivity. }
  split; [exact Hnever|].
  exact (GetAgentDetails_never_healed classify synthetic_id no_options
           snapshot options true [CallGetSkills] 7 Hnever).
Defined.

(** The scenario sorted by name and sorted by size has the same rows. *)
Lemma same_switches_same_rows_witness :
  let by_name :=
    {| SortOrderChoice := SortOrder.AscendingAlphabetical;
       DataSourceChoice := DataSource.Totals;
       CombatEndConditionChoice := CombatEndCondition.LastHealEvent;
       ExcludeGroup := false; ExcludeOffGroup := true;
       ExcludeOffSquad := false; ExcludeMinions := false;
       ExcludeUnmapped := true |} in
  let this := object_after' [CallGetTotal] snapshot options false in
  let this' := object_after' [] snapshot by_name false in
  same_switches options by_name
  ∧ Entries (returned GetAgents this) ≡ₚ Entries (returned GetAgents this')
  ∧ Entries (returned GetSkills' this) ≡ₚ Entries (returned GetSkills' this')
  ∧ (∀ pSkillId,
       Entries (returned (GetSkillDetails pSkillId) this)
       ≡ₚ Entries (returned (GetSkillDetails pSkillId) this'))
  ∧ returned GetTotal' this = returned GetTotal' this'.
Proof.
  intros by_name this this'.
  assert (Hsame : same_switches options by_name) by (intros []; reflexivity).
  split; [exact Hsame|].
  exact (same_switches_same_rows classify synthetic_id no_options
           snapshot options by_name false [CallGetTotal] [] Hsame).
Defined.

(** The agents of the scenario before any heal is recorded. *)
Lemma empty_snapshot_witness :
  let idle :=
    {| Agents := Agents snapshot; SkillsHealing := ∅; SubGroup := 1;
       EnteredCombatTime := 1000; ExitedCombatTime := 0;
       LastHealEvent := 0; LastDamageEvent := 0 |} in
  let this := object_after' [CallGetAgents] idle options true in
  SkillsHealing idle = ∅
  ∧ Entries (returned GetSkills' this) = []
  ∧ Entries (returned GetAgents this) = []
  ∧ returned GetTotal' this = mkAggregatedStatsEntry 0 "__TOTAL__" 0 0 None.
Proof.
  intros idle this. split; [reflexivity|].
  destruct (empty_snapshot classify synthetic_id no_options idle options true
              [CallGetAgents] eq_refl) as (Hskills & Hagents & _ & _ & _ & Htotal & _).
  split; [exact Hskills|]. split; [exact Hagents | exact Htotal].
Defined.

(** Agent A of the scenario healed 100 by S1 and 50 by S2. *)
Lemma GetAllAgents_exact_witness :
  sums_fit 1 snapshot
  ∧ from_option (stat healing) 0
      (returned GetAllAgents (object_after' [] snapshot options false) !! 1)
    = raw_sum healing (of_agent 1) any_skill snapshot.
Proof.
  split; [exact sums_fit_snapshot|].
  exact (GetAllAgents_exact classify synthetic_id no_options snapshot options false
           [] 1 healing sums_fit_snapshot).
Defined.
